(** * UsefulClicker script engine: a shallow embedding of [core/xml_engine_old.py]

    The development follows the Python module top-down: text helpers
    ([_VAR_PATTERN], [_apply_filter], [_substitute_vars]), the values of the
    Variable Store, the engine state with its pause/skip flags, the
    interruptible wait, and the control-flow handlers dispatched by
    [_exec_node]; then what surrounds a run: the registration of functions
    at the end of [_load_xml], the store [__init__] starts from, the casts
    and the splitting of texts in [handle_extnode] and [_hotkey], and
    [_safe_point].

    Conventions.
    - A Python [str] is a Rocq [string] holding its UTF-8 bytes.  Every
      character the patterns of the engine name ([$], [{], [|], [}],
      identifiers, line breaks, commas, plus signs) is ASCII, so matching
      bytes and matching code points agree.  White space is what
      [str.isspace()] accepts, ASCII or not, read off the bytes.  [lower]
      changes the ASCII letters and the Kelvin sign, the one character
      outside ASCII that Python lowers to an ASCII letter; other letters
      outside ASCII stay as they are, and a length is a number of bytes.
    - The values of the store are immutable: evaluating an expression gives
      a value and may change the host's world, not an object the store
      holds.  A script whose expressions change a stored list or dictionary
      in place (as [L.append(3)] does) is outside this embedding.
    - A Python [float] is a binary64 number, Rocq's primitive [float].
    - Times are integers in milliseconds ([time.time()] scaled by 1000), and
      [time.sleep d] advances the clock by exactly [d].
    - What the module calls and does not define (the evaluator [eval],
      conversions between numbers and text, [random], the keyboard, the
      voice daemon, the collaborators of the action handlers) is a
      parameter, the class [Host]; its state is the [World].
    - The hotkey listener runs in a thread of its own and only writes the
      two flags; its writes are delivered by [listen] just before each read
      of a flag by the worker.
    - A [while] loop runs for at most [fuel] iterations, and [_exec_node]
      nests at most [fuel] deep; a run that needs more is [OutOfFuel].
    - Calls of [logger.info] have no effect on the run and are left out. *)

From Stdlib Require Import ZArith Ascii String Floats.PrimFloat DecimalString.
From stdpp Require Import base option list gmap strings.

Set Warnings "-register-all,-inexact-float".
Local Open Scope string_scope.
Local Open Scope Z_scope.

(** ** Text helpers *)

Module PyStr.

Definition code (c : ascii) : N := N_of_ascii c.

Definition in_range (lo hi : N) (c : ascii) : bool :=
  ((lo <=? code c) && (code c <=? hi))%N.

Definition is_upper : ascii -> bool := in_range 65 90.
Definition is_lower : ascii -> bool := in_range 97 122.
Definition is_digit : ascii -> bool := in_range 48 57.

(** [[A-Za-z_]] *)
Definition is_ident_start (c : ascii) : bool :=
  is_upper c || is_lower c || Ascii.eqb c "_".

(** [[A-Za-z0-9_]] *)
Definition is_ident_char (c : ascii) : bool :=
  is_ident_start c || is_digit c.

(** The ASCII characters [str.isspace()] accepts. *)
Definition is_space (c : ascii) : bool :=
  in_range 9 13 c || in_range 28 32 c.

(** The other characters it accepts, by their UTF-8 bytes: U+0085 and
    U+00A0 take two bytes; U+1680, U+2000 to U+200A, U+2028, U+2029, U+202F,
    U+205F and U+3000 take three. *)
Definition blank2 (c d : ascii) : bool :=
  ((code c =? 194) && ((code d =? 133) || (code d =? 160)))%N.

Definition blank3 (c d e : ascii) : bool :=
  (((code c =? 225) && (code d =? 154) && (code e =? 128))
   || ((code c =? 226) && (code d =? 128)
       && (in_range 128 138 e || (code e =? 168) || (code e =? 169) || (code e =? 175)))
   || ((code c =? 226) && (code d =? 129) && (code e =? 159))
   || ((code c =? 227) && (code d =? 128) && (code e =? 128)))%N.

(** The number of bytes of the white-space character [s] starts with; 0
    when it starts with none. *)
Definition blank_len (s : string) : nat :=
  match s with
  | EmptyString => 0
  | String c r =>
      if is_space c then 1
      else if match r with String d _ => blank2 c d | EmptyString => false end then 2
      else if match r with
              | String d (String e _) => blank3 c d e
              | _ => false
              end then 3
      else 0
  end.

(** [s] is one white-space character and nothing else. *)
Definition is_blank (s : string) : bool :=
  match blank_len s with
  | O => false
  | n => Nat.eqb n (String.length s)
  end.

Definition lower_char (c : ascii) : ascii :=
  if is_upper c then ascii_of_N (code c + 32) else c.

(** The Kelvin sign U+212A, the one character outside ASCII that
    [str.lower()] turns into an ASCII letter. *)
Definition is_kelvin (c d e : ascii) : bool :=
  ((code c =? 226) && (code d =? 132) && (code e =? 170))%N.

(** [s.lower()], as far as its ASCII letters go: a letter outside ASCII is
    left as it is. *)
Fixpoint lower (s : string) : string :=
  match s with
  | EmptyString => EmptyString
  | String c r =>
      match r with
      | String d (String e r3) =>
          if is_kelvin c d e then String "k" (lower r3)
          else String (lower_char c) (lower r)
      | _ => String (lower_char c) (lower r)
      end
  end.

Fixpoint lstrip (s : string) : string :=
  match s with
  | EmptyString => EmptyString
  | String c r =>
      match blank_len s with
      | 1%nat => lstrip r
      | 2%nat => match r with String _ r2 => lstrip r2 | EmptyString => s end
      | 3%nat => match r with String _ (String _ r3) => lstrip r3 | _ => s end
      | _ => s
      end
  end.

Fixpoint rstrip (s : string) : string :=
  match s with
  | EmptyString => EmptyString
  | String c r =>
      let r' := rstrip r in
      if is_blank (String c r') then EmptyString else String c r'
  end.

(** [s.strip()] *)
Definition strip (s : string) : string := rstrip (lstrip s).

Definition nonempty (s : string) : bool :=
  match s with EmptyString => false | _ => true end.

(** [x in (a, b, ...)] for strings *)
Definition str_in (x : string) (l : list string) : bool :=
  existsb (String.eqb x) l.

(** [s.startswith(p)] *)
Fixpoint startswith (p s : string) : bool :=
  match p, s with
  | EmptyString, _ => true
  | String a p', String b s' => Ascii.eqb a b && startswith p' s'
  | String _ _, EmptyString => false
  end.

(** [s.replace(old, new)] for a non-empty [old]: left to right, matches do
    not overlap.  [skip] counts the characters of a match still to drop. *)
Fixpoint replace_from (old new : string) (skip : nat) (s : string) : string :=
  match s with
  | EmptyString => EmptyString
  | String c r =>
      match skip with
      | S k => replace_from old new k r
      | O =>
          if startswith old s
          then new +:+ replace_from old new (Nat.pred (String.length old)) r
          else String c (replace_from old new O r)
      end
  end.

Definition replace (old new s : string) : string := replace_from old new O s.

(** The longest prefix of identifier characters, and what follows it. *)
Fixpoint span_ident (s : string) : string * string :=
  match s with
  | String c r =>
      if is_ident_char c
      then let '(a, b) := span_ident r in (String c a, b)
      else (EmptyString, s)
  | EmptyString => (EmptyString, EmptyString)
  end.

(** [[A-Za-z_][A-Za-z0-9_]*] at the head of [s]: the identifier and the rest. *)
Definition match_ident (s : string) : option (string * string) :=
  match s with
  | String c r =>
      if is_ident_start c
      then let '(a, b) := span_ident r in Some (String c a, b)
      else None
  | EmptyString => None
  end.

(** One match of [_VAR_PATTERN]: group 1, group 2, and the match's length. *)
Record placeholder := Placeholder {
  ph_name : string;
  ph_filter : option string;
  ph_len : nat
}.

(** [s[0] == c], false on the empty string *)
Definition head_is (c : ascii) (s : string) : bool :=
  match s with
  | String x _ => Ascii.eqb x c
  | EmptyString => false
  end.

(** [s[1:]] *)
Definition tail (s : string) : string :=
  match s with
  | String _ r => r
  | EmptyString => EmptyString
  end.

(** [_VAR_PATTERN.match] at the head of [s]: a dollar sign and an opening
    brace, an identifier (group 1), optionally a bar and a second
    identifier (group 2), and a closing brace.  Both identifiers are
    greedy, and neither the bar nor the brace is an identifier character,
    so no backtracking of the pattern finds another match. *)
Definition match_placeholder (s : string) : option placeholder :=
  if head_is "$" s && head_is "{" (tail s) then
    match match_ident (tail (tail s)) with
    | Some (name, r1) =>
        if head_is "}" r1 then Some (Placeholder name None (3 + String.length name))
        else if head_is "|" r1 then
          match match_ident (tail r1) with
          | Some (filt, r2) =>
              if head_is "}" r2
              then Some (Placeholder name (Some filt)
                           (4 + String.length name + String.length filt))
              else None
          | None => None
          end
        else None
    | None => None
    end
  else None.

Definition hex_digit (n : N) : ascii :=
  if (n <? 10)%N then ascii_of_N (48 + n) else ascii_of_N (55 + n).

(** The characters [urllib.parse.quote] never encodes. *)
Definition is_unreserved (c : ascii) : bool :=
  is_ident_char c || Ascii.eqb c "." || Ascii.eqb c "-" || Ascii.eqb c "~".

(** [urllib.parse.quote_plus(s)] on the UTF-8 bytes of [s]. *)
Fixpoint quote_plus (s : string) : string :=
  match s with
  | EmptyString => EmptyString
  | String c r =>
      if is_unreserved c then String c (quote_plus r)
      else if Ascii.eqb c " " then String "+" (quote_plus r)
      else String "%" (String (hex_digit (code c / 16))
                         (String (hex_digit (code c mod 16)) (quote_plus r)))
  end.

(** [re.sub] over a pattern matcher: at each position, a match is replaced
    and scanning resumes after it; any other character is copied. *)
Fixpoint sub_from (repl : placeholder -> string) (skip : nat) (s : string) : string :=
  match s with
  | EmptyString => EmptyString
  | String c r =>
      match skip with
      | S k => sub_from repl k r
      | O =>
          match match_placeholder s with
          | Some m => repl m +:+ sub_from repl (Nat.pred (ph_len m)) r
          | None => String c (sub_from repl O r)
          end
      end
  end.

Definition is_break (c : ascii) : bool :=
  Ascii.eqb c "010" || Ascii.eqb c "013".

Definition starts_with_break (s : string) : bool :=
  match s with String c _ => is_break c | EmptyString => false end.

(** [re.split(r"[\r\n]+", s)] as its first piece and the pieces after it:
    a run of line breaks separates two pieces. *)
Fixpoint split_pieces (s : string) : string * list string :=
  match s with
  | EmptyString => (EmptyString, [])
  | String c r =>
      let '(h, t) := split_pieces r in
      if is_break c
      then (EmptyString, if starts_with_break r then t else h :: t)
      else (String c h, t)
  end.

Definition split_breaks (s : string) : list string :=
  let '(h, t) := split_pieces s in h :: t.

(** [[x for x in re.split(r"[\r\n]+", s) if x.strip()]] *)
Definition nonblank_lines (s : string) : list string :=
  filter (fun x => nonempty (strip x) = true) (split_breaks s).

(** [str(n)] of an integer *)
Definition of_Z (z : Z) : string := NilZero.string_of_int (Z.to_int z).

End PyStr.

Import PyStr.

(** ** Values, nodes and exceptions *)

(** A value of the Variable Store, or a result of the host evaluator.
    [VList] is a list or a tuple.  [VObj] is any other Python object (a
    dictionary, a set, a generator, [bytes], a function of the allow-list,
    what an extension returned), known by what the engine can ask of it:
    its [str()], its truth value, and what [list()], [float()] and [int()]
    make of it, [None] where they raise. *)
Inductive Value :=
  | VNone
  | VBool (b : bool)
  | VInt (z : Z)
  | VFloat (f : float)
  | VStr (s : string)
  | VList (l : list Value)
  | VObj (repr : string) (truth : bool) (as_list : option (list Value))
      (as_float : option float) (as_int : option Z).

(** An element of the script: [tag] is [None] for a comment or a processing
    instruction (their [tag] is not a [str]); [attrib] keeps document order. *)
Inductive Node := MkNode {
  tag : option string;
  attrib : list (string * string);
  text : string;
  children : list Node
}.

(** [node.get(k)] *)
Definition get (nd : Node) (k : string) : option string :=
  snd <$> find (fun kv => String.eqb (fst kv) k) (attrib nd).

(** [node.get(k, d)] *)
Definition get_default (nd : Node) (k d : string) : string :=
  default d (get nd k).

(** [x or d] for an optional string: [None] and the empty string are false. *)
Definition str_or (x : option string) (d : string) : string :=
  match x with
  | Some v => if nonempty v then v else d
  | None => d
  end.

(** [if x:] for an optional string *)
Definition truthy_attr (x : option string) : option string :=
  match x with
  | Some v => if nonempty v then Some v else None
  | None => None
  end.

Inductive ExnClass := ValueError | AssertionError | TypeError | RuntimeError | HostError.

(** A raised exception.  [exn_msg] is [None] where the message is the Python
    runtime's own (a failed [int()], [float()] or [list()]). *)
Record Exn := MkExn { exn_class : ExnClass; exn_msg : option string }.

Record KeyState := MkKeys { key_ctrl : bool; key_n : bool; key_space : bool }.

(** What the hotkey listener thread did since the worker last looked:
    whether [_toggle_pause] ran an odd number of times, whether
    [_skip_wait_now] ran. *)
Record Signals := MkSignals { sig_toggle : bool; sig_skip : bool }.

(** [hasattr(self.voice, "get_event")] or not *)
Inductive VoiceKind := VoiceEvents | VoiceQueues.

Record VoiceEvent := MkVoiceEvent {
  ev_text : string;
  ev_type : string;
  ev_seconds : option Value
}.

(** What a collaborator-facing handler ([type], [click], [hotkey], [shell],
    [focus], [llmcall], [extnode]) did before its [_delays]. *)
Record Action := MkAction {
  act_variables : gmap string Value;
  act_elapsed : Z;
  act_raised : option Exn;
  act_delays : bool
}.

(** ** The host: everything the engine calls and this file does not define *)

Class Host := {
  World : Type;
  (** [str(x)] of a float or of a list *)
  host_str : Value -> string;
  (** [float(s)], [float(n)], [int(s)], [int(f)]; [None] when Python raises *)
  float_of_string : string -> option float;
  float_of_Z : Z -> option float;
  int_of_string : string -> option Z;
  int_of_float : float -> option Z;
  (** [eval(expr, {"__builtins__": {}}, env)], where [env] is the store over
      [_ALLOWED_MATH] when the flag is set and the bare store otherwise;
      [None] when it raises.  The world carries [random]. *)
  py_eval : bool -> string -> gmap string Value -> World -> option Value * World;
  (** [int(random.uniform(0, dm/1000.0) * 1000)] *)
  jitter_ms : Z -> World -> Z * World;
  (** [random.shuffle] *)
  shuffle : list Value -> World -> list Value * World;
  (** the listener thread, the [keyboard] module ([None]: absent or raising),
      and the two events of the voice bridge (set: cleared and reported) *)
  hotkey_thread : World -> Signals * World;
  keyboard_state : World -> option KeyState * World;
  skip_event : World -> bool * World;
  pause_toggle_event : World -> bool * World;
  (** [os.getenv("USEFULCLICKER_VOICE")] on, [VoiceDaemon(...).start()]
      ([None]: not importable or failing), and the daemon's three reads with
      the time [get_event] took *)
  voice_env : World -> bool;
  voice_start : option Z -> World -> option VoiceKind * World;
  voice_get_event : World -> option VoiceEvent * Z * World;
  voice_next_command : World -> option VoiceEvent * World;
  voice_next_query : World -> option VoiceEvent * World;
  (** the handlers of the Action Dispatch *)
  action : string -> Node -> gmap string Value -> World -> Action * World
}.

(** ** Engine state *)

(** The fields of [XMLProgram] a run changes, the clock, and one ghost field:
    [paused_ms] adds up the sleeps made while the pause flag was set. *)
Record Engine `{Host} := MkEngine {
  variables : gmap string Value;
  skip_wait : bool;
  paused : bool;
  last_ctrlspace : bool;
  voice : option VoiceKind;
  clock : Z;
  paused_ms : Z;
  world : World
}.

(** What running a piece of the program gives: the state after it, an
    exception with the state it left behind, or no answer within the fuel. *)
Inductive Result `{Host} (A : Type) :=
  | Ok (a : A)
  | Raise (e : Exn) (s : Engine)
  | OutOfFuel.

Arguments Ok {_ _} _.
Arguments Raise {_ _} _ _.
Arguments OutOfFuel {_ _}.

#[export] Instance result_bind `{Host} : MBind Result := fun A B f r =>
  match r with
  | Ok a => f a
  | Raise e s => Raise e s
  | OutOfFuel => OutOfFuel
  end.

(** The [return] statement a wait left through. *)
Inductive WaitExit := ByBridge | BySkip | ByDeadline.

(** One iteration of a [while True] loop: go round again, or leave it. *)
Inductive Step `{Host} (A : Type) :=
  | Again (s : Engine)
  | Exit (a : A) (s : Engine).

Arguments Again {_ _} _.
Arguments Exit {_ _} _ _.

Section Controller.
Context `{H : Host}.

Definition with_variables (v : gmap string Value) (s : Engine) : Engine :=
  MkEngine _ v (skip_wait s) (paused s) (last_ctrlspace s) (voice s)
    (clock s) (paused_ms s) (world s).
Definition with_skip_wait (b : bool) (s : Engine) : Engine :=
  MkEngine _ (variables s) b (paused s) (last_ctrlspace s) (voice s)
    (clock s) (paused_ms s) (world s).
Definition with_paused (b : bool) (s : Engine) : Engine :=
  MkEngine _ (variables s) (skip_wait s) b (last_ctrlspace s) (voice s)
    (clock s) (paused_ms s) (world s).
Definition with_last_ctrlspace (b : bool) (s : Engine) : Engine :=
  MkEngine _ (variables s) (skip_wait s) (paused s) b (voice s)
    (clock s) (paused_ms s) (world s).
Definition with_voice (v : option VoiceKind) (s : Engine) : Engine :=
  MkEngine _ (variables s) (skip_wait s) (paused s) (last_ctrlspace s) v
    (clock s) (paused_ms s) (world s).
Definition with_world (w : World) (s : Engine) : Engine :=
  MkEngine _ (variables s) (skip_wait s) (paused s) (last_ctrlspace s) (voice s)
    (clock s) (paused_ms s) w.

(** [self.variables[k] = v] *)
Definition assign (k : string) (v : Value) (s : Engine) : Engine :=
  with_variables (<[k := v]> (variables s)) s.

(** [time.sleep(d)] while running, and while the pause flag is set *)
Definition sleep (d : Z) (s : Engine) : Engine :=
  MkEngine _ (variables s) (skip_wait s) (paused s) (last_ctrlspace s) (voice s)
    (clock s + d) (paused_ms s) (world s).
Definition sleep_paused (d : Z) (s : Engine) : Engine :=
  MkEngine _ (variables s) (skip_wait s) (paused s) (last_ctrlspace s) (voice s)
    (clock s + d) (paused_ms s + d) (world s).

(** [_toggle_pause] and [_skip_wait_now] *)
Definition toggle_pause (s : Engine) : Engine := with_paused (negb (paused s)) s.
Definition skip_wait_now (s : Engine) : Engine := with_skip_wait true s.

(** The callbacks of the listener thread land before the worker reads a flag. *)
Definition listen (s : Engine) : Engine :=
  let '(sg, w) := hotkey_thread (world s) in
  let s1 := with_world w s in
  let s2 := if sig_toggle sg then toggle_pause s1 else s1 in
  if sig_skip sg then skip_wait_now s2 else s2.

(** [_poll_hotkeys_inline] *)
Definition poll_hotkeys_inline (s : Engine) : Engine :=
  let '(ks, w) := keyboard_state (world s) in
  let s0 := with_world w s in
  match ks with
  | None => s0
  | Some k =>
      let s1 := if key_ctrl k && key_n k then with_skip_wait true s0 else s0 in
      let pressed := key_ctrl k && key_space k in
      let s2 := if pressed && negb (last_ctrlspace s1)
                then with_last_ctrlspace true (toggle_pause s1) else s1 in
      if negb pressed && last_ctrlspace s2 then with_last_ctrlspace false s2 else s2
  end.

(** [_pause_gate] *)
Fixpoint pause_gate (fuel : nat) (s : Engine) : Result Engine :=
  let s := listen s in
  if paused s then
    match fuel with
    | O => OutOfFuel
    | S f =>
        let s1 := sleep_paused 50 (poll_hotkeys_inline s) in
        let '(b, w) := pause_toggle_event (world s1) in
        let s2 := with_world w s1 in
        pause_gate f (if b then toggle_pause s2 else s2)
    end
  else Ok s.

(** One iteration of the loop of [_sleep_ms_interruptible], from the test
    of [self.skip_wait] on. *)
Definition sleep_check (end_ts : Z) (s : Engine) : Step WaitExit :=
  if skip_wait s then Exit BySkip (with_skip_wait false s) else
  let s1 := listen s in
  if paused s1 then Again (sleep_paused 50 s1) else
  let now := clock s1 in
  if end_ts <=? now then Exit ByDeadline s1 else
  Again (sleep (if 50 <? end_ts - now then 50 else end_ts - now) s1).

(** The state in which an iteration of that loop reads [self.skip_wait];
    [None] when the voice bridge ends the wait before the flag is read. *)
Definition sleep_reads (s : Engine) : option Engine :=
  let s1 := poll_hotkeys_inline s in
  let '(b, w) := skip_event (world s1) in
  if b then None else Some (listen (with_world w s1)).

(** One iteration of the loop of [_sleep_ms_interruptible]. *)
Definition sleep_step (end_ts : Z) (s : Engine) : Step WaitExit :=
  let s1 := poll_hotkeys_inline s in
  let '(b, w) := skip_event (world s1) in
  let s2 := with_world w s1 in
  if b then Exit ByBridge s2 else sleep_check end_ts (listen s2).

(** The loop itself, one iteration per unit of fuel. *)
Fixpoint sleep_loop (fuel : nat) (end_ts : Z) (s : Engine) : Result (WaitExit * Engine) :=
  match fuel with
  | O => OutOfFuel
  | S f =>
      match sleep_step end_ts s with
      | Exit a s' => Ok (a, s')
      | Again s' => sleep_loop f end_ts s'
      end
  end.

(** [_sleep_ms_interruptible] *)
Definition sleep_ms_interruptible (fuel : nat) (total_ms : Z) (s : Engine) : Result Engine :=
  if total_ms <=? 0 then Ok s
  else r ← sleep_loop fuel (clock s + total_ms) s; Ok (snd r).

(** [_delays] *)
Definition delays (fuel : nat) (nd : Node) (s : Engine) : Result Engine :=
  s1 ← match truthy_attr (get nd "delay_fixed") ≫= int_of_string with
       | Some df => sleep_ms_interruptible fuel df s
       | None => Ok s
       end;
  match truthy_attr (get nd "delay_ms") ≫= int_of_string with
  | Some dm =>
      let '(j, w) := jitter_ms dm (world s1) in
      sleep_ms_interruptible fuel j (with_world w s1)
  | None => Ok s1
  end.

End Controller.

(** ** Substitution, conversions and the evaluator *)

Section Interpreter.
Context `{H : Host}.

(** [self.functions]: filled when the script is loaded, read-only in a run. *)
Variable functions : gmap string Node.

(** [str(x)] *)
Definition py_str (v : Value) : string :=
  match v with
  | VNone => "None"
  | VBool true => "True"
  | VBool false => "False"
  | VInt z => of_Z z
  | VStr s => s
  | VObj r _ _ _ _ => r
  | VFloat _ | VList _ => host_str v
  end.

(** [bool(x)] *)
Definition py_bool (v : Value) : bool :=
  match v with
  | VNone => false
  | VBool b => b
  | VInt z => negb (z =? 0)
  | VFloat f => negb (PrimFloat.eqb f 0%float)
  | VStr s => nonempty s
  | VList l => match l with [] => false | _ => true end
  | VObj _ t _ _ _ => t
  end.

(** [float(x)]; [None] when it raises *)
Definition py_float (v : Value) : option float :=
  match v with
  | VBool b => Some (if b then 1%float else 0%float)
  | VInt z => float_of_Z z
  | VFloat f => Some f
  | VStr s => float_of_string s
  | VObj _ _ _ f _ => f
  | VNone | VList _ => None
  end.

(** [int(x)]; [None] when it raises *)
Definition py_int (v : Value) : option Z :=
  match v with
  | VBool b => Some (if b then 1 else 0)
  | VInt z => Some z
  | VFloat f => int_of_float f
  | VStr s => int_of_string s
  | VObj _ _ _ _ z => z
  | VNone | VList _ => None
  end.

(** [_apply_filter] *)
Definition apply_filter (value : Value) (filt : option string) : string :=
  let f := lower (strip (default "" filt)) in
  if str_in f ["url"; "urlencode"; "quote"; "quote_plus"]
  then quote_plus (py_str value)
  else py_str value.

(** [repl] inside [_substitute_vars] *)
Definition repl (vars : gmap string Value) (m : placeholder) : string :=
  apply_filter (default (VStr "") (vars !! ph_name m)) (ph_filter m).

(** [_substitute_vars] *)
Definition substitute_vars (value : option string) (vars : gmap string Value) : string :=
  match value with
  | None => ""
  | Some v => sub_from (repl vars) O v
  end.

(** [_safe_eval]: the value of the expression, [None] when it raises.  The
    objects the store holds are taken not to change. *)
Definition safe_eval (expr : string) (vars : gmap string Value) (w : World)
  : option Value * World :=
  py_eval true (replace "&gt;" ">" (replace "&lt;" "<" expr)) vars w.

(** ** Handlers *)

(** The callback the handlers run a child node with: [self._exec_node]. *)
Variable exec : Node -> Engine -> Result Engine.

(** [for child in cs: self._exec_node(child)] *)
Fixpoint exec_children (cs : list Node) (s : Engine) : Result Engine :=
  match cs with
  | [] => Ok s
  | c :: r => s1 ← exec c s; exec_children r s1
  end.

(** [for child in cs: self._pause_gate(); self._exec_node(child)] *)
Fixpoint exec_children_gated (fuel : nat) (cs : list Node) (s : Engine) : Result Engine :=
  match cs with
  | [] => Ok s
  | c :: r =>
      s1 ← pause_gate fuel s;
      s2 ← exec c s1;
      exec_children_gated fuel r s2
  end.

(** The attribute names [handle_set] and [handle_check] pass over. *)
Definition set_skipped : list string := ["delay_fixed"; "delay_ms"].
Definition check_skipped : list string := ["delay_fixed"; "delay_ms"; "tol"; "comment"].

(** One turn of the loop of [handle_set]. *)
Definition set_attr (s : Engine) (kv : string * string) : Engine :=
  let '(k, v) := kv in
  if str_in k set_skipped then s else
  let expr := substitute_vars (Some v) (variables s) in
  let '(r, w) := safe_eval expr (variables s) (world s) in
  assign k (default (VStr expr) r) (with_world w s).

Definition handle_set (fuel : nat) (nd : Node) (s : Engine) : Result Engine :=
  delays fuel nd (fold_left set_attr (attrib nd) s).

Definition is_else (t : string) : bool := String.eqb (lower t) "else".

(** The loop of [handle_if] over the children, [in_else] threaded through. *)
Fixpoint if_children (res in_else : bool) (cs : list Node) (s : Engine) : Result Engine :=
  match cs with
  | [] => Ok s
  | c :: r =>
      match tag c with
      | None => if_children res in_else r s
      | Some t =>
          if is_else t then if_children res true r s
          else if (res && negb in_else) || (negb res && in_else)
          then s1 ← exec c s; if_children res in_else r s1
          else if_children res in_else r s
      end
  end.

(** The value of [res] in [handle_if], and the world after the evaluation. *)
Definition if_cond (nd : Node) (s : Engine) : bool * World :=
  let cond_expanded := substitute_vars (Some (get_default nd "cond" "")) (variables s) in
  let '(r, w) := py_eval false (str_or (Some (strip cond_expanded)) "False") ∅ (world s) in
  (match r with Some v => py_bool v | None => false end, w).

Definition handle_if (nd : Node) (s : Engine) : Result Engine :=
  let '(res, w) := if_cond nd s in
  if_children res false (children nd) (with_world w s).

(** [str(self.variables.get(k))] *)
Definition str_actual (actual : option Value) : string :=
  py_str (default VNone actual).

(** The value of [ok] for one attribute of a [check], and the world after. *)
Definition check_ok (tol : option float) (k v : string) (s : Engine) : bool * World :=
  let expected_raw := substitute_vars (Some v) (variables s) in
  let actual := variables s !! k in
  match tol with
  | Some t =>
      let '(r, w) := safe_eval expected_raw (variables s) (world s) in
      (match r ≫= py_float, actual ≫= py_float with
       | Some e, Some a => PrimFloat.leb (PrimFloat.abs (PrimFloat.sub e a)) t
       | _, _ => false
       end, w)
  | None => (String.eqb (str_actual actual) expected_raw, world s)
  end.

Definition check_message (k v : string) (s : Engine) : string :=
  "Check failed for " +:+ k +:+ ": actual=" +:+ str_actual (variables s !! k)
    +:+ ", expected=" +:+ substitute_vars (Some v) (variables s).

(** The loop of [handle_check]. *)
Fixpoint check_attrs (tol : option float) (kvs : list (string * string)) (s : Engine)
  : Result Engine :=
  match kvs with
  | [] => Ok s
  | (k, v) :: r =>
      if str_in k check_skipped then check_attrs tol r s else
      let '(ok, w) := check_ok tol k v s in
      if ok then check_attrs tol r (with_world w s)
      else Raise (MkExn AssertionError (Some (check_message k v s))) (with_world w s)
  end.

(** [tol] in [handle_check]; [None] when [float] raises. *)
Definition check_tol (nd : Node) : option (option float) :=
  match truthy_attr (get nd "tol") with
  | Some t => Some <$> float_of_string t
  | None => Some None
  end.

Definition handle_check (fuel : nat) (nd : Node) (s : Engine) : Result Engine :=
  match check_tol nd with
  | Some tol => s1 ← check_attrs tol (attrib nd) s; delays fuel nd s1
  | None => Raise (MkExn ValueError None) s
  end.

(** [data] and [items] in [handle_foreach]; [None] when [list(data)] raises. *)
Definition foreach_items (list_attr : string) (s : Engine) : option (list Value) :=
  let data :=
    match variables s !! list_attr with
    | Some d => d
    | None => VList (VStr <$> nonblank_lines (substitute_vars (Some list_attr) (variables s)))
    end in
  match data with
  | VStr d => Some (VStr <$> nonblank_lines d)
  | VList l => Some l
  | VObj _ _ l _ _ => l
  | VNone | VBool _ | VInt _ | VFloat _ => None
  end.

(** The three assignments at the head of the loop of [handle_foreach]. *)
Definition foreach_bind (var_name : string) (idx : Z) (val : Value) (s : Engine) : Engine :=
  assign "arg0" val (assign "index" (VInt idx) (assign var_name val s)).

(** [for idx, val in enumerate(items): ...], from index [idx] on. *)
Fixpoint foreach_loop (fuel : nat) (var_name : string) (body : list Node)
    (idx : Z) (items : list Value) (s : Engine) : Result Engine :=
  match items with
  | [] => Ok s
  | val :: r =>
      s1 ← pause_gate fuel s;
      s2 ← exec_children_gated fuel body (foreach_bind var_name idx val s1);
      foreach_loop fuel var_name body (idx + 1) r s2
  end.

(** [random.shuffle(items)] when the node asks for it. *)
Definition foreach_shuffle (nd : Node) (items : list Value) (w : World)
  : list Value * World :=
  if str_in (get_default nd "random_shuffle" "0") ["1"; "true"; "yes"]
  then shuffle items w else (items, w).

Definition handle_foreach (fuel : nat) (nd : Node) (s : Engine) : Result Engine :=
  let list_attr := str_or (get nd "list") "" in
  let func_name := str_or (get nd "do") "" in
  let var_name := str_or (get nd "var") "item" in
  if negb (nonempty func_name) then Ok s else
  match foreach_items list_attr s with
  | None => Raise (MkExn TypeError None) s
  | Some items0 =>
      let '(items, w) := foreach_shuffle nd items0 (world s) in
      let s0 := with_world w s in
      match functions !! func_name with
      | None =>
          Raise (MkExn ValueError (Some ("Unknown function in foreach: " +:+ func_name))) s0
      | Some func =>
          s1 ← foreach_loop fuel var_name (children func) 0 items s0;
          delays fuel nd s1
      end
  end.

(** [n] in [handle_repeat], and the world after the evaluation. *)
Definition repeat_count (nd : Node) (s : Engine) : Z * World :=
  let expr := str_or (get nd "times") (str_or (get nd "count") "0") in
  let '(r, w) := safe_eval (substitute_vars (Some expr) (variables s)) (variables s) (world s) in
  (Z.max 0 (default 0 (r ≫= py_int)), w).

(** [for _ in range(n): ...] *)
Fixpoint repeat_loop (fuel : nat) (cs : list Node) (n : nat) (s : Engine) : Result Engine :=
  match n with
  | O => Ok s
  | S m => s1 ← exec_children_gated fuel cs s; repeat_loop fuel cs m s1
  end.

Definition handle_repeat (fuel : nat) (nd : Node) (s : Engine) : Result Engine :=
  let '(n, w) := repeat_count nd s in
  s1 ← repeat_loop fuel (children nd) (Z.to_nat n) (with_world w s);
  delays fuel nd s1.

(** One turn of the argument loop of [handle_call]. *)
Definition call_arg (s : Engine) (kv : string * string) : Engine :=
  let '(k, v) := kv in
  if startswith "arg" k
  then assign k (VStr (substitute_vars (Some v) (variables s))) s
  else s.

Definition unknown_function (name : option string) : Exn :=
  MkExn ValueError (Some ("Unknown function: " +:+ default "None" name)).

(** The function a [call] names, when it names one that is registered. *)
Definition callee (nd : Node) : option Node :=
  truthy_attr (get nd "name") ≫= (functions !!.).

Definition handle_call (fuel : nat) (nd : Node) (s : Engine) : Result Engine :=
  match callee nd with
  | None => Raise (unknown_function (get nd "name")) s
  | Some func =>
      s1 ← exec_children (children func) (fold_left call_arg (attrib nd) s);
      delays fuel nd s1
  end.

(** [handle_func]: [pass] *)
Definition handle_func (nd : Node) (s : Engine) : Result Engine := Ok s.

Definition handle_wait (fuel : nat) (nd : Node) (s : Engine) : Result Engine :=
  match int_of_string (get_default nd "ms" "0") with
  | Some ms => sleep_ms_interruptible fuel ms s
  | None => Raise (MkExn ValueError None) s
  end.

(** [_ensure_voice] *)
Definition ensure_voice (s : Engine) : Engine :=
  match voice s with
  | Some _ => s
  | None =>
      let on := ["1"; "true"; "yes"] in
      let flag_xml :=
        str_in (lower (strip (py_str (default (VStr "0") (variables s !! "VOICE_ENABLED"))))) on in
      if negb (flag_xml || voice_env (world s)) then s else
      let dev :=
        match variables s !! "VOICE_DEVICE" with
        | Some d => if nonempty (strip (py_str d)) then py_int d else None
        | None => None
        end in
      let '(v, w) := voice_start dev (world s) in
      with_voice v (with_world w s)
  end.

(** [deadline and time.time() > deadline] *)
Definition past (deadline : option Z) (s : Engine) : bool :=
  match deadline with
  | Some d => d <? clock s
  | None => false
  end.

(** An iteration of the first loop of [handle_voice_event] (the daemon has
    [get_event]), from the test of [self.skip_wait] on. *)
Definition voice_events_check (want : string) (deadline : option Z) (s : Engine)
  : Step (string * string) :=
  if skip_wait s then Exit ("", "") (with_skip_wait false s) else
  let '(evt, dt, w) := voice_get_event (world s) in
  let s1 := sleep dt (with_world w s) in
  match evt with
  | Some e =>
      if str_in want ["any"; ev_type e] then Exit (ev_text e, ev_type e) s1
      else if past deadline s1 then Exit ("", "") s1 else Again s1
  | None => if past deadline s1 then Exit ("", "") s1 else Again s1
  end.

(** An iteration of its second loop (command and query queues). *)
Definition voice_queues_check (want : string) (deadline : option Z) (s : Engine)
  : Step (string * string) :=
  if skip_wait s then Exit ("", "") (with_skip_wait false s) else
  let '(cmd, w1) :=
    if str_in want ["any"; "command"] then voice_next_command (world s)
    else (None, world s) in
  match cmd with
  | Some e => Exit (ev_text e, "command") (with_world w1 s)
  | None =>
      let '(qry, w2) :=
        if str_in want ["any"; "query"] then voice_next_query w1 else (None, w1) in
      let s1 := with_world w2 s in
      match qry with
      | Some e => Exit (ev_text e, "query") s1
      | None => if past deadline s1 then Exit ("", "") s1 else Again (sleep 50 s1)
      end
  end.

(** Either loop of [handle_voice_event]: the pause gate, then the rest of
    the iteration on the flags as the listener thread left them. *)
Fixpoint voice_loop (check : Engine -> Step (string * string)) (fuel : nat) (s : Engine)
  : Result (string * string * Engine) :=
  match fuel with
  | O => OutOfFuel
  | S f =>
      s1 ← pause_gate f s;
      match check (listen s1) with
      | Exit r s' => Ok (r, s')
      | Again s' => voice_loop check f s'
      end
  end.

Definition handle_voice_event (fuel : nat) (nd : Node) (s : Engine) : Result Engine :=
  let s0 := ensure_voice s in
  let want := lower (str_or (get nd "type") "any") in
  let out := str_or (get nd "out") "VOICE_TEXT" in
  match int_of_string (get_default nd "wait" "0") with
  | None => Raise (MkExn ValueError None) s0
  | Some wait_ms =>
      let store r s' := assign (out +:+ "_type") (snd r) (assign out (fst r) s') in
      match voice s0 with
      | None => delays fuel nd (store (VStr "", VStr "") s0)
      | Some kind =>
          let deadline := if wait_ms =? 0 then None else Some (clock s0 + wait_ms) in
          let check :=
            match kind with
            | VoiceEvents => voice_events_check want deadline
            | VoiceQueues => voice_queues_check want deadline
            end in
          r ← voice_loop check fuel s0;
          delays fuel nd (store (VStr (fst (fst r)), VStr (snd (fst r))) (snd r))
      end
  end.

Definition handle_voice_poll (fuel : nat) (nd : Node) (s : Engine) : Result Engine :=
  let s0 := ensure_voice s in
  let out_cmd := str_or (get nd "out_cmd") "VOICE_CMD" in
  let out_query := str_or (get nd "out_query") "VOICE_QUERY" in
  let '(cmd, query, s3) :=
    match voice s0 with
    | None => ("", "", s0)
    | Some _ =>
        let '(c, w1) := voice_next_command (world s0) in
        let s1 := with_world w1 s0 in
        let s2 :=
          match c ≫= ev_seconds with
          | Some secs => assign (out_cmd +:+ "_seconds") secs s1
          | None => s1
          end in
        let '(q, w2) := voice_next_query (world s2) in
        (default "" (ev_text <$> c), default "" (ev_text <$> q), with_world w2 s2)
    end in
  delays fuel nd (assign out_query (VStr query) (assign out_cmd (VStr cmd) s3)).

(** A handler of the Action Dispatch: the collaborator's work, then [_delays]. *)
Definition handle_action (fuel : nat) (tagl : string) (nd : Node) (s : Engine)
  : Result Engine :=
  let '(a, w) := action tagl nd (variables s) (world s) in
  let s1 := sleep (act_elapsed a) (with_variables (act_variables a) (with_world w s)) in
  match act_raised a with
  | Some e => Raise e s1
  | None => if act_delays a then delays fuel nd s1 else Ok s1
  end.

End Interpreter.

(** ** The dispatcher *)

Section Dispatcher.
Context `{H : Host}.
Variable functions : gmap string Node.

Definition tag_lower (nd : Node) : string := lower (default "" (tag nd)).

Definition action_tags : list string :=
  ["type"; "click"; "hotkey"; "shell"; "focus"; "llmcall"; "extnode"].

(** [_exec_node]; an unknown tag does nothing. *)
Fixpoint exec_node (fuel : nat) (nd : Node) (s : Engine) : Result Engine :=
  match fuel with
  | O => OutOfFuel
  | S f =>
      s1 ← pause_gate f s;
      let tagl := tag_lower nd in
      if String.eqb tagl "set" then handle_set f nd s1
      else if String.eqb tagl "if" then handle_if (exec_node f) nd s1
      else if String.eqb tagl "voice_poll" then handle_voice_poll f nd s1
      else if String.eqb tagl "check" then handle_check f nd s1
      else if String.eqb tagl "foreach" then handle_foreach functions (exec_node f) f nd s1
      else if String.eqb tagl "func" then handle_func nd s1
      else if String.eqb tagl "call" then handle_call functions (exec_node f) f nd s1
      else if String.eqb tagl "repeat" then handle_repeat (exec_node f) f nd s1
      else if String.eqb tagl "wait" then handle_wait f nd s1
      else if String.eqb tagl "voice_event" then handle_voice_event f nd s1
      else if str_in tagl action_tags then handle_action f tagl nd s1
      else Ok s1
  end.

(** The loop of [run] over the children of the root. *)
Fixpoint run_nodes (fuel : nat) (cs : list Node) (s : Engine) : Result Engine :=
  match cs with
  | [] => Ok s
  | c :: r =>
      if String.eqb (tag_lower c) "func" || negb (nonempty (default "" (tag c)))
      then run_nodes fuel r s
      else s1 ← exec_node fuel c s; run_nodes fuel r s1
  end.

Definition run (fuel : nat) (tree : Node) (s : Engine) : Result Engine :=
  run_nodes fuel (children tree) s.

End Dispatcher.

(** ** Loading, casts and screen bounds *)

(** [pyautogui.size()], when there is a [pyautogui] and when it answers. *)
Inductive Screen := NoPyautogui | SizeRaises | ScreenSize (sw sh : Z).

(** [_safe_point], on integer coordinates *)
Definition safe_point (scr : Screen) (x y margin : Z) : Z * Z :=
  match scr with
  | NoPyautogui => (x, y)
  | SizeRaises =>
      (Z.max margin (Z.min x (1920 - margin)), Z.max margin (Z.min y (1080 - margin)))
  | ScreenSize sw sh =>
      (Z.max margin (Z.min x (sw - margin)), Z.max margin (Z.min y (sh - margin)))
  end.

(** The elements beneath a node, in document order: what [".//"] selects. *)
Fixpoint descendants (nd : Node) : list Node :=
  match nd with
  | MkNode _ _ _ cs =>
      (fix go (l : list Node) : list Node :=
         match l with
         | [] => []
         | c :: r => (c :: descendants c ++ go r)%list
         end) cs
  end.

(** The tag is [func], letter for letter. *)
Definition is_func (nd : Node) : bool :=
  match tag nd with
  | Some t => String.eqb t "func"
  | None => false
  end.

(** [name = func.get("name"); if name: self.functions[name] = func] *)
Definition register (fns : gmap string Node) (func : Node) : gmap string Node :=
  match truthy_attr (get func "name") with
  | Some name => <[name := func]> fns
  | None => fns
  end.

(** The last loop of [_load_xml], over [self.tree.findall(".//func")]. *)
Definition register_functions (tree : Node) : gmap string Node :=
  fold_left register (filter (fun d => is_func d = true) (descendants tree)) ∅.

(** [s.split(sep)] for a separator of one character, as its first piece and
    the pieces after it. *)
Fixpoint split_on (sep : ascii) (s : string) : string * list string :=
  match s with
  | EmptyString => (EmptyString, [])
  | String c r =>
      let '(h, t) := split_on sep r in
      if Ascii.eqb c sep then (EmptyString, h :: t) else (String c h, t)
  end.

Definition split_char (sep : ascii) (s : string) : list string :=
  let '(h, t) := split_on sep s in h :: t.

(** [sep.join(l)] *)
Fixpoint join (sep : string) (l : list string) : string :=
  match l with
  | [] => EmptyString
  | x :: r =>
      match r with
      | [] => x
      | _ :: _ => x +:+ sep +:+ join sep r
      end
  end.

(** [s.endswith(suffix)] *)
Fixpoint endswith (suffix s : string) : bool :=
  String.eqb s suffix
  || match s with
     | String _ r => endswith suffix r
     | EmptyString => false
     end.

(** [[p.strip() for p in s.split(sep) if p.strip()]] *)
Definition stripped_parts (sep : ascii) (s : string) : list string :=
  filter (fun p => nonempty p = true) (strip <$> split_char sep s).

(** [_hotkey]: the text [keyboard.send] is given, and the keys
    [pyautogui.hotkey] is given when the first is not available. *)
Definition hotkey_send (combo : string) : string := join "+" (stripped_parts "+" combo).
Definition hotkey_keys (combo : string) : list string := lower <$> stripped_parts "+" combo.

Section Casts.
Context `{H : Host}.

(** [_maybe_int] and [_maybe_float] *)
Definition maybe_int (v : string) : Value :=
  match int_of_string v with
  | Some z => VInt z
  | None => VStr v
  end.

Definition maybe_float (v : string) : Value :=
  match float_of_string v with
  | Some f => VFloat f
  | None => VStr v
  end.

(** [_smart_cast] *)
Definition smart_cast (s : Value) : Value :=
  match s with
  | VInt _ | VFloat _ | VBool _ => s
  | VNone | VStr _ | VList _ | VObj _ _ _ _ _ =>
      let st := strip (py_str s) in
      if str_in (lower st) ["1"; "true"; "yes"; "on"] then VBool true
      else if str_in (lower st) ["0"; "false"; "no"; "off"] then VBool false
      else match maybe_int st with
           | VStr v => maybe_float v
           | v => v
           end
  end.

(** The attribute names [handle_extnode] keeps for itself. *)
Definition extnode_reserved : list string :=
  ["module"; "class"; "method"; "output_var"; "delay_fixed"; "delay_ms"; "func";
   "output_format"; "separator"].

(** [k in ("disciplines","subtopics") or k.lower().endswith("_list")] *)
Definition is_list_arg (k : string) : bool :=
  str_in k ["disciplines"; "subtopics"] || endswith "_list" (lower k).

(** One turn of the loop of [handle_extnode] that builds [kw]. *)
Definition extnode_arg (vars : gmap string Value) (k v : string) : Value :=
  let vv := substitute_vars (Some v) vars in
  if is_list_arg k then VList (VStr <$> stripped_parts "," vv) else smart_cast (VStr vv).

(** [kw] in [handle_extnode], in the order the keywords were inserted. *)
Definition extnode_kwargs (nd : Node) (vars : gmap string Value) : list (string * Value) :=
  (fun kv => (fst kv, extnode_arg vars (fst kv) (snd kv)))
    <$> filter (fun kv => str_in (fst kv) extnode_reserved = false) (attrib nd).

(** [self.variables] as [__init__] leaves it. *)
Definition initial_variables (scr : Screen) : gmap string Value :=
  match scr with
  | ScreenSize sw sh => <["SCREEN_H" := VInt sh]> {[ "SCREEN_W" := VInt sw ]}
  | NoPyautogui | SizeRaises => <["SCREEN_H" := VInt 1080]> {[ "SCREEN_W" := VInt 1920 ]}
  end.

(** The engine [__init__] builds, at time [now]. *)
Definition new_engine (scr : Screen) (now : Z) (w : World) : Engine :=
  MkEngine _ (initial_variables scr) false false false None now 0 w.

(** [XMLProgram(path).run()] on a parsed program. *)
Definition run_program (fuel : nat) (scr : Screen) (now : Z) (w : World) (tree : Node)
  : Result Engine :=
  run (register_functions tree) fuel tree (new_engine scr now w).

End Casts.

(** * What the specification says, as definitions

    Each definition below follows the words of a claim; the theorems compare
    it with the embedding of the code above. *)

(** ** Placeholders (C9) *)

(** A text seen as the specification sees it: stretches free of
    placeholders, and between them placeholders with a name and maybe a
    filter. *)
Inductive Template :=
  | Text (t : string)
  | Hole (t : string) (name : string) (filt : option string) (rest : Template).

Fixpoint all_ident_chars (s : string) : bool :=
  match s with
  | EmptyString => true
  | String c r => is_ident_char c && all_ident_chars r
  end.

Definition is_ident (s : string) : bool :=
  match s with
  | EmptyString => false
  | String c r => is_ident_start c && all_ident_chars r
  end.

(** A text the identifier scan stops at: the end, or a character that is no
    part of an identifier. *)
Definition stops (b : string) : bool :=
  match b with
  | EmptyString => true
  | String c _ => negb (is_ident_char c)
  end.

(** Some position of [s] starts a placeholder. *)
Fixpoint has_placeholder (s : string) : bool :=
  match s with
  | EmptyString => false
  | String _ r => bool_decide (is_Some (match_placeholder s)) || has_placeholder r
  end.

Definition hole_text (name : string) (filt : option string) : string :=
  "${" +:+ name +:+ match filt with Some f => "|" +:+ f | None => "" end +:+ "}".

Fixpoint render (tpl : Template) : string :=
  match tpl with
  | Text t => t
  | Hole t name filt rest => t +:+ hole_text name filt +:+ render rest
  end.

Fixpoint well_formed (tpl : Template) : bool :=
  match tpl with
  | Text t => negb (has_placeholder t)
  | Hole t name filt rest =>
      negb (has_placeholder t) && is_ident name
      && match filt with Some f => is_ident f | None => true end
      && well_formed rest
  end.

(** Reading a text as a template: [cons_text] puts one more character in
    front of it, [read_from] reads it from the left, [skip] characters of a
    placeholder still to pass. *)
Definition cons_text (c : ascii) (tpl : Template) : Template :=
  match tpl with
  | Text t => Text (String c t)
  | Hole t name filt rest => Hole (String c t) name filt rest
  end.

Fixpoint read_from (skip : nat) (s : string) : Template :=
  match s with
  | EmptyString => Text ""
  | String c r =>
      match skip with
      | S k => read_from k r
      | O =>
          match match_placeholder s with
          | Some m => Hole "" (ph_name m) (ph_filter m) (read_from (Nat.pred (ph_len m)) r)
          | None => cons_text c (read_from O r)
          end
      end
  end.

Definition read (s : string) : Template := read_from O s.

(** The stretch a template starts with. *)
Definition first_text (tpl : Template) : string :=
  match tpl with
  | Text t => t
  | Hole t _ _ _ => t
  end.

(** [s[k:]] *)
Fixpoint drop_str (k : nat) (s : string) : string :=
  match k, s with
  | S k', String _ r => drop_str k' r
  | _, _ => s
  end.

Definition url_filters : list string := ["url"; "urlencode"; "quote"; "quote_plus"].

Section Expansion.
Context `{H : Host}.

(** What a placeholder stands for: nothing when the name is unset, the
    percent-encoded value under a URL filter (letters, digits and [_.-~]
    kept, a space written as a plus sign, any other byte as a percent sign
    and two hexadecimal digits), the value itself otherwise. *)
Definition hole_value (vars : gmap string Value) (name : string) (filt : option string)
  : string :=
  match vars !! name with
  | None => ""
  | Some x =>
      match filt with
      | Some f => if str_in (lower f) url_filters then quote_plus (py_str x) else py_str x
      | None => py_str x
      end
  end.

Fixpoint expand (vars : gmap string Value) (tpl : Template) : string :=
  match tpl with
  | Text t => t
  | Hole t name filt rest => t +:+ hole_value vars name filt +:+ expand vars rest
  end.

End Expansion.

(** ** A small host, to run the engine on concrete scripts

    Its evaluator knows signed decimal integer literals and the float
    literals of the specification's examples, on which it agrees with
    Python's [eval], [int] and [float]; it knows no name, and raises on the
    one bare word the scripts below evaluate ([hi]), as Python does for a
    name that is not defined.  There is no keyboard module, no voice daemon
    and no voice bridge; the world is the list of what the listener thread
    will have done at each of the worker's next looks. *)

Module Demo.

Fixpoint digits (acc : Z) (s : string) : option Z :=
  match s with
  | EmptyString => Some acc
  | String c r =>
      if is_digit c then digits (acc * 10 + (Z.of_N (code c) - 48)) r else None
  end.

Definition unsigned (s : string) : option Z :=
  if nonempty s then digits 0 s else None.

(** [int(s)] for an optional sign and digits *)
Definition int_of (s : string) : option Z :=
  match s with
  | String "-" r => Z.opp <$> unsigned r
  | String "+" r => unsigned r
  | _ => unsigned s
  end.

(** An integer literal of Python: no sign of its own, no leading zero. *)
Definition int_literal (s : string) : option Z :=
  match s with
  | String "0" (String _ _) => None
  | _ => unsigned s
  end.

Definition float_of (s : string) : option float :=
  if String.eqb s "1.0" then Some 1.0%float
  else if String.eqb s "1.02" then Some 1.02%float
  else if String.eqb s "1.004" then Some 1.004%float
  else if String.eqb s "0.01" then Some 0.01%float
  else None.

(** [eval] on a literal, a negated integer literal, or anything else. *)
Definition eval (s : string) : option Value :=
  match s with
  | String "-" r => (fun z => VInt (- z)) <$> int_literal r
  | _ =>
      match int_literal s with
      | Some z => Some (VInt z)
      | None => VFloat <$> float_of s
      end
  end.

(** [str] of the floats above; nothing else is printed below. *)
Definition str_of (v : Value) : string :=
  match v with
  | VFloat f =>
      if PrimFloat.eqb f 1.0%float then "1.0"
      else if PrimFloat.eqb f 1.02%float then "1.02"
      else if PrimFloat.eqb f 1.004%float then "1.004"
      else if PrimFloat.eqb f 0.01%float then "0.01"
      else ""
  | _ => ""
  end.

Definition quiet : Signals := MkSignals false false.
Definition toggles : Signals := MkSignals true false.
Definition skips : Signals := MkSignals false true.

Definition next_signals (w : list Signals) : Signals * list Signals :=
  match w with
  | [] => (quiet, [])
  | sg :: r => (sg, r)
  end.

#[export] Instance host : Host := {|
  World := list Signals;
  host_str := str_of;
  float_of_string := float_of;
  float_of_Z := fun _ => None;
  int_of_string := int_of;
  int_of_float := fun _ => None;
  py_eval := fun _ expr _ w => (eval expr, w);
  jitter_ms := fun _ w => (0, w);
  shuffle := fun l w => (l, w);
  hotkey_thread := next_signals;
  keyboard_state := fun w => (None, w);
  skip_event := fun w => (false, w);
  pause_toggle_event := fun w => (false, w);
  voice_env := fun _ => false;
  voice_start := fun _ w => (None, w);
  voice_get_event := fun w => (None, 0, w);
  voice_next_command := fun w => (None, w);
  voice_next_query := fun w => (None, w);
  action := fun _ _ vars w => (MkAction vars 0 None true, w)
|}.

(** A fresh engine at time 0, with the given store and listener script. *)
Definition engine (vars : gmap string Value) (w : list Signals) : Engine :=
  MkEngine host vars false false false None 0 0 w.

Definition node (t : string) (a : list (string * string)) (cs : list Node) : Node :=
  MkNode (Some t) a "" cs.

(** What a run left in a variable, when it ended normally. *)
Definition after (r : Result Engine) (k : string) : option Value :=
  match r with
  | Ok s => variables s !! k
  | _ => None
  end.

Definition completed (r : Result Engine) : bool :=
  match r with Ok _ => true | _ => false end.

(** The clock and the time slept paused, when a run ended normally. *)
Definition timing (r : Result Engine) : option (Z * Z) :=
  match r with
  | Ok s => Some (clock s, paused_ms s)
  | _ => None
  end.

(** The listener thread sets the pause flag as a wait starts and clears it
    three slices later: the worker looks twice in a slice. *)
Definition pause_then_resume : list Signals :=
  [toggles; quiet; quiet; quiet; quiet; quiet; toggles].

Definition wait_100 : Node := node "wait" [("ms", "100")] [].

(** The end of that wait under [pause_then_resume]. *)
Definition wait_100_end : Engine := MkEngine host ∅ false false false None 150 150 [].

(** An engine on which a skip was requested. *)
Definition skipping : Engine := MkEngine host ∅ true false false None 0 0 [].

(** Four functions: [g] does nothing; [f] passes the loop variable [x] on to
    [g]; [h] calls [g] with an [arg0] of its own; [c] asserts that [index]
    reads 0. *)
Definition functions : gmap string Node :=
  list_to_map
    [("g", node "func" [("name", "g")] []);
     ("f", node "func" [("name", "f")]
             [node "call" [("name", "g"); ("arg1", "${x}")] []]);
     ("h", node "func" [("name", "h")] [node "call" [("name", "g"); ("arg0", "inner")] []]);
     ("c", node "func" [("name", "c")] [node "check" [("index", "0")] []])].

Definition newline : string := String "010" "".

(** [<foreach list="a\nb" var=... do=.../>] and [<foreach list="a" .../>] *)
Definition foreach_ab (var_name func_name : string) : Node :=
  node "foreach" [("list", "a" +:+ newline +:+ "b"); ("var", var_name); ("do", func_name)] [].

Definition foreach_a (var_name func_name : string) : Node :=
  node "foreach" [("list", "a"); ("var", var_name); ("do", func_name)] [].

Definition call_missing : Node := node "call" [("name", "missing"); ("arg0", "v")] [].

Definition call_f : Node :=
  node "call" [("name", "f"); ("arg0", "a"); ("arg1", "${arg0}b")] [].

(** The engine with the arguments of [call_f] bound, and the engine after
    the call: the body of [f] has called [g] with the unset [x] as [arg1]. *)
Definition call_f_bound : Engine :=
  MkEngine host (<["arg1" := VStr "ab"]> {[ "arg0" := VStr "a" ]})
    false false false None 0 0 [].

Definition call_f_end : Engine :=
  MkEngine host (<["arg1" := VStr ""]> {[ "arg0" := VStr "a" ]})
    false false false None 0 0 [].

Definition set_tol_comment : Node := node "set" [("tol", "1"); ("comment", "hi")] [].

Definition set_with_delay : Node := node "set" [("delay_fixed", "20"); ("x", "1")] [].

(** The engine after [set_with_delay], run on a fresh engine. *)
Definition set_with_delay_end : Engine :=
  MkEngine host {[ "x" := VInt 1 ]} false false false None 20 0 [].

(** The body of [f], and the engine after [foreach_ab "x" "f"], run on a
    fresh engine. *)
Definition body_f : list Node := [node "call" [("name", "g"); ("arg1", "${x}")] []].

Definition foreach_ab_end : Engine :=
  MkEngine host
    (list_to_map [("x", VStr "b"); ("index", VInt 1); ("arg0", VStr "b"); ("arg1", VStr "b")])
    false false false None 0 0 [].

(** The two checks of the specification's example, on a stored 1.004. *)
Definition stored : gmap string Value := {[ "x" := VFloat 1.004%float ]}.

Definition check_near : Node := node "check" [("x", "1.0"); ("tol", "0.01")] [].

Definition check_far : Node := node "check" [("x", "1.02"); ("tol", "0.01")] [].

(** [q=${X|url}&u=${Y}&z=${X|upper}!] *)
Definition query : Template :=
  Hole "q=" "X" (Some "url") (Hole "&u=" "Y" None (Hole "&z=" "X" (Some "upper") (Text "!"))).

(** [<repeat times=.../>] around a call that appends an [x] to [arg1]. *)
Definition repeat_x (times : string) : Node :=
  node "repeat" [("times", times)] [node "call" [("name", "g"); ("arg1", "${arg1}x")] []].

End Demo.

(** ** Waits and control flow (C1, C2, C3, C5, C6, C8, C10) *)

Definition is_else_node (c : Node) : bool :=
  match tag c with
  | Some t => is_else t
  | None => false
  end.

(** A child an [if] may run: an element that is no [else] marker. *)
Definition runnable (c : Node) : bool :=
  match tag c with
  | Some t => negb (is_else t)
  | None => false
  end.

(** The children before the first [else] marker, and those after it. *)
Fixpoint before_else (cs : list Node) : list Node :=
  match cs with
  | [] => []
  | c :: r => if is_else_node c then [] else c :: before_else r
  end.

Fixpoint after_else (cs : list Node) : list Node :=
  match cs with
  | [] => []
  | c :: r => if is_else_node c then r else after_else r
  end.

(** What an [if] runs, in order: one side of the first marker, markers and
    comments left out. *)
Definition if_branch (res : bool) (cs : list Node) : list Node :=
  filter (fun c => runnable c = true) (if res then before_else cs else after_else cs).

Definition is_arg (kv : string * string) : bool := startswith "arg" (fst kv).

Section Control.
Context `{H : Host}.

(** The store, the clock and the paused time of two states agree. *)
Definition same_frame (s s' : Engine) : Prop :=
  variables s' = variables s /\ clock s' = clock s /\ paused_ms s' = paused_ms s.

(** Time still to go to a deadline, and time spent not paused (C1). *)
Definition to_go (end_ts : Z) (s : Engine) : Z := Z.max 0 (end_ts - clock s).
Definition running (s : Engine) : Z := clock s - paused_ms s.

(** [waits end_ts s early s']: a wait entered in [s] ends at its deadline in
    [s'], where the deadline [end_ts] is the same at every look (C1).  At
    each look the skip flag is clear.  Paused, the wait sleeps a slice of
    50 ms whatever the clock says, and what of that slice lies before the
    deadline is added to [early].  Not paused and before the deadline, it
    sleeps to the deadline or for 50 ms, whichever is shorter.  Not paused
    and at or past the deadline, it returns at once. *)
Inductive waits (end_ts : Z) : Engine -> Z -> Engine -> Prop :=
  | waits_done (s s3 : Engine) :
      sleep_reads s = Some s3 -> skip_wait s3 = false ->
      paused (listen s3) = false -> end_ts <= clock s3 ->
      waits end_ts s 0 (listen s3)
  | waits_paused (s s3 s' : Engine) (early : Z) :
      sleep_reads s = Some s3 -> skip_wait s3 = false ->
      paused (listen s3) = true ->
      waits end_ts (sleep_paused 50 (listen s3)) early s' ->
      waits end_ts s (Z.min 50 (to_go end_ts s3) + early) s'
  | waits_running (s s3 s' : Engine) (early : Z) :
      sleep_reads s = Some s3 -> skip_wait s3 = false ->
      paused (listen s3) = false -> clock s3 < end_ts ->
      waits end_ts (sleep (Z.min 50 (end_ts - clock s3)) (listen s3)) early s' ->
      waits end_ts s early s'.

(** Both sides convert to floats no further apart than the tolerance. *)
Definition within_tolerance (t : float) (expected actual : option Value) : Prop :=
  exists e a : float,
    expected ≫= py_float = Some e /\ actual ≫= py_float = Some a
    /\ PrimFloat.leb (PrimFloat.abs (PrimFloat.sub e a)) t = true.

(** Binding one argument attribute as a substituted string. *)
Definition bind_arg (s : Engine) (kv : string * string) : Engine :=
  assign (fst kv) (VStr (substitute_vars (Some (snd kv)) (variables s))) s.

(** Binding every argument attribute, in document order. *)
Definition bind_args (attrs : list (string * string)) (s : Engine) : Engine :=
  fold_left bind_arg (filter (fun kv => is_arg kv = true) attrs) s.

(** The count of a [repeat]: zero when the evaluation failed, when its
    result is no integer, or when it is negative. *)
Definition times_of (r : option Value) : nat :=
  match r ≫= py_int with
  | Some z => if z <? 0 then O else Z.to_nat z
  | None => O
  end.

Variable exec : Node -> Engine -> Result Engine.

(** [in_order fuel cs s s']: each node of [cs] is run once, one after the
    other and each behind the pause gate, and all end normally; this takes
    [s] to [s']. *)
Inductive in_order (fuel : nat) : list Node -> Engine -> Engine -> Prop :=
  | in_order_nil (s : Engine) : in_order fuel [] s s
  | in_order_cons (c : Node) (r : list Node) (s s1 s2 s3 : Engine) :
      pause_gate fuel s = Ok s1 ->
      exec c s1 = Ok s2 ->
      in_order fuel r s2 s3 ->
      in_order fuel (c :: r) s s3.

(** [in_turn cs s s']: each node of [cs] is run once, one after the other,
    each in the state the one before it left, and all end normally; this
    takes [s] to [s'].  It is how the body of a called function runs (C3). *)
Inductive in_turn : list Node -> Engine -> Engine -> Prop :=
  | in_turn_nil (s : Engine) : in_turn [] s s
  | in_turn_cons (c : Node) (r : list Node) (s s1 s2 : Engine) :
      exec c s = Ok s1 ->
      in_turn r s1 s2 ->
      in_turn (c :: r) s s2.


(** The loop variables as the claim states them before a body run; the
    per-element variable holds the element unless [index] overwrites it. *)
Definition loop_bound (var_name : string) (idx : Z) (val : Value) (s : Engine) : Prop :=
  variables s !! "index" = Some (VInt idx)
  /\ variables s !! "arg0" = Some val
  /\ (var_name <> "index" -> variables s !! var_name = Some val).

(** [body_runs fuel var body idx items s pres s']: one run of [body] per
    item, from index [idx] on; [pres] are the states the runs start in. *)
Inductive body_runs (fuel : nat) (var_name : string) (body : list Node)
  : Z -> list Value -> Engine -> list Engine -> Engine -> Prop :=
  | body_runs_nil (idx : Z) (s : Engine) : body_runs fuel var_name body idx [] s [] s
  | body_runs_cons (idx : Z) (val : Value) (items : list Value)
      (s s1 post s' : Engine) (pres : list Engine) :
      pause_gate fuel s = Ok s1 ->
      in_order fuel body (foreach_bind var_name idx val s1) post ->
      body_runs fuel var_name body (idx + 1) items post pres s' ->
      body_runs fuel var_name body idx (val :: items) s
        (foreach_bind var_name idx val s1 :: pres) s'.

End Control.

(** ** Vocabulary of the further properties *)

(** Every character of [s] passes the test [p]. *)
Fixpoint all_chars (p : ascii -> bool) (s : string) : bool :=
  match s with
  | EmptyString => true
  | String c r => p c && all_chars p r
  end.

(** The characters a percent-encoded text is made of. *)
Definition is_url_safe (c : ascii) : bool :=
  is_unreserved c || Ascii.eqb c "+" || Ascii.eqb c "%".

Definition no_break (c : ascii) : bool := negb (is_break c).

(** A character other than [sep]. *)
Definition other_than (sep c : ascii) : bool := negb (Ascii.eqb c sep).

(** A text as [stripped_parts] gives them: no white space at either end,
    not empty, and free of the separator. *)
Definition clean_part (sep : ascii) (p : string) : Prop :=
  strip p = p /\ p <> "" /\ all_chars (other_than sep) p = true.

(** A value [handle_foreach] can loop over: a text, a list or a tuple, or an
    object that [list()] accepts. *)
Definition listable (d : Value) : bool :=
  match d with
  | VStr _ | VList _ => true
  | VObj _ _ (Some _) _ _ => true
  | VObj _ _ None _ _ | VNone | VBool _ | VInt _ | VFloat _ => false
  end.

(** A dollar sign followed by an opening brace occurs in [s]. *)
Fixpoint has_opening (s : string) : bool :=
  match s with
  | EmptyString => false
  | String c r => (Ascii.eqb c "$" && head_is "{" r) || has_opening r
  end.

Section Vocabulary.
Context `{H : Host}.

(** What [_smart_cast] does to anything that is no number and no boolean. *)
Definition cast_text (st : string) : Value :=
  if str_in (lower st) ["1"; "true"; "yes"; "on"] then VBool true
  else if str_in (lower st) ["0"; "false"; "no"; "off"] then VBool false
  else match int_of_string st with
       | Some z => VInt z
       | None => match float_of_string st with
                 | Some f => VFloat f
                 | None => VStr st
                 end
       end.

(** Every name bound in [s] is bound in [s']. *)
Definition keeps_names (s s' : Engine) : Prop :=
  forall k, is_Some (variables s !! k) -> is_Some (variables s' !! k).

(** The same of the state a piece of the program ends in, normally or not. *)
Definition result_keeps (s : Engine) (r : Result Engine) : Prop :=
  match r with
  | Ok s' | Raise _ s' => keeps_names s s'
  | OutOfFuel => True
  end.

(** The handlers of the Action Dispatch delete no variable. *)
Definition action_keeps : Prop :=
  forall tagl nd vars w k,
    is_Some (vars !! k) -> is_Some (act_variables (fst (action tagl nd vars w)) !! k).

(** One turn of the loop of [_pause_gate], from the engine as the gate finds
    it: the poll, the slice of sleep, the toggle of the voice bridge. *)
Definition gate_slice (s : Engine) : Engine :=
  let s1 := sleep_paused 50 (poll_hotkeys_inline (listen s)) in
  let '(b, w) := pause_toggle_event (world s1) in
  let s2 := with_world w s1 in
  if b then toggle_pause s2 else s2.

(** [gate_sees s t]: the gate entered in [s] finds the engine in [t] when it
    reads the pause flag, or just after it has polled the keyboard, at
    entry or in a later turn of its loop. *)
Inductive gate_sees : Engine -> Engine -> Prop :=
  | sees_entry (s : Engine) : gate_sees s (listen s)
  | sees_poll (s : Engine) :
      paused (listen s) = true -> gate_sees s (poll_hotkeys_inline (listen s))
  | sees_later (s t : Engine) :
      paused (listen s) = true -> gate_sees (gate_slice s) t -> gate_sees s t.

End Vocabulary.

(** ** Two more hosts: one on which nothing ever happens, one with a keyboard

    Both share the evaluator and the conversions of the small host above;
    their listener thread never fires.  The world of the second is what the
    [keyboard] module will answer, poll after poll. *)

Module Desk.
Import Demo.

Definition next_keys (w : list KeyState) : option KeyState * list KeyState :=
  match w with
  | [] => (None, [])
  | k :: r => (Some k, r)
  end.

Definition host_with (W : Type) (keys : W -> option KeyState * W) : Host := {|
  World := W;
  host_str := str_of;
  float_of_string := float_of;
  float_of_Z := fun _ => None;
  int_of_string := int_of;
  int_of_float := fun _ => None;
  py_eval := fun _ expr _ w => (eval expr, w);
  jitter_ms := fun _ w => (0, w);
  shuffle := fun l w => (l, w);
  hotkey_thread := fun w => (quiet, w);
  keyboard_state := keys;
  skip_event := fun w => (false, w);
  pause_toggle_event := fun w => (false, w);
  voice_env := fun _ => false;
  voice_start := fun _ w => (None, w);
  voice_get_event := fun w => (None, 0, w);
  voice_next_command := fun w => (None, w);
  voice_next_query := fun w => (None, w);
  action := fun _ _ vars w => (MkAction vars 0 None true, w)
|}.

Definition calm : Host := host_with unit (fun w => (None, w)).
Definition keyed : Host := host_with (list KeyState) next_keys.

Definition calm_engine (vars : gmap string Value) : @Engine calm :=
  MkEngine calm vars false false false None 0 0 tt.

(** An engine at the keyboard, with the pause flag and the remembered state
    of Ctrl+Space as given. *)
Definition keyed_engine (is_paused last : bool) (w : list KeyState) : @Engine keyed :=
  MkEngine keyed ∅ false is_paused last None 0 0 w.

Definition ctrl_space : KeyState := MkKeys true false true.

(** The listener thread pauses the engine and resumes it three looks later;
    the engine when the pause gate then opens. *)
Definition pause_three_slices : list Signals := [toggles; quiet; quiet; toggles].

Definition gate_end : Engine := MkEngine host ∅ false false false None 150 150 [].

(** The same pause, with a skip requested at the second look. *)
Definition pause_with_skip : list Signals := [toggles; skips; quiet; toggles].

Definition gate_skip_end : Engine := MkEngine host ∅ true false false None 150 150 [].

(** A node with both delays, and the engine after them: the small host draws
    no jitter. *)
Definition delayed : Node := node "type" [("delay_fixed", "100"); ("delay_ms", "30")] [].

Definition delayed_end : Engine := MkEngine host ∅ false false false None 100 0 [].

(** A misspelt directive, a definition in capitals, and a [set] whose second
    attribute reads its first. *)
Definition misspelt : Node := node "sett" [("x", "1"); ("delay_fixed", "1000")] [].

Definition capital_func : Node := node "Func" [("name", "f")] [].

Definition set_a_b : Node := node "set" [("a", "2"); ("b", "${a}")] [].

Definition set_a_b_end : Engine :=
  MkEngine host (<["b" := VInt 2]> {[ "a" := VInt 2 ]}) false false false None 0 0 [].

(** A program that defines [f] twice, the second time inside an [if]. *)
Definition first_f : Node := node "func" [("name", "f")] [].
Definition second_f : Node := node "func" [("name", "f")] [node "wait" [] []].

Definition two_definitions : Node :=
  node "program" [] [first_f; node "if" [("cond", "1")] [second_f; node "func" [] []]].

Definition voice_wait : Node := node "voice_event" [("wait", "5000")] [].

(** A call of [c], whose check of [index] fails when no loop has set it, and
    the engine the check fails in. *)
Definition call_c : Node := node "call" [("name", "c"); ("arg0", "v")] [].

Definition check_index : Node := node "check" [("index", "0")] [].

Definition call_c_raised : Engine :=
  MkEngine host {[ "arg0" := VStr "v" ]} false false false None 0 0 [].

(** An extension call with a list argument, a number, a flag and a text. *)
Definition extension : Node :=
  node "extnode"
    [("module", "m"); ("method", "f"); ("topics_LIST", " a, ,b "); ("n", "7");
     ("flag", "Yes"); ("s", " ${who} "); ("delay_ms", "5")] [].

End Desk.

(** A child of the root that [run] executes: an element that is no function
    definition. *)
Definition top_level (c : Node) : bool :=
  negb (String.eqb (tag_lower c) "func") && nonempty (default "" (tag c)).

(** The tags [_exec_node] has a handler for, [func] apart. *)
Definition handled_tags : list string :=
  ["set"; "if"; "voice_poll"; "check"; "foreach"; "call"; "repeat"; "wait"; "voice_event";
   "type"; "click"; "hotkey"; "shell"; "focus"; "llmcall"; "extnode"].

(** The name a function definition is registered under, if any. *)
Definition func_name (f : Node) : option string := truthy_attr (get f "name").

(** * Properties *)

(** ** Text *)

Section TextFacts.

Lemma append_nil_l (s : string) : "" +:+ s = s.
Proof. reflexivity. Qed.

Lemma append_cons (c : ascii) (a b : string) : String c a +:+ b = String c (a +:+ b).
Proof. reflexivity. Qed.

Lemma append_nil_r (s : string) : s +:+ "" = s.
Proof.
  induction s as [|c s IH]; [reflexivity|].
  now rewrite append_cons, IH.
Qed.

Lemma append_assoc (a b c : string) : (a +:+ b) +:+ c = a +:+ (b +:+ c).
Proof.
  induction a as [|x a IH]; [reflexivity|].
  now rewrite !append_cons, IH.
Qed.

Lemma length_append (a b : string) :
  String.length (a +:+ b) = (String.length a + String.length b)%nat.
Proof.
  induction a as [|x a IH]; [reflexivity|].
  rewrite append_cons. simpl. now rewrite IH.
Qed.

Lemma ident_start_char (c : ascii) : is_ident_start c = true -> is_ident_char c = true.
Proof. unfold is_ident_char. now intros ->. Qed.

Lemma ident_char_not_space (c : ascii) : is_ident_char c = true -> is_space c = false.
Proof. destruct c as [[] [] [] [] [] [] [] []]; vm_compute; congruence. Qed.

Lemma ident_char_not_blank (c : ascii) (r : string) :
  is_ident_char c = true -> blank_len (String c r) = O.
Proof.
  destruct r as [|d [|e r3]]; destruct c as [[] [] [] [] [] [] [] []];
    cbv; congruence.
Qed.

Lemma span_ident_app (a b : string) :
  stops b = true ->
  span_ident (a +:+ b) = (fst (span_ident a), snd (span_ident a) +:+ b).
Proof.
  intros Hb. induction a as [|c a IH].
  - rewrite append_nil_l. destruct b as [|x b]; simpl in *; [reflexivity|].
    now destruct (is_ident_char x).
  - rewrite append_cons. simpl. destruct (is_ident_char c); [|reflexivity].
    rewrite IH. now destruct (span_ident a).
Qed.

Lemma span_ident_all (a : string) :
  all_ident_chars a = true -> span_ident a = (a, "").
Proof.
  induction a as [|c a IH]; simpl; [reflexivity|].
  intros [Hc Ha]%andb_prop. rewrite Hc, (IH Ha). reflexivity.
Qed.

Lemma span_ident_length (s : string) :
  (String.length (fst (span_ident s)) + String.length (snd (span_ident s)))%nat
  = String.length s.
Proof.
  induction s as [|c s IH]; simpl; [reflexivity|].
  destruct (is_ident_char c); simpl; [|reflexivity].
  destruct (span_ident s); simpl in *. now rewrite IH.
Qed.

Lemma match_ident_stops (b : string) : stops b = true -> match_ident b = None.
Proof.
  destruct b as [|c b]; simpl; [reflexivity|].
  intros Hc. destruct (is_ident_start c) eqn:E; [|reflexivity].
  apply ident_start_char in E. rewrite E in Hc. discriminate.
Qed.

Lemma match_ident_app (a b : string) :
  stops b = true ->
  match_ident (a +:+ b) = (fun xy => (fst xy, snd xy +:+ b)) <$> match_ident a.
Proof.
  intros Hb. destruct a as [|c a].
  - rewrite append_nil_l. now apply match_ident_stops.
  - rewrite append_cons. simpl.
    destruct (is_ident_start c); [|reflexivity].
    rewrite (span_ident_app a b Hb). now destruct (span_ident a).
Qed.

Lemma match_ident_is_ident (a b : string) :
  is_ident a = true -> stops b = true -> match_ident (a +:+ b) = Some (a, b).
Proof.
  intros Ha Hb. destruct a as [|c a]; [discriminate|].
  simpl in Ha. apply andb_prop in Ha as [Hc Hr].
  rewrite append_cons. simpl. rewrite Hc.
  rewrite (span_ident_app a b Hb), (span_ident_all a Hr). reflexivity.
Qed.

Lemma match_ident_length (s a b : string) :
  match_ident s = Some (a, b) ->
  (String.length a + String.length b)%nat = String.length s.
Proof.
  destruct s as [|c s]; simpl; [discriminate|].
  destruct (is_ident_start c); [|discriminate].
  pose proof (span_ident_length s) as L. destruct (span_ident s) as [x y].
  intros [= <- <-]. simpl in *. now rewrite L.
Qed.

Lemma head_is_app (c : ascii) (a b : string) :
  head_is c b = false -> head_is c (a +:+ b) = head_is c a.
Proof. destruct a; [now rewrite append_nil_l | reflexivity]. Qed.

Lemma tail_app (a b : string) : a <> "" -> tail (a +:+ b) = tail a +:+ b.
Proof. destruct a; [congruence | reflexivity]. Qed.

Lemma head_is_nonempty (c : ascii) (a : string) : head_is c a = true -> a <> "".
Proof. destruct a; [discriminate | congruence]. Qed.

(** A match does not read past its own end: what follows a non-empty text,
    when it starts with a dollar sign, changes no match at its head. *)
Lemma match_placeholder_app (p r : string) :
  p <> "" -> match_placeholder (p +:+ String "$" r) = match_placeholder p.
Proof.
  intros Hp. set (b := String "$" r).
  assert (Hs : stops b = true) by reflexivity.
  assert (H1 : forall c, In c ["{"; "}"; "|"]%char -> head_is c b = false).
  { intros c [<-|[<-|[<-|[]]]]; reflexivity. }
  unfold match_placeholder.
  assert (E : head_is "$" (p +:+ b) = head_is "$" p) by (destruct p; [congruence | reflexivity]).
  rewrite E. clear E.
  destruct (head_is "$" p) eqn:E0; [|reflexivity]. simpl.
  rewrite (tail_app p b Hp).
  rewrite (head_is_app "{" (tail p) b) by (apply H1; simpl; auto).
  destruct (head_is "{" (tail p)) eqn:E1; [|reflexivity].
  rewrite (tail_app (tail p) b) by (eapply head_is_nonempty; eauto).
  rewrite (match_ident_app _ b Hs).
  destruct (match_ident (tail (tail p))) as [[name r1]|]; [|reflexivity]. simpl.
  rewrite (head_is_app "}" r1 b) by (apply H1; simpl; auto).
  destruct (head_is "}" r1); [reflexivity|].
  rewrite (head_is_app "|" r1 b) by (apply H1; simpl; auto).
  destruct (head_is "|" r1) eqn:E2; [|reflexivity].
  rewrite (tail_app r1 b) by (eapply head_is_nonempty; eauto).
  rewrite (match_ident_app _ b Hs).
  destruct (match_ident (tail r1)) as [[filt r2]|]; [|reflexivity]. simpl.
  rewrite (head_is_app "}" r2 b) by (apply H1; simpl; auto).
  reflexivity.
Qed.

Lemma head_is_length (c : ascii) (s : string) :
  head_is c s = true -> String.length s = S (String.length (tail s)).
Proof. destruct s; [discriminate | reflexivity]. Qed.

Lemma match_placeholder_len (p : string) (m : placeholder) :
  match_placeholder p = Some m -> (ph_len m <= String.length p)%nat.
Proof.
  unfold match_placeholder.
  destruct (head_is "$" p) eqn:E0; [|discriminate].
  destruct (head_is "{" (tail p)) eqn:E1; [|discriminate]. simpl.
  apply head_is_length in E0, E1.
  destruct (match_ident (tail (tail p))) as [[name r1]|] eqn:M1; [|discriminate].
  apply match_ident_length in M1.
  destruct (head_is "}" r1) eqn:E2.
  { intros [= <-]. simpl. apply head_is_length in E2. lia. }
  destruct (head_is "|" r1) eqn:E3; [|discriminate].
  destruct (match_ident (tail r1)) as [[filt r2]|] eqn:M2; [|discriminate].
  apply match_ident_length in M2. apply head_is_length in E3.
  destruct (head_is "}" r2) eqn:E4; [|discriminate].
  intros [= <-]. simpl. apply head_is_length in E4. lia.
Qed.

Lemma hole_text_length (name : string) (filt : option string) :
  String.length (hole_text name filt)
  = match filt with
    | Some f => (4 + String.length name + String.length f)%nat
    | None => (3 + String.length name)%nat
    end.
Proof.
  unfold hole_text. destruct filt as [f|];
    repeat (rewrite ?length_append, ?append_cons, ?append_nil_l; simpl); lia.
Qed.

Lemma match_placeholder_hole (name : string) (filt : option string) (post : string) :
  is_ident name = true ->
  match filt with Some f => is_ident f | None => true end = true ->
  match_placeholder (hole_text name filt +:+ post)
  = Some (Placeholder name filt (String.length (hole_text name filt))).
Proof.
  intros Hn Hf. rewrite hole_text_length. unfold hole_text, match_placeholder.
  rewrite !append_cons, append_nil_l. simpl.
  rewrite append_assoc.
  destruct filt as [f|].
  - rewrite !append_cons, append_nil_l. rewrite (match_ident_is_ident name _ Hn) by reflexivity.
    simpl. rewrite append_assoc, !append_cons, append_nil_l.
    rewrite (match_ident_is_ident f _ Hf) by reflexivity. reflexivity.
  - rewrite append_nil_l, !append_cons, append_nil_l.
    rewrite (match_ident_is_ident name _ Hn) by reflexivity. reflexivity.
Qed.

End TextFacts.

(** ** Substitution (C9) *)

Section Substitution.
Context `{H : Host}.

Lemma sub_from_skip (f : placeholder -> string) (m post : string) :
  sub_from f (String.length m) (m +:+ post) = sub_from f O post.
Proof.
  induction m as [|c m IH]; [reflexivity|].
  rewrite append_cons. simpl. exact IH.
Qed.

Lemma sub_from_match (f : placeholder -> string) (h post : string) (m : placeholder) :
  match_placeholder (h +:+ post) = Some m ->
  ph_len m = String.length h ->
  h <> "" ->
  sub_from f O (h +:+ post) = f m +:+ sub_from f O post.
Proof.
  intros Hm Hl Hh. destruct h as [|c h]; [congruence|].
  rewrite append_cons in *. simpl sub_from. rewrite Hm, Hl. simpl.
  now rewrite sub_from_skip.
Qed.

Lemma sub_from_app (f : placeholder -> string) (b : string) :
  b = "" \/ (exists r, b = String "$" r) ->
  forall (pre : string) (k : nat),
    (k <= String.length pre)%nat ->
    sub_from f k (pre +:+ b) = sub_from f k pre +:+ sub_from f O b.
Proof.
  intros Hb pre. induction pre as [|c pre IH]; intros k Hk.
  - simpl in Hk. assert (k = O) as -> by lia. now rewrite !append_nil_l.
  - rewrite append_cons. simpl. destruct k as [|k].
    + assert (E : match_placeholder (String c (pre +:+ b)) = match_placeholder (String c pre)).
      { destruct Hb as [->|[r ->]].
        - now rewrite append_nil_r.
        - rewrite <- append_cons. now apply match_placeholder_app. }
      rewrite E. destruct (match_placeholder (String c pre)) as [m|] eqn:M.
      * apply match_placeholder_len in M. simpl in M.
        rewrite IH by lia. now rewrite append_assoc.
      * rewrite IH by lia. now rewrite append_cons.
    + simpl in Hk. apply IH. lia.
Qed.

Lemma sub_from_plain (f : placeholder -> string) (t : string) :
  has_placeholder t = false -> sub_from f O t = t.
Proof.
  induction t as [|c t IH]; [reflexivity|].
  cbn [has_placeholder]. intros [Hm Ht]%orb_false_elim.
  apply bool_decide_eq_false in Hm.
  cbn [sub_from]. destruct (match_placeholder (String c t)) as [m|].
  - exfalso. apply Hm. eauto.
  - now rewrite IH.
Qed.

Lemma rstrip_no_space (s : string) :
  all_ident_chars s = true -> rstrip s = s.
Proof.
  induction s as [|c s IH]; [reflexivity|].
  cbn [all_ident_chars rstrip]. intros [Hc Hs]%andb_prop. rewrite (IH Hs).
  unfold is_blank. now rewrite (ident_char_not_blank c s Hc).
Qed.

Lemma strip_ident (f : string) : is_ident f = true -> strip f = f.
Proof.
  destruct f as [|c f]; [discriminate|]. cbn [is_ident].
  intros [Hc Hf]%andb_prop. apply ident_start_char in Hc.
  unfold strip. cbn [lstrip]. rewrite (ident_char_not_blank c f Hc).
  apply rstrip_no_space. cbn [all_ident_chars]. now rewrite Hc, Hf.
Qed.

Lemma repl_hole (vars : gmap string Value) (name : string) (filt : option string) (n : nat) :
  match filt with Some f => is_ident f | None => true end = true ->
  repl vars (Placeholder name filt n) = hole_value vars name filt.
Proof.
  intros Hf. unfold repl, hole_value, apply_filter. simpl.
  destruct (vars !! name) as [x|]; simpl.
  - destruct filt as [f|]; simpl; [|reflexivity].
    now rewrite (strip_ident f Hf).
  - match goal with |- (if ?b then _ else _) = _ => now destruct b end.
Qed.

(** *** Every text reads as a template *)

Lemma head_is_eq (c : ascii) (s : string) : head_is c s = true -> s = String c (tail s).
Proof.
  destruct s as [|x s]; simpl; [discriminate|]. now intros ->%Ascii.eqb_eq.
Qed.

Lemma span_ident_sound (s : string) :
  s = fst (span_ident s) +:+ snd (span_ident s)
  /\ all_ident_chars (fst (span_ident s)) = true.
Proof.
  induction s as [|c s [IH1 IH2]]; simpl; [now split|].
  destruct (is_ident_char c) eqn:E; simpl; [|now split].
  destruct (span_ident s) as [a b]. simpl in *. rewrite append_cons, <- IH1, E. now split.
Qed.

Lemma match_ident_sound (s a b : string) :
  match_ident s = Some (a, b) -> s = a +:+ b /\ is_ident a = true.
Proof.
  destruct s as [|c s]; simpl; [discriminate|].
  destruct (is_ident_start c) eqn:E; [|discriminate].
  destruct (span_ident_sound s) as [S1 S2]. destruct (span_ident s) as [x y].
  intros [= <- <-]. simpl in *. rewrite append_cons, <- S1, E, S2. now split.
Qed.

Lemma match_placeholder_sound (s : string) (m : placeholder) :
  match_placeholder s = Some m ->
  (exists post, s = hole_text (ph_name m) (ph_filter m) +:+ post)
  /\ ph_len m = String.length (hole_text (ph_name m) (ph_filter m))
  /\ is_ident (ph_name m) = true
  /\ match ph_filter m with Some f => is_ident f | None => true end = true.
Proof.
  unfold match_placeholder.
  destruct (head_is "$" s) eqn:E0; [|discriminate].
  destruct (head_is "{" (tail s)) eqn:E1; [|discriminate]. simpl.
  apply head_is_eq in E0, E1.
  destruct (match_ident (tail (tail s))) as [[name r1]|] eqn:M1; [|discriminate].
  apply match_ident_sound in M1 as [M1 I1].
  destruct (head_is "}" r1) eqn:E2.
  { intros [= <-].
    split_and!; [|exact (eq_sym (hole_text_length name None))|exact I1|reflexivity].
    exists (tail r1). apply head_is_eq in E2. rewrite E0, E1, M1, E2 at 1.
    unfold hole_text. now rewrite !append_cons, !append_nil_l, append_assoc. }
  destruct (head_is "|" r1) eqn:E3; [|discriminate].
  destruct (match_ident (tail r1)) as [[filt r2]|] eqn:M2; [|discriminate].
  apply match_ident_sound in M2 as [M2 I2]. apply head_is_eq in E3.
  destruct (head_is "}" r2) eqn:E4; [|discriminate].
  intros [= <-].
  split_and!; [|exact (eq_sym (hole_text_length name (Some filt)))|exact I1|exact I2].
  exists (tail r2). apply head_is_eq in E4. rewrite E0, E1, M1, E3, M2, E4 at 1.
  unfold hole_text.
  now rewrite !append_cons, !append_nil_l, !append_assoc, !append_cons, !append_nil_l.
Qed.

Lemma drop_str_app (a b : string) : drop_str (String.length a) (a +:+ b) = b.
Proof.
  induction a as [|c a IH]; [now destruct b|]. rewrite append_cons. exact IH.
Qed.

Lemma render_cons_text (c : ascii) (tpl : Template) :
  render (cons_text c tpl) = String c (render tpl).
Proof. destruct tpl; reflexivity. Qed.

Lemma render_first_text (tpl : Template) :
  exists b, render tpl = first_text tpl +:+ b /\ (b = "" \/ exists r, b = String "$" r).
Proof.
  destruct tpl as [t|t name filt rest]; simpl.
  - exists "". now rewrite append_nil_r; auto.
  - eexists. split; [reflexivity|]. right. unfold hole_text. rewrite !append_cons. eauto.
Qed.

Lemma well_formed_first_text (tpl : Template) :
  well_formed tpl = true -> has_placeholder (first_text tpl) = false.
Proof.
  destruct tpl as [t|t name filt rest]; simpl.
  - now intros ->%negb_true_iff.
  - now intros [[[->%negb_true_iff _]%andb_prop _]%andb_prop _]%andb_prop.
Qed.

Lemma well_formed_cons_text (c : ascii) (tpl : Template) :
  well_formed tpl = true ->
  match_placeholder (String c (render tpl)) = None ->
  well_formed (cons_text c tpl) = true.
Proof.
  intros Hw Hm.
  assert (Hc : has_placeholder (String c (first_text tpl)) = false).
  { cbn [has_placeholder]. rewrite (well_formed_first_text tpl Hw), orb_false_r.
    apply bool_decide_eq_false. intros [m Hs].
    destruct (render_first_text tpl) as (b & Hr & [->|[r ->]]).
    - rewrite append_nil_r in Hr. congruence.
    - rewrite Hr, <- append_cons, match_placeholder_app in Hm by discriminate.
      congruence. }
  destruct tpl as [t|t name filt rest]; simpl in *.
  - now rewrite Hc.
  - apply andb_prop in Hw as [[[_ Hn]%andb_prop Hf]%andb_prop Hr].
    now rewrite Hc, Hn, Hf, Hr.
Qed.

Lemma read_from_sound (s : string) :
  forall k : nat, (k <= String.length s)%nat ->
    render (read_from k s) = drop_str k s /\ well_formed (read_from k s) = true.
Proof.
  induction s as [|c s IH]; intros k Hk.
  - simpl in Hk. assert (k = O) as -> by lia. now split.
  - cbn [read_from]. destruct k as [|k].
    + destruct (match_placeholder (String c s)) as [m|] eqn:M.
      * pose proof (match_placeholder_len _ _ M) as L. simpl in L.
        destruct (match_placeholder_sound _ _ M) as ((post & Hp) & Hl & Hn & Hf).
        destruct (IH (Nat.pred (ph_len m))) as [R W]; [lia|].
        simpl. rewrite R, W, Hn, Hf. split; [|reflexivity].
        rewrite append_nil_l.
        assert (E : drop_str (ph_len m) (String c s) = post)
          by (rewrite Hp, Hl; apply drop_str_app).
        assert (ph_len m = S (Nat.pred (ph_len m))) as Hs.
        { rewrite Hl, hole_text_length. destruct (ph_filter m); simpl; lia. }
        rewrite Hs in E at 1. simpl in E. rewrite E. exact (eq_sym Hp).
      * destruct (IH O) as [R W]; [lia|]. simpl in R.
        assert (Hr : render (read_from 0 s) = s) by (rewrite R; now destruct s).
        split.
        -- rewrite render_cons_text, Hr. reflexivity.
        -- apply well_formed_cons_text; [exact W | now rewrite Hr].
    + simpl in Hk. destruct (IH k) as [R W]; [lia|]. now split.
Qed.

Lemma read_sound (s : string) : render (read s) = s /\ well_formed (read s) = true.
Proof.
  destruct (read_from_sound s O) as [R W]; [lia|]. split; [|exact W].
  unfold read. rewrite R. now destruct s.
Qed.

Lemma substitute_template (vars : gmap string Value) (tpl : Template) :
  well_formed tpl = true ->
  substitute_vars (Some (render tpl)) vars = expand vars tpl.
Proof.
  unfold substitute_vars. induction tpl as [t|t name filt rest IH]; simpl.
  - intros Ht%negb_true_iff. now apply sub_from_plain.
  - intros [[[Ht%negb_true_iff Hn]%andb_prop Hf]%andb_prop Hr]%andb_prop.
    rewrite sub_from_app.
    + rewrite (sub_from_plain _ t Ht). f_equal.
      rewrite (sub_from_match _ _ _ _ (match_placeholder_hole name filt _ Hn Hf)).
      * now rewrite (repl_hole _ _ _ _ Hf), (IH Hr).
      * reflexivity.
      * unfold hole_text. now rewrite !append_cons.
    + right. unfold hole_text. rewrite !append_cons. eauto.
    + lia.
Qed.

(** C9: every text reads as a template, stretches free of placeholders with
    well-formed placeholders in between, and placeholder substitution over
    a text read so leaves every stretch as it is and puts in place of each
    placeholder the empty string when its name is unset, the
    percent-encoded value under a URL filter, and the value itself under no
    filter or any other filter name. *)
Theorem substitute_vars_template (vars : gmap string Value) :
  (forall tpl, well_formed tpl = true ->
     substitute_vars (Some (render tpl)) vars = expand vars tpl)
  /\ (forall s, render (read s) = s /\ well_formed (read s) = true
                /\ substitute_vars (Some s) vars = expand vars (read s)).
Proof.
  split.
  - intros tpl. apply substitute_template.
  - intros s. destruct (read_sound s) as [R W]. split_and!; [exact R | exact W |].
    rewrite <- R at 1. now apply substitute_template.
Qed.

End Substitution.

(** ** The controller: what polling and waiting leave untouched *)

Section ControllerFacts.
Context `{H : Host}.

Ltac unfold_state :=
  unfold same_frame, sleep_paused, sleep, skip_wait_now, toggle_pause, with_world,
    with_skip_wait, with_paused, with_last_ctrlspace, with_voice, assign,
    with_variables in *;
  simpl in *.

Lemma same_frame_trans (a b c : Engine) :
  same_frame a b -> same_frame b c -> same_frame a c.
Proof. unfold same_frame. intros (?&?&?) (?&?&?). split_and!; congruence. Qed.

Lemma listen_frame (s : Engine) : same_frame s (listen s).
Proof.
  unfold listen. destruct (hotkey_thread (world s)) as [sg w].
  destruct (sig_toggle sg), (sig_skip sg); now unfold_state.
Qed.

Lemma poll_frame (s : Engine) : same_frame s (poll_hotkeys_inline s).
Proof.
  unfold poll_hotkeys_inline. destruct (keyboard_state (world s)) as [[k|] w];
    [|now unfold_state].
  cbv zeta. unfold_state.
  destruct (key_ctrl k), (key_n k), (key_space k), (last_ctrlspace s); simpl; auto.
Qed.

Lemma pause_gate_variables (fuel : nat) (s s' : Engine) :
  pause_gate fuel s = Ok s' -> variables s' = variables s /\ paused s' = false.
Proof.
  revert s. induction fuel as [|f IH]; intros s; simpl.
  - destruct (paused (listen s)) eqn:E; [discriminate|].
    intros [= <-]. split; [apply listen_frame | exact E].
  - destruct (paused (listen s)) eqn:E.
    + destruct (pause_toggle_event _) as [b w] eqn:Ev.
      intros Hg. apply IH in Hg as [Hv Hp]. split; [|exact Hp].
      rewrite Hv. destruct (listen_frame s) as [L _].
      destruct (poll_frame (listen s)) as [P _].
      destruct b; unfold_state; congruence.
    + intros [= <-]. split; [apply listen_frame | exact E].
Qed.

Lemma sleep_check_again (end_ts : Z) (s s' : Engine) :
  sleep_check end_ts s = Again s' ->
  variables s' = variables s /\ clock s <= clock s' /\ paused_ms s <= paused_ms s'
  /\ running s' + to_go end_ts s' <= running s + to_go end_ts s.
Proof.
  unfold sleep_check, to_go, running. destruct (skip_wait s); [discriminate|].
  destruct (listen_frame s) as (Lv & Lc & Lp).
  destruct (paused (listen s)).
  - intros [= <-]. unfold_state. rewrite Lv, Lc, Lp. split_and!; try done; lia.
  - destruct (end_ts <=? clock (listen s)) eqn:E; [discriminate|].
    apply Z.leb_gt in E. intros [= <-]. unfold_state. rewrite Lv, Lp, Lc in *.
    destruct (50 <? end_ts - clock s) eqn:E2;
      [apply Z.ltb_lt in E2 | apply Z.ltb_ge in E2]; split_and!; try done; lia.
Qed.

Lemma sleep_check_exit (end_ts : Z) (s s' : Engine) (x : WaitExit) :
  sleep_check end_ts s = Exit x s' ->
  same_frame s s' /\ (x = ByDeadline -> end_ts <= clock s' /\ paused s' = false).
Proof.
  unfold sleep_check. destruct (skip_wait s).
  { intros [= <- <-]. split; [now unfold_state | discriminate]. }
  destruct (paused (listen s)) eqn:P; [discriminate|].
  destruct (end_ts <=? clock (listen s)) eqn:E; [|discriminate].
  apply Z.leb_le in E. intros [= <- <-]. split; [apply listen_frame | auto].
Qed.

Lemma sleep_reads_frame (s s3 : Engine) : sleep_reads s = Some s3 -> same_frame s s3.
Proof.
  unfold sleep_reads. destruct (skip_event _) as [[] w]; [discriminate|].
  intros [= <-]. eapply same_frame_trans; [apply poll_frame|].
  eapply same_frame_trans; [|apply listen_frame]. now unfold_state.
Qed.

Lemma sleep_step_reads (end_ts : Z) (s : Engine) :
  sleep_step end_ts s
  = match sleep_reads s with
    | Some s3 => sleep_check end_ts s3
    | None => Exit ByBridge (with_world (snd (skip_event (world (poll_hotkeys_inline s))))
                               (poll_hotkeys_inline s))
    end.
Proof.
  unfold sleep_step, sleep_reads. now destruct (skip_event _) as [[] w].
Qed.

Lemma sleep_loop_sound (fuel : nat) (end_ts : Z) (s s' : Engine) (x : WaitExit) :
  sleep_loop fuel end_ts s = Ok (x, s') ->
  variables s' = variables s /\ clock s <= clock s' /\ paused_ms s <= paused_ms s'
  /\ running s' + to_go end_ts s' <= running s + to_go end_ts s
  /\ (x = ByDeadline -> end_ts <= clock s' /\ paused s' = false).
Proof.
  revert s. induction fuel as [|f IH]; intros s; simpl; [discriminate|].
  rewrite sleep_step_reads. destruct (sleep_reads s) as [s3|] eqn:R.
  - destruct (sleep_reads_frame _ _ R) as (Rv & Rc & Rp).
    destruct (sleep_check end_ts s3) as [s4|y s4] eqn:C.
    + intros L. apply IH in L as (Lv & Lc & Lp & Lr & Ld).
      apply sleep_check_again in C as (Cv & Cc & Cp & Cr).
      unfold running, to_go in *. rewrite Rv, Rc, Rp in *.
      split_and!; try congruence; try lia; exact Ld.
    + intros [= <- <-]. apply sleep_check_exit in C as ((Cv & Cc & Cp) & Cd).
      unfold running, to_go. rewrite Rv, Rc, Rp in *.
      split_and!; try congruence; try lia; exact Cd.
  - intros [= <- <-]. destruct (poll_frame s) as (Pv & Pc & Pp).
    unfold running, to_go. unfold_state. rewrite Pv, Pc, Pp.
    split_and!; try done; lia.
Qed.

Lemma sleep_ms_variables (fuel : nat) (total_ms : Z) (s s' : Engine) :
  sleep_ms_interruptible fuel total_ms s = Ok s' -> variables s' = variables s.
Proof.
  unfold sleep_ms_interruptible. destruct (total_ms <=? 0); [now intros [= <-]|].
  destruct (sleep_loop fuel (clock s + total_ms) s) as [[x s1]| |] eqn:L; try discriminate.
  simpl. intros [= <-]. now apply sleep_loop_sound in L.
Qed.

Lemma delays_variables (fuel : nat) (nd : Node) (s s' : Engine) :
  delays fuel nd s = Ok s' -> variables s' = variables s.
Proof.
  unfold delays.
  destruct (truthy_attr (get nd "delay_fixed") ≫= int_of_string) as [df|]; simpl.
  - destruct (sleep_ms_interruptible fuel df s) as [s1| |] eqn:E1; try discriminate. simpl.
    apply sleep_ms_variables in E1.
    destruct (truthy_attr (get nd "delay_ms") ≫= int_of_string) as [dm|];
      [|intros [= <-]; exact E1].
    destruct (jitter_ms dm (world s1)) as [j w]. intros E2%sleep_ms_variables.
    rewrite E2. exact E1.
  - destruct (truthy_attr (get nd "delay_ms") ≫= int_of_string) as [dm|];
      [|now intros [= <-]].
    destruct (jitter_ms dm (world s)) as [j w]. now intros E2%sleep_ms_variables.
Qed.

(** A wait that ends at its deadline is one the relation [waits] describes,
    and conversely. *)
Lemma sleep_loop_waits (fuel : nat) (end_ts : Z) (s s' : Engine) :
  sleep_loop fuel end_ts s = Ok (ByDeadline, s') -> exists early, waits end_ts s early s'.
Proof.
  revert s. induction fuel as [|f IH]; intros s; cbn [sleep_loop]; [discriminate|].
  rewrite sleep_step_reads. destruct (sleep_reads s) as [s3|] eqn:R; [|discriminate].
  unfold sleep_check. destruct (skip_wait s3) eqn:Sk; [discriminate|].
  destruct (listen_frame s3) as (_ & Lc & _).
  destruct (paused (listen s3)) eqn:Pa.
  - intros L. apply IH in L as [early W].
    exists (Z.min 50 (to_go end_ts s3) + early). eapply waits_paused; eassumption.
  - rewrite Lc. destruct (end_ts <=? clock s3) eqn:D.
    + intros [= <-]. apply Z.leb_le in D. exists 0. eapply waits_done; eassumption.
    + apply Z.leb_gt in D.
      replace (if 50 <? end_ts - clock s3 then 50 else end_ts - clock s3)
        with (Z.min 50 (end_ts - clock s3))
        by (destruct (50 <? end_ts - clock s3) eqn:M;
            [apply Z.ltb_lt in M | apply Z.ltb_ge in M]; lia).
      intros L. apply IH in L as [early W].
      exists early. eapply waits_running; eassumption.
Qed.

Lemma waits_sleep_loop (end_ts : Z) (s s' : Engine) (early : Z) :
  waits end_ts s early s' -> exists fuel, sleep_loop fuel end_ts s = Ok (ByDeadline, s').
Proof.
  induction 1 as [s s3 R Sk Pa D | s s3 s' early R Sk Pa _ [f IH]
                  | s s3 s' early R Sk Pa D _ [f IH]].
  - exists 1%nat. cbn [sleep_loop]. rewrite sleep_step_reads, R. unfold sleep_check.
    rewrite Sk, Pa. destruct (listen_frame s3) as (_ & Lc & _). rewrite Lc.
    apply Z.leb_le in D. rewrite D. reflexivity.
  - exists (S f). cbn [sleep_loop]. rewrite sleep_step_reads, R. unfold sleep_check.
    rewrite Sk, Pa. exact IH.
  - exists (S f). cbn [sleep_loop]. rewrite sleep_step_reads, R. unfold sleep_check.
    rewrite Sk, Pa. destruct (listen_frame s3) as (_ & Lc & _). rewrite Lc.
    apply Z.leb_gt in D. rewrite D.
    replace (if 50 <? end_ts - clock s3 then 50 else end_ts - clock s3)
      with (Z.min 50 (end_ts - clock s3))
      by (destruct (50 <? end_ts - clock s3) eqn:M;
          [apply Z.ltb_lt in M | apply Z.ltb_ge in M]; lia).
    exact IH.
Qed.

(** The relation leaves no choice: a wait ends in one state only. *)
Lemma waits_functional (end_ts : Z) (s s1 s2 : Engine) (e1 e2 : Z) :
  waits end_ts s e1 s1 -> waits end_ts s e2 s2 -> s1 = s2 /\ e1 = e2.
Proof.
  intros W1. revert e2 s2.
  induction W1 as [s s3 R Sk Pa D | s s3 s' early R Sk Pa _ IH
                   | s s3 s' early R Sk Pa D _ IH];
    intros e2 s2 W2; inversion W2 as [t t3 R2 Sk2 Pa2 D2 | t t3 t' early2 R2 Sk2 Pa2 W
                                      | t t3 t' early2 R2 Sk2 Pa2 D2 W]; subst;
    rewrite R in R2; injection R2 as <-; try congruence; try lia.
  - split; reflexivity.
  - destruct (IH _ _ W) as [-> ->]. split; reflexivity.
  - apply (IH _ _ W).
Qed.

(** The accounts of a wait the relation describes: what it sleeps while not
    paused is what was left to the deadline less what it slept paused
    before the deadline. *)
Lemma waits_accounts (end_ts : Z) (s s' : Engine) (early : Z) :
  waits end_ts s early s' ->
  running s' - running s = to_go end_ts s - early
  /\ 0 <= early <= paused_ms s' - paused_ms s
  /\ end_ts <= clock s' /\ paused s' = false /\ variables s' = variables s.
Proof.
  induction 1 as [s s3 R Sk Pa D | s s3 s' early R Sk Pa _ IH
                  | s s3 s' early R Sk Pa D _ IH];
    destruct (sleep_reads_frame _ _ R) as (Rv & Rc & Rp);
    destruct (listen_frame s3) as (Lv & Lc & Lp).
  - unfold running, to_go. rewrite Lc, Lp, Rc, Rp, Lv, Rv.
    split_and!; try done; lia.
  - destruct IH as (A & B & C & E & F). unfold running, to_go in *. unfold_state.
    rewrite Lc, Lp, Rc, Rp, Lv, Rv in *. split_and!; try done; lia.
  - destruct IH as (A & B & C & E & F). unfold running, to_go in *. unfold_state.
    rewrite Lc, Lp, Rc, Rp, Lv, Rv in *. split_and!; try done; lia.
Qed.

(** C1 (as amended): the deadline of a wait is the time of entry plus the
    requested duration, and a pause does not move it.  A wait that ends at
    its deadline ends with the pause flag clear and no earlier than the
    deadline, and what it slept while not paused is at most the requested
    duration: the time spent paused is part of the wait, not added to it.
    Such a wait is exactly one that, look after look and against that one
    deadline, sleeps a slice while paused, sleeps to the deadline and no
    further while not paused, and returns at the first look that finds it
    not paused with the deadline reached.  What it slept while not paused
    is the requested duration less the time it slept paused before the
    deadline, and it ends after the deadline only by the time it slept
    paused from the deadline on. *)
Theorem wait_deadline_fixed (fuel : nat) (total_ms : Z) (s s' : Engine) :
  0 < total_ms ->
  sleep_loop fuel (clock s + total_ms) s = Ok (ByDeadline, s') ->
  clock s + total_ms <= clock s'
  /\ paused s' = false
  /\ paused_ms s <= paused_ms s'
  /\ running s' - running s <= total_ms
  /\ (exists early,
        waits (clock s + total_ms) s early s'
        /\ 0 <= early <= paused_ms s' - paused_ms s
        /\ running s' - running s = total_ms - early
        /\ clock s' = clock s + total_ms + (paused_ms s' - paused_ms s - early)
        /\ forall early2 s2, waits (clock s + total_ms) s early2 s2 ->
                             s2 = s' /\ early2 = early)
  /\ (forall early2 s2, waits (clock s + total_ms) s early2 s2 ->
        exists fuel2, sleep_loop fuel2 (clock s + total_ms) s = Ok (ByDeadline, s2)).
Proof.
  intros Ht L. pose proof L as L0.
  apply sleep_loop_sound in L as (_ & Lc & Lp & Lr & Ld).
  destruct (Ld eq_refl) as [Le Lq].
  apply sleep_loop_waits in L0 as [early W].
  destruct (waits_accounts _ _ _ _ W) as (A & B & _).
  unfold to_go, running in *.
  split_and!; try assumption; try lia.
  - exists early. split_and!; try assumption; try lia.
    intros early2 s2 W2. destruct (waits_functional _ _ _ _ _ _ W W2) as [-> ->].
    split; reflexivity.
  - intros early2 s2 W2. exact (waits_sleep_loop _ _ _ _ W2).
Qed.

(** C4: in a step of the wait loop and of either event-poll loop, a skip
    flag read as set is reset within the step, which leaves the loop: the
    wait and the poll return with the flag clear. *)
Theorem skip_flag_consumed (end_ts : Z) (want : string) (deadline : option Z)
    (s : Engine) :
  skip_wait s = true ->
  sleep_check end_ts s = Exit BySkip (with_skip_wait false s)
  /\ voice_events_check want deadline s = Exit ("", "") (with_skip_wait false s)
  /\ voice_queues_check want deadline s = Exit ("", "") (with_skip_wait false s)
  /\ skip_wait (with_skip_wait false s) = false
  /\ (forall fuel s0, sleep_reads s0 = Some s ->
        sleep_loop (S fuel) end_ts s0 = Ok (BySkip, with_skip_wait false s))
  /\ (forall fuel s0 s1 check,
        check = voice_events_check want deadline \/ check = voice_queues_check want deadline ->
        pause_gate fuel s0 = Ok s1 -> listen s1 = s ->
        voice_loop check (S fuel) s0 = Ok ("", "", with_skip_wait false s)).
Proof.
  intros Hs.
  assert (C1 : sleep_check end_ts s = Exit BySkip (with_skip_wait false s))
    by (unfold sleep_check; now rewrite Hs).
  assert (C2 : voice_events_check want deadline s = Exit ("", "") (with_skip_wait false s))
    by (unfold voice_events_check; now rewrite Hs).
  assert (C3 : voice_queues_check want deadline s = Exit ("", "") (with_skip_wait false s))
    by (unfold voice_queues_check; now rewrite Hs).
  split_and!; try assumption; try reflexivity.
  - intros fuel s0 R. simpl. now rewrite sleep_step_reads, R, C1.
  - intros fuel s0 s1 check Hc G L. simpl. rewrite G. simpl. rewrite L.
    destruct Hc as [-> | ->]; [now rewrite C2 | now rewrite C3].
Qed.

End ControllerFacts.

(** ** The handlers *)

Section HandlerFacts.
Context `{H : Host}.
Variable functions : gmap string Node.
Variable exec : Node -> Engine -> Result Engine.

Lemma bind_ok {A B : Type} (r : Result A) (k : A -> Result B) (b : B) :
  r ≫= k = Ok b <-> exists a, r = Ok a /\ k a = Ok b.
Proof.
  destruct r as [a|e s|]; simpl; split.
  - eauto.
  - now intros (a' & [= <-] & Hk).
  - discriminate.
  - now intros (a' & ? & _).
  - discriminate.
  - now intros (a' & ? & _).
Qed.

Lemma exec_children_gated_in_order (fuel : nat) (cs : list Node) (s s' : Engine) :
  exec_children_gated exec fuel cs s = Ok s' <-> in_order exec fuel cs s s'.
Proof.
  revert s. induction cs as [|c r IH]; intros s; simpl.
  - split; [intros [= <-]; constructor | now inversion 1].
  - split.
    + intros (s1 & G & (s2 & E & R)%bind_ok)%bind_ok.
      econstructor; eauto. now apply IH.
    + inversion 1; subst. apply bind_ok. eexists; split; [eassumption|].
      apply bind_ok. eexists; split; [eassumption|]. now apply IH.
Qed.

(** *** [if] *)





(** *** [call] *)

Lemma call_args_bind_args (attrs : list (string * string)) (s : Engine) :
  fold_left call_arg attrs s = bind_args attrs s.
Proof.
  unfold bind_args. revert s. induction attrs as [|[k v] r IH]; intros s; [reflexivity|].
  cbn [fold_left]. rewrite filter_cons.
  assert (Hc : call_arg s (k, v) = if startswith "arg" k then bind_arg s (k, v) else s)
    by reflexivity.
  rewrite Hc. destruct (startswith "arg" k) eqn:E.
  - rewrite decide_True by exact E. cbn [fold_left]. apply IH.
  - rewrite decide_False by (unfold is_arg; cbn [fst]; rewrite E; discriminate). apply IH.
Qed.

Lemma bind_args_app (a b : list (string * string)) (s : Engine) :
  bind_args (a ++ b) s = bind_args b (bind_args a s).
Proof. unfold bind_args. now rewrite filter_app, fold_left_app. Qed.

Lemma bind_args_other (attrs : list (string * string)) (s : Engine) (k : string) :
  k ∉ (filter (fun kv => is_arg kv = true) attrs).*1 ->
  variables (bind_args attrs s) !! k = variables s !! k.
Proof.
  unfold bind_args. revert s. induction attrs as [|[k' v] r IH]; intros s Hk; [reflexivity|].
  rewrite filter_cons in *. destruct (decide _); simpl; [|now apply IH].
  rewrite fmap_cons, not_elem_of_cons in Hk. destruct Hk as [Hne Hr]. simpl in Hne.
  rewrite IH by assumption. unfold bind_arg, assign, with_variables. simpl.
  now rewrite lookup_insert_ne.
Qed.

(** Each argument attribute is bound to its value, substituted in the store
    as the arguments before it left it. *)
Lemma bind_args_bound (pre post : list (string * string)) (k v : string) (s : Engine) :
  startswith "arg" k = true -> k ∉ post.*1 ->
  variables (bind_args (pre ++ (k, v) :: post) s) !! k
  = Some (VStr (substitute_vars (Some v) (variables (bind_args pre s)))).
Proof.
  intros Ha Hk. rewrite bind_args_app.
  change ((k, v) :: post) with ([(k, v)] ++ post)%list. rewrite bind_args_app.
  rewrite bind_args_other
    by (intros (kv & -> & [_ Hin]%list_elem_of_filter)%list_elem_of_fmap;
        apply Hk, list_elem_of_fmap; eauto).
  unfold bind_args at 1. rewrite filter_cons, decide_True by exact Ha. simpl.
  unfold bind_arg, assign, with_variables. simpl. now rewrite lookup_insert_eq.
Qed.

Lemma handle_call_unknown (fuel : nat) (nd : Node) (s : Engine) :
  callee functions nd = None ->
  handle_call functions exec fuel nd s = Raise (unknown_function (get nd "name")) s.
Proof. unfold handle_call. now intros ->. Qed.

Lemma handle_call_known (fuel : nat) (nd func : Node) (s : Engine) :
  callee functions nd = Some func ->
  handle_call functions exec fuel nd s
  = (exec_children exec (children func) (bind_args (attrib nd) s) ≫= delays fuel nd).
Proof. unfold handle_call. intros ->. now rewrite call_args_bind_args. Qed.

(** *** [repeat] *)

Lemma exec_children_in_turn (cs : list Node) (s s' : Engine) :
  exec_children exec cs s = Ok s' <-> in_turn exec cs s s'.
Proof.
  revert s. induction cs as [|c r IH]; intros s; cbn [exec_children].
  - split; [intros [= <-]; constructor | inversion 1; reflexivity].
  - rewrite bind_ok. split.
    + intros (s1 & E & R). apply IH in R. econstructor; eassumption.
    + inversion 1 as [|c0 r0 s0 s1 s2 E R]; subst. exists s1. split; [exact E|].
      apply IH, R.
Qed.




(** *** [foreach] *)

Lemma foreach_bind_bound (var_name : string) (idx : Z) (val : Value) (s : Engine) :
  loop_bound var_name idx val (foreach_bind var_name idx val s).
Proof.
  unfold loop_bound, foreach_bind, assign, with_variables. simpl. split_and!.
  - rewrite lookup_insert_ne by discriminate. apply lookup_insert_eq.
  - apply lookup_insert_eq.
  - intros Hne. destruct (decide (var_name = "arg0")) as [->|Ha].
    + apply lookup_insert_eq.
    + rewrite !lookup_insert_ne by congruence. apply lookup_insert_eq.
Qed.

Lemma foreach_loop_runs (fuel : nat) (var_name : string) (body : list Node)
    (items : list Value) (idx : Z) (s s' : Engine) :
  foreach_loop exec fuel var_name body idx items s = Ok s'
  <-> exists pres, body_runs exec fuel var_name body idx items s pres s'.
Proof.
  revert idx s. induction items as [|val r IH]; intros idx s; simpl.
  - split.
    + intros [= <-]. eexists. constructor.
    + intros (pres & R). now inversion R.
  - split.
    + intros (s1 & G & (post & E%exec_children_gated_in_order & (pres & R)%IH)%bind_ok)%bind_ok.
      eexists. econstructor; eauto.
    + intros (pres & R). inversion R; subst.
      apply bind_ok. eexists. split; [eassumption|].
      apply bind_ok. eexists. split; [apply exec_children_gated_in_order; eassumption|].
      apply IH. eauto.
Qed.

Lemma body_runs_bound (fuel : nat) (var_name : string) (body : list Node)
    (items : list Value) (idx : Z) (s s' : Engine) (pres : list Engine) :
  body_runs exec fuel var_name body idx items s pres s' ->
  length pres = length items
  /\ forall (j : nat) (pre : Engine) (val : Value),
       pres !! j = Some pre -> items !! j = Some val ->
       loop_bound var_name (idx + Z.of_nat j) val pre.
Proof.
  induction 1 as [|idx val items s s1 post s' pres G E R [IHl IHb]]; simpl.
  - split; [reflexivity|]. intros j pre val Hp. now rewrite lookup_nil in Hp.
  - split; [now rewrite IHl|]. intros [|j] pre v; simpl.
    + intros [= <-] [= <-]. rewrite Z.add_0_r. apply foreach_bind_bound.
    + intros Hp Hi. replace (idx + Z.of_nat (S j)) with (idx + 1 + Z.of_nat j) by lia.
      now apply IHb.
Qed.

(** The last run of the body is the one for the last item, and the loop ends
    in the state it leaves. *)
Lemma body_runs_last (fuel : nat) (var_name : string) (body : list Node)
    (front : list Value) (last : Value) (idx : Z) (s s' : Engine) (pres : list Engine) :
  body_runs exec fuel var_name body idx (front ++ [last]) s pres s' ->
  exists pre, loop_bound var_name (idx + Z.of_nat (length front)) last pre
              /\ in_order exec fuel body pre s'.
Proof.
  revert idx s pres. induction front as [|v front IH]; intros idx s pres R; simpl in R.
  - inversion R as [|? ? ? ? s1 post ? pres' G E R']; subst. inversion R'; subst.
    eexists. split; [|eassumption]. simpl. rewrite Z.add_0_r. apply foreach_bind_bound.
  - inversion R as [|? ? ? ? s1 post ? pres' G E R']; subst.
    apply IH in R' as (pre & B & O). exists pre. split; [|exact O].
    simpl length. replace (idx + Z.of_nat (S (length front)))
      with (idx + 1 + Z.of_nat (length front)) by lia. exact B.
Qed.

Lemma handle_foreach_known (fuel : nat) (nd func : Node) (s : Engine) (items0 : list Value) :
  nonempty (str_or (get nd "do") "") = true ->
  foreach_items (str_or (get nd "list") "") s = Some items0 ->
  functions !! str_or (get nd "do") "" = Some func ->
  handle_foreach functions exec fuel nd s
  = (foreach_loop exec fuel (str_or (get nd "var") "item") (children func) 0
       (fst (foreach_shuffle nd items0 (world s)))
       (with_world (snd (foreach_shuffle nd items0 (world s))) s)
     ≫= delays fuel nd).
Proof.
  intros Hd Hi Hf. unfold handle_foreach. rewrite Hd, Hi. simpl.
  destruct (foreach_shuffle nd items0 (world s)) as [items w]. simpl. now rewrite Hf.
Qed.

(** *** [set] *)

Lemma str_in_cons (x y : string) (l : list string) :
  str_in x (y :: l) = String.eqb x y || str_in x l.
Proof. reflexivity. Qed.

(** One turn of the loop of [handle_set] assigns the attribute's name and no
    other, or nothing when it passes over the attribute. *)
Lemma set_attr_lookup (s : Engine) (k v k' : string) :
  variables (set_attr s (k, v)) !! k'
  = if str_in k set_skipped then variables s !! k'
    else if decide (k = k') then variables (set_attr s (k, v)) !! k
    else variables s !! k'.
Proof.
  unfold set_attr. destruct (str_in k set_skipped); [reflexivity|].
  destruct (safe_eval _ _ _) as [r w]. unfold assign, with_variables, with_world. simpl.
  destruct (decide (k = k')) as [<-|Hne]; [reflexivity|]. now rewrite lookup_insert_ne.
Qed.

Lemma set_attr_assigns (s : Engine) (k v : string) :
  str_in k set_skipped = false -> is_Some (variables (set_attr s (k, v)) !! k).
Proof.
  intros Hk. unfold set_attr. rewrite Hk.
  destruct (safe_eval _ _ _) as [r w]. unfold assign, with_variables, with_world. simpl.
  rewrite lookup_insert_eq. eauto.
Qed.

Lemma set_attr_keeps (s : Engine) (kv : string * string) (k' : string) :
  is_Some (variables s !! k') -> is_Some (variables (set_attr s kv) !! k').
Proof.
  destruct kv as [k v]. intros Hs. rewrite set_attr_lookup.
  destruct (str_in k set_skipped) eqn:E; [exact Hs|].
  destruct (decide (k = k')); [now apply set_attr_assigns | exact Hs].
Qed.

Lemma set_attrs_skipped (attrs : list (string * string)) (s : Engine) (k' : string) :
  str_in k' set_skipped = true ->
  variables (fold_left set_attr attrs s) !! k' = variables s !! k'.
Proof.
  intros Hk. revert s. induction attrs as [|[k v] r IH]; intros s; [reflexivity|].
  cbn [fold_left]. rewrite IH, set_attr_lookup.
  destruct (str_in k set_skipped) eqn:E; [reflexivity|].
  destruct (decide (k = k')) as [->|]; [congruence | reflexivity].
Qed.

Lemma set_attrs_assigned (attrs : list (string * string)) (s : Engine) (k v : string) :
  (k, v) ∈ attrs -> str_in k set_skipped = false ->
  is_Some (variables (fold_left set_attr attrs s) !! k).
Proof.
  intros Hin Hk. revert s. induction attrs as [|kv r IH]; intros s;
    [now apply elem_of_nil in Hin|].
  cbn [fold_left]. apply elem_of_cons in Hin as [<-|Hin]; [|now apply IH].
  clear IH. pose proof (set_attr_assigns s k v Hk) as Hs. revert Hs.
  generalize (set_attr s (k, v)). induction r as [|kv r IH]; intros s1 Hs; [exact Hs|].
  cbn [fold_left]. apply IH. now apply set_attr_keeps.
Qed.

(** *** [check] *)

Lemma check_attrs_skips (tol : option float) (kvs : list (string * string)) (s : Engine) :
  check_attrs tol kvs s
  = check_attrs tol (filter (fun kv => str_in (fst kv) check_skipped = false) kvs) s.
Proof.
  revert s. induction kvs as [|[k v] r IH]; intros s; [reflexivity|].
  rewrite filter_cons. cbn [check_attrs fst].
  destruct (str_in k check_skipped) eqn:E.
  - rewrite decide_False by discriminate. apply IH.
  - rewrite decide_True by reflexivity. cbn [check_attrs]. rewrite E.
    destruct (check_ok tol k v s) as [[] w]; [apply IH | reflexivity].
Qed.

Lemma check_ok_tolerance (t : float) (k v : string) (s : Engine) :
  let expected_raw := substitute_vars (Some v) (variables s) in
  fst (check_ok (Some t) k v s) = true
  <-> within_tolerance t (fst (safe_eval expected_raw (variables s) (world s)))
        (variables s !! k).
Proof.
  cbv zeta. unfold check_ok, within_tolerance.
  destruct (safe_eval _ _ _) as [r w]. simpl.
  destruct (r ≫= py_float) as [e|]; [destruct (variables s !! k ≫= py_float) as [a|]|].
  - split; [eauto|]. now intros (e' & a' & [= <-] & [= <-] & L).
  - split; [discriminate|]. now intros (e' & a' & _ & ? & _).
  - split; [discriminate|]. now intros (e' & a' & ? & _).
Qed.

Lemma check_ok_string (k v : string) (s : Engine) :
  fst (check_ok None k v s) = true
  <-> str_actual (variables s !! k) = substitute_vars (Some v) (variables s).
Proof. unfold check_ok. simpl. apply String.eqb_eq. Qed.

Lemma check_attrs_fails (tol : option float) (k v : string) (r : list (string * string))
    (s : Engine) :
  str_in k check_skipped = false ->
  fst (check_ok tol k v s) = false ->
  check_attrs tol ((k, v) :: r) s
  = Raise (MkExn AssertionError (Some (check_message k v s)))
      (with_world (snd (check_ok tol k v s)) s).
Proof.
  intros Hk Hf. cbn [check_attrs]. rewrite Hk.
  destruct (check_ok tol k v s) as [ok w]. simpl in *. now rewrite Hf.
Qed.

Lemma check_attrs_raise (tol : option float) (kvs : list (string * string))
    (s s' : Engine) (e : Exn) :
  check_attrs tol kvs s = Raise e s' ->
  exn_class e = AssertionError /\ variables s' = variables s.
Proof.
  revert s. induction kvs as [|[k v] r IH]; intros s; cbn [check_attrs]; [discriminate|].
  destruct (str_in k check_skipped); [apply IH|].
  destruct (check_ok tol k v s) as [[] w].
  - intros [Hc Hv]%IH. split; [exact Hc|]. rewrite Hv. reflexivity.
  - intros [= <- <-]. split; reflexivity.
Qed.

Lemma handle_check_raise (fuel : nat) (nd : Node) (tol : option float)
    (s s' : Engine) (e : Exn) :
  check_tol nd = Some tol ->
  check_attrs tol (attrib nd) s = Raise e s' ->
  handle_check fuel nd s = Raise e s'.
Proof. unfold handle_check. now intros -> ->. Qed.

End HandlerFacts.

(** ** The dispatcher *)

Section DispatcherFacts.
Context `{H : Host}.
Variable functions : gmap string Node.

Lemma exec_node_check (fuel : nat) (nd : Node) (s : Engine) :
  tag_lower nd = "check" ->
  exec_node functions (S fuel) nd s = pause_gate fuel s ≫= handle_check fuel nd.
Proof. intros Ht. cbn [exec_node]. now rewrite Ht. Qed.

Lemma exec_node_call (fuel : nat) (nd : Node) (s : Engine) :
  tag_lower nd = "call" ->
  exec_node functions (S fuel) nd s
  = pause_gate fuel s ≫= handle_call functions (exec_node functions fuel) fuel nd.
Proof. intros Ht. cbn [exec_node]. now rewrite Ht. Qed.

(** Nothing catches an exception of a top-level statement: [run] ends with it. *)
Lemma run_nodes_raise (fuel : nat) (c : Node) (r : list Node) (s s' : Engine) (e : Exn) :
  tag_lower c <> "func" -> tag_lower c <> "" ->
  exec_node functions fuel c s = Raise e s' ->
  run_nodes functions fuel (c :: r) s = Raise e s'.
Proof.
  intros Hf Ht E. cbn [run_nodes].
  apply String.eqb_neq in Hf. rewrite Hf. simpl.
  destruct (default "" (tag c)) eqn:D.
  - exfalso. apply Ht. unfold tag_lower. now rewrite D.
  - simpl. now rewrite E.
Qed.

End DispatcherFacts.

(** ** The directives, as the specification states them *)

Section Directives.
Context `{H : Host}.
Variable functions : gmap string Node.
Variable exec : Node -> Engine -> Result Engine.

Lemma check_attrs_app (tol : option float) (pre kvs : list (string * string)) (s : Engine) :
  check_attrs tol (pre ++ kvs) s = check_attrs tol pre s ≫= check_attrs tol kvs.
Proof.
  revert s. induction pre as [|[k v] pre IH]; intros s; [reflexivity|].
  rewrite <- app_comm_cons. cbn [check_attrs].
  destruct (str_in k check_skipped); [apply IH|].
  destruct (check_ok tol k v s) as [[] w]; [apply IH | reflexivity].
Qed.

Lemma check_tol_present (nd : Node) (t : float) :
  check_tol nd = Some (Some t)
  <-> exists ts, get nd "tol" = Some ts /\ ts <> "" /\ float_of_string ts = Some t.
Proof.
  unfold check_tol, truthy_attr. destruct (get nd "tol") as [[|c ts]|]; simpl.
  - split; [discriminate|]. now intros (ts & [= <-] & ? & _).
  - destruct (float_of_string (String c ts)) as [f|] eqn:F; simpl.
    + split; [intros [= <-]; eauto|]. intros (ts' & [= <-] & _ & E). congruence.
    + split; [discriminate|]. intros (ts' & [= <-] & _ & E). congruence.
  - split; [discriminate|]. now intros (ts & ? & _).
Qed.

Lemma check_tol_absent (nd : Node) :
  check_tol nd = Some None <-> get nd "tol" = None \/ get nd "tol" = Some "".
Proof.
  unfold check_tol, truthy_attr. destruct (get nd "tol") as [[|c ts]|]; simpl.
  - split; auto.
  - destruct (float_of_string (String c ts)); simpl;
      (split; [discriminate | now intros [?|?]]).
  - split; auto.
Qed.

(** C2: a comparison of a [check] passes under a tolerance (the attribute
    [tol], not empty, read as a float) exactly when the evaluated expected
    expression and the stored value both convert to floats no further apart
    than the tolerance, and without one (no attribute [tol], or an empty
    one) exactly when the string form of the stored value is the
    substituted expected string.  A comparison that fails raises an
    assertion error, whatever attributes follow it; the error leaves the
    handler, the dispatcher and the run, and the store is as it was. *)
Theorem check_compares (tol : option float) (k v : string) (s : Engine) :
  let expected_raw := substitute_vars (Some v) (variables s) in
  (forall t, fst (check_ok (Some t) k v s) = true
             <-> within_tolerance t (fst (safe_eval expected_raw (variables s) (world s)))
                   (variables s !! k))
  /\ (fst (check_ok None k v s) = true
      <-> py_str (default VNone (variables s !! k)) = expected_raw)
  /\ (forall nd,
        (forall t, check_tol nd = Some (Some t)
                   <-> exists ts, get nd "tol" = Some ts /\ ts <> ""
                                  /\ float_of_string ts = Some t)
        /\ (check_tol nd = Some None <-> get nd "tol" = None \/ get nd "tol" = Some ""))
  /\ (forall kvs s1 e s',
        check_attrs tol kvs s1 = Raise e s' ->
        exn_class e = AssertionError /\ variables s' = variables s1)
  /\ (str_in k check_skipped = false ->
      fst (check_ok tol k v s) = false ->
      forall (fuel : nat) (nd : Node) (pre post : list (string * string))
             (rest : list Node) (s0 s1 : Engine),
        tag_lower nd = "check" ->
        check_tol nd = Some tol ->
        attrib nd = (pre ++ (k, v) :: post)%list ->
        pause_gate fuel s0 = Ok s1 ->
        check_attrs tol pre s1 = Ok s ->
        exists e s',
          exn_class e = AssertionError /\ variables s' = variables s0
          /\ handle_check fuel nd s1 = Raise e s'
          /\ exec_node functions (S fuel) nd s0 = Raise e s'
          /\ run_nodes functions (S fuel) (nd :: rest) s0 = Raise e s').
Proof.
  cbv zeta. split_and!.
  - intros t. apply check_ok_tolerance.
  - apply check_ok_string.
  - intros nd. split; [intros t; apply check_tol_present | apply check_tol_absent].
  - intros kvs s1 e s'. apply check_attrs_raise.
  - intros Hk Hf fuel nd pre post rest s0 s1 Ht Htol Ha G P.
    assert (C : check_attrs tol (attrib nd) s1
                = Raise (MkExn AssertionError (Some (check_message k v s)))
                    (with_world (snd (check_ok tol k v s)) s)).
    { rewrite Ha, check_attrs_app, P. simpl. now apply check_attrs_fails. }
    pose proof (handle_check_raise fuel nd tol _ _ _ Htol C) as HC.
    assert (E : exec_node functions (S fuel) nd s0
                = Raise (MkExn AssertionError (Some (check_message k v s)))
                    (with_world (snd (check_ok tol k v s)) s)).
    { rewrite exec_node_check by exact Ht. rewrite G. exact HC. }
    exists (MkExn AssertionError (Some (check_message k v s))),
      (with_world (snd (check_ok tol k v s)) s).
    split_and!; [reflexivity| |exact HC|exact E|].
    + apply pause_gate_variables in G as [Gv _].
      assert (Pv : variables s = variables s1).
      { clear -P. revert s1 P. induction pre as [|[k' v'] r IH]; intros s1;
          cbn [check_attrs]; [now intros [= ->]|].
        destruct (str_in k' check_skipped); [apply IH|].
        destruct (check_ok tol k' v' s1) as [[] w]; [|discriminate].
        intros P%IH. now rewrite P. }
      simpl. congruence.
    + apply run_nodes_raise; [now rewrite Ht | now rewrite Ht | exact E].
Qed.

Lemma callee_none (nd : Node) :
  callee functions nd = None
  <-> forall n, get nd "name" = Some n -> n = "" \/ functions !! n = None.
Proof.
  unfold callee, truthy_attr. destruct (get nd "name") as [n|]; simpl.
  - destruct n as [|c n]; simpl.
    + split; [intros _ n [= <-]; now left | reflexivity].
    + split.
      * intros Hn n' [= <-]. now right.
      * intros Hn. destruct (Hn _ eq_refl) as [?|?]; [discriminate | assumption].
  - split; [discriminate | reflexivity].
Qed.

(** C3: a [call] whose name is missing, empty or not registered raises a
    value error that names the function, before anything else: the state is
    the one the handler was entered with, and the store the one the
    dispatcher was entered with.  A [call] of a registered function binds
    each attribute whose name starts with [arg], in document order, to its
    substituted string in the shared store, then runs the children of the
    function in order, then applies its delays: it ends normally exactly
    when every child of the function, run once and in turn from the store
    with the arguments bound, ends normally, and then the delays do. *)
Theorem call_unknown_or_bound (fuel : nat) (nd : Node) (s : Engine) :
  (callee functions nd = None
   <-> forall n, get nd "name" = Some n -> n = "" \/ functions !! n = None)
  /\ (callee functions nd = None ->
      handle_call functions exec fuel nd s = Raise (unknown_function (get nd "name")) s
      /\ unknown_function (get nd "name")
         = MkExn ValueError (Some ("Unknown function: " +:+ default "None" (get nd "name")))
      /\ forall s0, tag_lower nd = "call" -> pause_gate fuel s0 = Ok s ->
           exec_node functions (S fuel) nd s0 = Raise (unknown_function (get nd "name")) s
           /\ variables s = variables s0)
  /\ (forall func, callee functions nd = Some func ->
      handle_call functions exec fuel nd s
      = (exec_children exec (children func) (bind_args (attrib nd) s) ≫= delays fuel nd)
      /\ (forall s',
            handle_call functions exec fuel nd s = Ok s'
            <-> exists s1, in_turn exec (children func) (bind_args (attrib nd) s) s1
                           /\ delays fuel nd s1 = Ok s')
      /\ (forall pre post k v,
            attrib nd = (pre ++ (k, v) :: post)%list ->
            startswith "arg" k = true -> k ∉ post.*1 ->
            variables (bind_args (attrib nd) s) !! k
            = Some (VStr (substitute_vars (Some v) (variables (bind_args pre s)))))
      /\ (forall k, k ∉ (filter (fun kv => is_arg kv = true) (attrib nd)).*1 ->
            variables (bind_args (attrib nd) s) !! k = variables s !! k)).
Proof.
  split_and!.
  - apply callee_none.
  - intros Hc. split_and!; [now apply handle_call_unknown | reflexivity |].
    intros s0 Ht G. split; [|now apply pause_gate_variables in G as [? _]].
    rewrite exec_node_call by exact Ht. rewrite G. simpl.
    now apply handle_call_unknown.
  - intros func Hc. split_and!.
    + now apply handle_call_known.
    + intros s'. rewrite (handle_call_known functions exec fuel nd func s Hc), bind_ok.
      split; intros (s1 & E & D); exists s1; (split; [|exact D]);
        apply exec_children_in_turn, E.
    + intros pre post k v -> Ha Hk. now apply bind_args_bound.
    + intros k Hk. now apply bind_args_other.
Qed.

(** C5 (as amended): a [foreach] whose list resolves to [n] items and whose
    function is registered ends normally exactly when the body of the
    function runs [n] times, once per item and in order, each run ending
    normally, and the delays do.  The [j]-th run starts with [index] bound
    to [j], [arg0] bound to the [j]-th item, and the per-element variable
    bound to the [j]-th item unless that variable is named [index]. *)
Theorem foreach_runs_body_per_item (fuel : nat) (nd func : Node) (s s' : Engine)
    (items0 : list Value) :
  nonempty (str_or (get nd "do") "") = true ->
  foreach_items (str_or (get nd "list") "") s = Some items0 ->
  functions !! str_or (get nd "do") "" = Some func ->
  let var_name := str_or (get nd "var") "item" in
  let items := fst (foreach_shuffle nd items0 (world s)) in
  let s0 := with_world (snd (foreach_shuffle nd items0 (world s))) s in
  handle_foreach functions exec fuel nd s = Ok s'
  <-> exists pres s1,
        body_runs exec fuel var_name (children func) 0 items s0 pres s1
        /\ length pres = length items
        /\ (forall (j : nat) (pre : Engine) (val : Value),
              pres !! j = Some pre -> items !! j = Some val ->
              loop_bound var_name (Z.of_nat j) val pre)
        /\ delays fuel nd s1 = Ok s'.
Proof.
  intros Hd Hi Hf. cbv zeta.
  rewrite (handle_foreach_known functions exec fuel nd func s items0 Hd Hi Hf).
  rewrite bind_ok. split.
  - intros (s1 & (pres & R)%foreach_loop_runs & D). exists pres, s1.
    destruct (body_runs_bound _ _ _ _ _ _ _ _ _ R) as [Hl Hb]. split_and!; auto.
  - intros (pres & s1 & R & _ & _ & D). exists s1. split; [|exact D].
    apply foreach_loop_runs. eauto.
Qed.

(** C10 (as amended): when a [foreach] over a non-empty list ends normally,
    the store is the one the last run of the body left.  That run started
    with [index] bound to [n-1], [arg0] bound to the last item and the
    per-element variable bound to it too (unless it is named [index]);
    [foreach] removes or restores none of them afterwards. *)
Theorem foreach_leaves_bindings (fuel : nat) (nd func : Node) (s s' : Engine)
    (items0 front : list Value) (last : Value) :
  nonempty (str_or (get nd "do") "") = true ->
  foreach_items (str_or (get nd "list") "") s = Some items0 ->
  functions !! str_or (get nd "do") "" = Some func ->
  fst (foreach_shuffle nd items0 (world s)) = (front ++ [last])%list ->
  handle_foreach functions exec fuel nd s = Ok s' ->
  exists pre post,
    loop_bound (str_or (get nd "var") "item") (Z.of_nat (length front)) last pre
    /\ in_order exec fuel (children func) pre post
    /\ variables s' = variables post.
Proof.
  intros Hd Hi Hf Hl.
  rewrite (handle_foreach_known functions exec fuel nd func s items0 Hd Hi Hf), Hl.
  intros (s1 & (pres & R)%foreach_loop_runs & D%delays_variables)%bind_ok.
  apply body_runs_last in R as (pre & B & O). eauto.
Qed.

(** C7 (as amended): the loop of a [set] passes over [delay_fixed] and
    [delay_ms] and over no other name: running a [set] leaves the variables
    of these two names as they were and assigns a variable for every other
    attribute, [tol] and [comment] included.  The loop of a [check] is the
    one that passes over all four names. *)
Theorem set_skips_delays_only (fuel : nat) (nd : Node) (s s' : Engine) :
  handle_set fuel nd s = Ok s' ->
  variables s' !! "delay_fixed" = variables s !! "delay_fixed"
  /\ variables s' !! "delay_ms" = variables s !! "delay_ms"
  /\ (forall k v, (k, v) ∈ attrib nd -> k <> "delay_fixed" -> k <> "delay_ms" ->
        is_Some (variables s' !! k))
  /\ (forall tol kvs s0,
        check_attrs tol kvs s0
        = check_attrs tol
            (filter (fun kv => str_in (fst kv) ["delay_fixed"; "delay_ms"; "tol"; "comment"]
                               = false) kvs) s0).
Proof.
  unfold handle_set. intros D%delays_variables. rewrite D. split_and!.
  - now apply set_attrs_skipped.
  - now apply set_attrs_skipped.
  - intros k v Hin H1 H2. apply (set_attrs_assigned _ _ k v Hin).
    unfold set_skipped. rewrite !str_in_cons. simpl.
    apply String.eqb_neq in H1, H2. now rewrite H1, H2.
  - intros tol kvs s0. apply check_attrs_skips.
Qed.

End Directives.

(** * The engine on concrete scripts *)

Section Runs.
Import Demo.

(** Closed equations between runs and their results are checked by the
    virtual machine. *)
Ltac by_vm :=
  lazymatch goal with
  | |- ?l = ?r => vm_cast_no_check (@eq_refl _ r)
  end.

(** A wait that nobody pauses returns at its deadline. *)
Example wait_100_undisturbed :
  timing (handle_wait 10 wait_100 (engine ∅ [])) = Some (100, 0).
Proof. by_vm. Qed.

(** C1, the claim as stated fails: a wait of 100 ms during which the engine
    is paused for 150 ms returns as soon as it is resumed, at 150 ms, all of
    them slept paused; none of the requested 100 ms is slept after the
    resume, where the claim has the wait go on to 250 ms. *)
Lemma wait_100_paused_counts :
  timing (handle_wait 10 wait_100 (engine ∅ pause_then_resume)) = Some (150, 150)
  /\ sleep_loop 10 (0 + 100) (engine ∅ pause_then_resume) = Ok (ByDeadline, wait_100_end)
  /\ running wait_100_end - running (engine ∅ pause_then_resume) = 0.
Proof. split_and!; by_vm. Qed.

(** That wait ends at its deadline: 100 ms requested, 150 ms elapsed, none
    of them slept running, since 100 ms were slept paused before the
    deadline and 50 ms from the deadline on. *)
Lemma wait_deadline_fixed_witness :
  0 < 100
  /\ sleep_loop 10 (clock (engine ∅ pause_then_resume) + 100) (engine ∅ pause_then_resume)
     = Ok (ByDeadline, wait_100_end)
  /\ (clock (engine ∅ pause_then_resume) + 100 <= clock wait_100_end
      /\ paused wait_100_end = false
      /\ paused_ms (engine ∅ pause_then_resume) <= paused_ms wait_100_end
      /\ running wait_100_end - running (engine ∅ pause_then_resume) <= 100)
  /\ exists early,
       waits (clock (engine ∅ pause_then_resume) + 100) (engine ∅ pause_then_resume)
         early wait_100_end
       /\ early = 100
       /\ running wait_100_end - running (engine ∅ pause_then_resume) = 100 - early.
Proof.
  split; [reflexivity|]. split; [by_vm|].
  destruct (wait_deadline_fixed 10 100 (engine ∅ pause_then_resume) wait_100_end
              eq_refl ltac:(by_vm)) as (A & B & C & D & (early & W & _ & R & _) & _).
  split; [split_and!; assumption|].
  exists early. split; [exact W|].
  assert (R0 : running wait_100_end - running (engine ∅ pause_then_resume) = 0)
    by reflexivity.
  split; [lia | exact R].
Defined.

(** Paused for the first 50 ms only, the same wait ends at its deadline
    exactly, having slept 50 ms while not paused: the pause has used up half
    of the requested time. *)
Example wait_100_paused_early :
  timing (handle_wait 10 wait_100 (engine ∅ [toggles; quiet; toggles])) = Some (100, 50).
Proof. by_vm. Qed.

(** An engine on which a skip was requested: each loop leaves at once, the
    flag reset. *)
Lemma skip_flag_consumed_witness :
  skip_wait skipping = true
  /\ sleep_check 100 skipping = Exit BySkip (with_skip_wait false skipping)
  /\ voice_events_check "any" None skipping = Exit ("", "") (with_skip_wait false skipping)
  /\ voice_queues_check "any" None skipping = Exit ("", "") (with_skip_wait false skipping)
  /\ sleep_loop 1 100 skipping = Ok (BySkip, with_skip_wait false skipping).
Proof.
  destruct (skip_flag_consumed 100 "any" None skipping eq_refl) as (A & B & C & _ & D & _).
  split; [reflexivity|]. split; [exact A|]. split; [exact B|]. split; [exact C|].
  apply (D O skipping). by_vm.
Defined.

(** The specification's examples: an unset name gives the empty string, the
    filter [url] the percent-encoded value; another filter changes nothing. *)
Lemma substitute_vars_template_witness :
  well_formed query = true
  /\ substitute_vars (Some "q=${X|url}&u=${Y}&z=${X|upper}!") {[ "X" := VStr "a b" ]}
     = "q=a+b&u=&z=a b!".
Proof.
  split; [by_vm|].
  exact (proj1 (substitute_vars_template {[ "X" := VStr "a b" ]}) query ltac:(by_vm)).
Defined.

(** The specification's example: against a stored 1.004 and a tolerance of
    0.01, an expected 1.0 passes and an expected 1.02 fails and ends the run. *)
Lemma check_compares_witness :
  completed (run Demo.functions 6 (node "program" [] [check_near]) (engine stored [])) = true
  /\ within_tolerance 0.01%float (Some (VFloat 1.0%float)) (Some (VFloat 1.004%float))
  /\ exists e s',
       exn_class e = AssertionError
       /\ variables s' = stored
       /\ run_nodes Demo.functions 6 [check_far; set_tol_comment] (engine stored []) = Raise e s'.
Proof.
  split; [by_vm|].
  destruct (check_compares Demo.functions (Some 0.01%float) "x" "1.0" (engine stored []))
    as (T & _).
  split; [apply (T 0.01%float); by_vm|].
  destruct (check_compares Demo.functions (Some 0.01%float) "x" "1.02" (engine stored []))
    as (_ & _ & _ & _ & F).
  destruct (F ltac:(by_vm) ltac:(by_vm) 5%nat check_far [] [("tol", "0.01")]
              [set_tol_comment] (engine stored []) (engine stored [])
              ltac:(by_vm) ltac:(by_vm) ltac:(by_vm) ltac:(by_vm) ltac:(by_vm))
    as (e & s' & Hc & Hv & _ & _ & Hr).
  exists e, s'. split; [exact Hc|]. split; [exact Hv|]. exact Hr.
Defined.

(** The specification's example: [call name="missing"] raises and runs
    nothing; a call of [f] binds [arg0], then [arg1] from it, and then runs
    the one child of [f], which overwrites [arg1]. *)
Lemma call_unknown_or_bound_witness :
  exec_node Demo.functions 6 call_missing (engine ∅ [])
  = Raise (MkExn ValueError (Some "Unknown function: missing")) (engine ∅ [])
  /\ variables (bind_args (attrib call_f) (engine ∅ [])) !! "arg1" = Some (VStr "ab")
  /\ handle_call Demo.functions (exec_node Demo.functions 5) 5 call_f (engine ∅ [])
     = Ok call_f_end
  /\ bind_args (attrib call_f) (engine ∅ []) = call_f_bound
  /\ in_turn (exec_node Demo.functions 5) body_f call_f_bound call_f_end
  /\ variables call_f_end !! "arg1" = Some (VStr "").
Proof.
  destruct (call_unknown_or_bound Demo.functions (exec_node Demo.functions 5) 5 call_missing
              (engine ∅ [])) as (_ & U & _).
  destruct (U ltac:(by_vm)) as (_ & _ & D).
  split; [apply (D (engine ∅ [])); by_vm|].
  destruct (call_unknown_or_bound Demo.functions (exec_node Demo.functions 5) 5 call_f
              (engine ∅ [])) as (_ & _ & K).
  destruct (K (node "func" [("name", "f")] body_f) ltac:(by_vm)) as (_ & R & B & _).
  split.
  { apply (B [("name", "f"); ("arg0", "a")] [] "arg1" "${arg0}b"); [by_vm..|].
    apply not_elem_of_nil. }
  assert (E : handle_call Demo.functions (exec_node Demo.functions 5) 5 call_f (engine ∅ [])
              = Ok call_f_end) by by_vm.
  split; [exact E|].
  assert (A : bind_args (attrib call_f) (engine ∅ []) = call_f_bound) by by_vm.
  split; [exact A|].
  destruct (proj1 (R call_f_end) E) as (s1 & T & L).
  assert (S1 : s1 = call_f_end) by (unfold delays in L; cbn in L; congruence).
  rewrite A, S1 in T. split; [exact T | by_vm].
Defined.

(** C5, the claim as stated fails: with the per-element variable named
    [index], the body of [c] runs for the item ["a"] and its check that
    [index] reads 0 passes: the variable holds the position, not the item. *)
Lemma foreach_var_index_holds_position :
  completed (exec_node Demo.functions 8 (foreach_a "index" "c") (engine ∅ [])) = true
  /\ after (exec_node Demo.functions 8 (foreach_a "index" "c") (engine ∅ [])) "index"
     = Some (VInt 0)
  /\ after (exec_node Demo.functions 8 (foreach_a "index" "c") (engine ∅ [])) "arg0"
     = Some (VStr "a").
Proof. split_and!; by_vm. Qed.

(** The specification's example in small: two items, the body of [f] run
    for each, [x], [index] and [arg0] set before each run. *)
Lemma foreach_runs_body_per_item_witness :
  handle_foreach Demo.functions (exec_node Demo.functions 8) 8 (foreach_ab "x" "f")
    (engine ∅ []) = Ok foreach_ab_end
  /\ exists pres s1,
       body_runs (exec_node Demo.functions 8) 8 "x" body_f 0
         [VStr "a"; VStr "b"] (engine ∅ []) pres s1
       /\ length pres = 2%nat
       /\ (forall (j : nat) (pre : Engine) (val : Value),
             pres !! j = Some pre -> [VStr "a"; VStr "b"] !! j = Some val ->
             loop_bound "x" (Z.of_nat j) val pre)
       /\ delays 8 (foreach_ab "x" "f") s1 = Ok foreach_ab_end.
Proof.
  split; [by_vm|].
  apply (foreach_runs_body_per_item Demo.functions (exec_node Demo.functions 8) 8
           (foreach_ab "x" "f") (node "func" [("name", "f")] body_f)
           (engine ∅ []) foreach_ab_end [VStr "a"; VStr "b"]); by_vm.
Defined.

(** C10, the claim as stated fails: the body of [h] calls [g] with an [arg0]
    of its own, and after the loop [arg0] holds that string, not the last
    item; and with the per-element variable named [index], that variable
    holds 1 after the loop, not the last item. *)
Lemma foreach_bindings_overwritten :
  completed (exec_node Demo.functions 8 (foreach_ab "x" "h") (engine ∅ [])) = true
  /\ after (exec_node Demo.functions 8 (foreach_ab "x" "h") (engine ∅ [])) "arg0"
     = Some (VStr "inner")
  /\ after (exec_node Demo.functions 8 (foreach_ab "x" "h") (engine ∅ [])) "x"
     = Some (VStr "b")
  /\ completed (exec_node Demo.functions 8 (foreach_ab "index" "g") (engine ∅ [])) = true
  /\ after (exec_node Demo.functions 8 (foreach_ab "index" "g") (engine ∅ [])) "index"
     = Some (VInt 1).
Proof. split_and!; by_vm. Qed.

(** After that loop the store is the one the run for ["b"] left. *)
Lemma foreach_leaves_bindings_witness :
  handle_foreach Demo.functions (exec_node Demo.functions 8) 8 (foreach_ab "x" "f")
    (engine ∅ []) = Ok foreach_ab_end
  /\ exists pre post,
       loop_bound "x" 1 (VStr "b") pre
       /\ in_order (exec_node Demo.functions 8) 8 body_f pre post
       /\ variables foreach_ab_end = variables post.
Proof.
  split; [by_vm|].
  apply (foreach_leaves_bindings Demo.functions (exec_node Demo.functions 8) 8
           (foreach_ab "x" "f") (node "func" [("name", "f")] body_f)
           (engine ∅ []) foreach_ab_end [VStr "a"; VStr "b"] [VStr "a"] (VStr "b")); by_vm.
Defined.

(** The specification's examples: [times="3"] runs the child three times,
    [times="-1"] does not run it. *)
Example repeat_three_times :
  after (exec_node Demo.functions 8 (repeat_x "3") (engine ∅ [])) "arg1" = Some (VStr "xxx")
  /\ times_of (Demo.eval "3") = 3%nat
  /\ times_of (Demo.eval "-1") = 0%nat
  /\ completed (exec_node Demo.functions 8 (repeat_x "-1") (engine ∅ [])) = true
  /\ after (exec_node Demo.functions 8 (repeat_x "-1") (engine ∅ [])) "arg1" = None.
Proof. split_and!; by_vm. Qed.

(** C7, the claim as stated fails: a [set] with the attributes [tol] and
    [comment] creates the variables [tol] and [comment]. *)
Lemma set_assigns_tol_and_comment :
  after (exec_node Demo.functions 4 set_tol_comment (engine ∅ [])) "tol" = Some (VInt 1)
  /\ after (exec_node Demo.functions 4 set_tol_comment (engine ∅ [])) "comment"
     = Some (VStr "hi").
Proof. split_and!; by_vm. Qed.

(** A [set] with a delay: the delay is slept, and no variable is named
    after it. *)
Lemma set_skips_delays_only_witness :
  handle_set 4 set_with_delay (engine ∅ []) = Ok set_with_delay_end
  /\ variables set_with_delay_end !! "delay_fixed" = None
  /\ variables set_with_delay_end !! "x" = Some (VInt 1).
Proof.
  split; [by_vm|].
  destruct (set_skips_delays_only 4 set_with_delay (engine ∅ []) set_with_delay_end)
    as (D & _ & A & _); [by_vm|].
  split; [exact D | by_vm].
Defined.

(** An [if] with a false condition runs what follows the first marker, and
    no marker. *)
Example if_false_runs_else_side :
  if_branch false
    [node "set" [("a", "1")] []; node "else" [] []; node "set" [("b", "2")] [];
     node "Else" [] []; node "set" [("c", "3")] []]
  = [node "set" [("b", "2")] []; node "set" [("c", "3")] []].
Proof. by_vm. Qed.

End Runs.

(** * Further properties of the engine *)

(** ** Texts: filters, placeholders, lines and casts *)

Section MoreText.
Context `{H : Host}.

Lemma hex_digit_unreserved (c : ascii) :
  is_unreserved (hex_digit (code c / 16)%N) = true
  /\ is_unreserved (hex_digit (code c mod 16)%N) = true.
Proof. destruct c as [[] [] [] [] [] [] [] []]; split; reflexivity. Qed.

Lemma quote_plus_url_safe (s : string) : all_chars is_url_safe (quote_plus s) = true.
Proof.
  induction s as [|c r IH]; [reflexivity|].
  cbn [quote_plus]. destruct (is_unreserved c) eqn:U.
  - cbn [all_chars]. unfold is_url_safe at 1. rewrite U. exact IH.
  - destruct (Ascii.eqb c " ").
    + cbn [all_chars]. exact IH.
    + destruct (hex_digit_unreserved c) as [A B].
      cbn [all_chars]. unfold is_url_safe at 2 3. rewrite A, B. exact IH.
Qed.

Lemma quote_plus_unreserved (s : string) :
  all_chars is_unreserved s = true -> quote_plus s = s.
Proof.
  induction s as [|c r IH]; [reflexivity|].
  simpl. intros E. apply andb_prop in E as [U R]. rewrite U, (IH R). reflexivity.
Qed.

Lemma quote_plus_length (s : string) :
  (String.length s <= String.length (quote_plus s) <= 3 * String.length s)%nat.
Proof.
  induction s as [|c r IH]; [simpl; lia|].
  simpl. destruct (is_unreserved c); [simpl; lia|].
  destruct (Ascii.eqb c " "); simpl; lia.
Qed.

(** X1 ([_apply_filter]).  Under one of the four URL filters, whatever the
    value is, the text inserted is made of letters, digits and the
    characters [_ . - ~ + %] only; it is the value's own text when that has
    unreserved characters only; and, counted in UTF-8 bytes, it is never
    shorter than the value's text nor more than three times as long. *)
Theorem apply_filter_url_safe (value : Value) (filt : string) :
  str_in (lower (strip filt)) url_filters = true ->
  all_chars is_url_safe (apply_filter value (Some filt)) = true
  /\ (all_chars is_unreserved (py_str value) = true ->
      apply_filter value (Some filt) = py_str value)
  /\ (String.length (py_str value) <= String.length (apply_filter value (Some filt))
      <= 3 * String.length (py_str value))%nat.
Proof.
  intros F. unfold apply_filter. simpl default.
  unfold url_filters in F. rewrite F.
  split_and!.
  - apply quote_plus_url_safe.
  - apply quote_plus_unreserved.
  - apply quote_plus_length.
  - apply quote_plus_length.
Qed.

Lemma substitute_split (vars : gmap string Value) (pre r : string) :
  substitute_vars (Some (pre +:+ String "$" r)) vars
  = substitute_vars (Some pre) vars +:+ substitute_vars (Some (String "$" r)) vars.
Proof.
  unfold substitute_vars. apply sub_from_app; [right; eauto | lia].
Qed.

(** X2 ([_substitute_vars]).  Substitution is one pass from left to right:
    a text can be cut in front of any dollar sign and the two parts
    substituted on their own; at a well-formed placeholder the text before
    it, the placeholder and the text after it are substituted on their own,
    so what a value brings in is not scanned again. *)
Theorem substitute_at_placeholder (vars : gmap string Value)
    (pre post name : string) (filt : option string) :
  is_ident name = true ->
  match filt with Some f => is_ident f | None => true end = true ->
  (forall r, substitute_vars (Some (pre +:+ String "$" r)) vars
             = substitute_vars (Some pre) vars +:+ substitute_vars (Some (String "$" r)) vars)
  /\ substitute_vars (Some (pre +:+ hole_text name filt +:+ post)) vars
     = substitute_vars (Some pre) vars +:+ hole_value vars name filt
       +:+ substitute_vars (Some post) vars.
Proof.
  intros N F. split; [intros r; apply substitute_split|].
  assert (E : hole_text name filt +:+ post
              = String "$" (tail (hole_text name filt +:+ post))).
  { unfold hole_text. rewrite !append_cons. reflexivity. }
  rewrite E, substitute_split, <- E. f_equal.
  unfold substitute_vars.
  rewrite (sub_from_match _ _ _ _ (match_placeholder_hole name filt post N F)).
  - rewrite repl_hole by exact F. reflexivity.
  - reflexivity.
  - unfold hole_text. rewrite !append_cons. discriminate.
Qed.

Lemma no_opening_no_match (s : string) :
  has_opening s = false -> has_placeholder s = false.
Proof.
  induction s as [|c r IH]; [reflexivity|].
  simpl. intros E. apply orb_false_elim in E as [A B].
  rewrite (IH B), orb_false_r.
  apply bool_decide_eq_false. intros [m M].
  unfold match_placeholder in M. simpl in M. rewrite A in M. discriminate.
Qed.

(** X3 ([_substitute_vars]).  A text in which no dollar sign is followed by
    an opening brace comes back unchanged, whatever the store holds. *)
Theorem substitute_without_opening (vars : gmap string Value) (s : string) :
  has_opening s = false -> substitute_vars (Some s) vars = s.
Proof.
  intros E. unfold substitute_vars. apply sub_from_plain, no_opening_no_match, E.
Qed.

End MoreText.

Section MoreLines.
Context `{H : Host}.

Lemma split_pieces_no_break (s : string) :
  all_chars no_break (fst (split_pieces s)) = true
  /\ Forall (fun x => all_chars no_break x = true) (snd (split_pieces s)).
Proof.
  induction s as [|c r [A B]]; [split; [reflexivity | constructor]|].
  cbn [split_pieces]. destruct (split_pieces r) as [h t]. cbn [fst snd] in *.
  destruct (is_break c) eqn:E; cbn [fst snd].
  - split; [reflexivity|]. destruct (starts_with_break r); [exact B | constructor; assumption].
  - split; [|exact B]. cbn [all_chars]. unfold no_break at 1. rewrite E. exact A.
Qed.

Lemma split_pieces_plain (s : string) :
  all_chars no_break s = true -> split_pieces s = (s, []).
Proof.
  induction s as [|c r IH]; [reflexivity|].
  cbn [all_chars split_pieces]. intros E. apply andb_prop in E as [A B].
  rewrite (IH B). unfold no_break in A. apply negb_true_iff in A. rewrite A. reflexivity.
Qed.

Lemma nonblank_lines_items (t : string) :
  Forall (fun x => all_chars no_break x = true /\ strip x <> "") (nonblank_lines t).
Proof.
  apply Forall_forall. intros x I. unfold nonblank_lines in I.
  apply list_elem_of_filter in I as [N I]. split.
  - unfold split_breaks in I. destruct (split_pieces_no_break t) as [A B].
    destruct (split_pieces t) as [h l]. cbn [fst snd] in *.
    apply elem_of_cons in I as [->|I]; [exact A|].
    rewrite Forall_forall in B. exact (B x I).
  - intros E. rewrite E in N. discriminate.
Qed.

Lemma nonblank_lines_plain (t : string) :
  all_chars no_break t = true ->
  nonblank_lines t = if nonempty (strip t) then [t] else [].
Proof.
  intros E. unfold nonblank_lines, split_breaks. rewrite (split_pieces_plain t E).
  rewrite filter_cons, filter_nil.
  destruct (nonempty (strip t)) eqn:N.
  - rewrite decide_True by reflexivity. reflexivity.
  - rewrite decide_False by discriminate. reflexivity.
Qed.

(** X4 ([handle_foreach], the items of a text).  When the list attribute
    names a string variable, or no variable at all (the attribute's own
    text is then substituted), the items are the pieces of that text
    between runs of line breaks: no item holds a carriage return or a line
    feed, no item is blank, and a text without line breaks is one item, or
    none when it is blank. *)
Theorem foreach_items_lines (list_attr : string) (s : Engine) (t : string) :
  match variables s !! list_attr with
  | Some (VStr d) => t = d
  | None => t = substitute_vars (Some list_attr) (variables s)
  | Some _ => False
  end ->
  foreach_items list_attr s = Some (VStr <$> nonblank_lines t)
  /\ Forall (fun x => all_chars no_break x = true /\ strip x <> "") (nonblank_lines t)
  /\ (all_chars no_break t = true ->
      nonblank_lines t = if nonempty (strip t) then [t] else []).
Proof.
  intros E. split_and!.
  - unfold foreach_items. destruct (variables s !! list_attr) as [[]|]; try done; by subst.
  - apply nonblank_lines_items.
  - apply nonblank_lines_plain.
Qed.

(** [lstrip] drops the white-space character at the head, of one, two or
    three bytes, and goes on. *)
Lemma lstrip_eq (s : string) :
  lstrip s = match blank_len s with
             | O => s
             | n => lstrip (drop_str n s)
             end.
Proof.
  destruct s as [|c r]; [reflexivity|]. cbn [lstrip].
  destruct (blank_len (String c r)) as [|[|[|[|n]]]] eqn:B; try reflexivity.
  - destruct r as [|d r2]; [|reflexivity].
    cbn in B. destruct (is_space c); discriminate.
  - destruct r as [|d [|e r3]]; [| |reflexivity];
      cbn [blank_len] in B; destruct (is_space c); try discriminate;
      destruct (blank2 c d); discriminate.
  - unfold blank_len in B. destruct (is_space c); [discriminate|].
    destruct (match r with String d _ => blank2 c d | EmptyString => false end);
      [discriminate|].
    destruct (match r with String d (String e _) => blank3 c d e | _ => false end);
      discriminate.
Qed.

Lemma blank_len_length (s : string) : (blank_len s <= String.length s)%nat.
Proof.
  destruct s as [|c [|d [|e r3]]]; cbn [blank_len String.length];
    repeat match goal with |- context [if ?b then _ else _] => destruct b end; lia.
Qed.

Lemma length_drop_str (k : nat) (s : string) :
  String.length (drop_str k s) = (String.length s - k)%nat.
Proof.
  revert s. induction k as [|k IH]; intros [|c r]; cbn [drop_str String.length];
    try lia. rewrite IH. lia.
Qed.

Lemma all_chars_drop_str (p : ascii -> bool) (k : nat) (s : string) :
  all_chars p s = true -> all_chars p (drop_str k s) = true.
Proof.
  revert s. induction k as [|k IH]; intros [|c r]; cbn [drop_str all_chars]; auto.
  intros E. apply andb_prop in E as [_ E]. exact (IH r E).
Qed.

Lemma lstrip_spec (p : ascii -> bool) (n : nat) (s : string) :
  (String.length s <= n)%nat ->
  blank_len (lstrip s) = O
  /\ (all_chars p s = true -> all_chars p (lstrip s) = true).
Proof.
  revert s. induction n as [|n IH]; intros s L.
  - destruct s; [split; [reflexivity | auto] | cbn in L; lia].
  - rewrite lstrip_eq. pose proof (blank_len_length s) as B.
    destruct (blank_len s) as [|k] eqn:E; [split; [exact E | auto]|].
    destruct (IH (drop_str (S k) s)) as [A C]; [rewrite length_drop_str; lia|].
    split; [exact A|]. intros F. apply C, all_chars_drop_str, F.
Qed.

Lemma lstrip_head (s : string) : blank_len (lstrip s) = O.
Proof. exact (proj1 (lstrip_spec (fun _ => true) (String.length s) s (le_n _))). Qed.

Lemma rstrip_prefix (t : string) : exists v, t = rstrip t +:+ v.
Proof.
  induction t as [|c r [v IH]]; [exists EmptyString; reflexivity|].
  cbn [rstrip]. destruct (is_blank (String c (rstrip r))).
  - exists (String c r). rewrite append_nil_l. reflexivity.
  - exists v. rewrite append_cons, <- IH. reflexivity.
Qed.

Lemma blank_len_prefix (u v : string) :
  blank_len u <> O -> blank_len (u +:+ v) = blank_len u.
Proof.
  destruct u as [|c [|d [|e u3]]]; rewrite ?append_cons, ?append_nil_l;
    cbn [blank_len]; intros N.
  - done.
  - destruct (is_space c); [reflexivity | done].
  - destruct (is_space c); [reflexivity|]. destruct (blank2 c d); [reflexivity | done].
  - reflexivity.
Qed.

Lemma lstrip_rstrip (t : string) : blank_len t = O -> lstrip (rstrip t) = rstrip t.
Proof.
  intros B. rewrite lstrip_eq. destruct (blank_len (rstrip t)) as [|k] eqn:E; [reflexivity|].
  destruct (rstrip_prefix t) as [v V].
  assert (N : blank_len (rstrip t) <> O) by (rewrite E; discriminate).
  pose proof (blank_len_prefix (rstrip t) v N) as P.
  rewrite <- V, B, E in P. discriminate.
Qed.

Lemma rstrip_idempotent (s : string) : rstrip (rstrip s) = rstrip s.
Proof.
  induction s as [|c r IH]; [reflexivity|].
  cbn [rstrip]. destruct (is_blank (String c (rstrip r))) eqn:B; [reflexivity|].
  cbn [rstrip]. rewrite IH, B. reflexivity.
Qed.

Lemma strip_idempotent (s : string) : strip (strip s) = strip s.
Proof.
  unfold strip. rewrite (lstrip_rstrip (lstrip s) (lstrip_head s)).
  apply rstrip_idempotent.
Qed.

Lemma smart_cast_text (v : Value) :
  smart_cast v
  = match v with
    | VBool _ | VInt _ | VFloat _ => v
    | _ => cast_text (strip (py_str v))
    end.
Proof.
  destruct v; try reflexivity; unfold smart_cast, cast_text, maybe_int, maybe_float;
    repeat match goal with |- context [if ?b then _ else _] => destruct b; try reflexivity end;
    destruct (int_of_string _); reflexivity.
Qed.

Lemma cast_text_fixed (st : string) :
  strip st = st ->
  match cast_text st with
  | VBool _ | VInt _ | VFloat _ => True
  | VStr x => x = st /\ cast_text x = VStr x
  | _ => False
  end.
Proof.
  intros S. unfold cast_text.
  destruct (str_in (lower st) ["1"; "true"; "yes"; "on"]) eqn:A; [exact I|].
  destruct (str_in (lower st) ["0"; "false"; "no"; "off"]) eqn:B; [exact I|].
  destruct (int_of_string st) eqn:C; [exact I|].
  destruct (float_of_string st) eqn:D; [exact I|].
  split; [reflexivity|]. rewrite A, B, C, D. reflexivity.
Qed.

Lemma smart_cast_scalar (v : Value) :
  match smart_cast v with
  | VBool _ | VInt _ | VFloat _ => True
  | VStr st => strip st = st
  | VNone | VList _ | VObj _ _ _ _ _ => False
  end.
Proof.
  rewrite (smart_cast_text v).
  assert (T : forall st, strip st = st ->
            match cast_text st with
            | VBool _ | VInt _ | VFloat _ => True
            | VStr x => strip x = x
            | VNone | VList _ | VObj _ _ _ _ _ => False
            end).
  { intros st S. pose proof (cast_text_fixed st S) as F.
    destruct (cast_text st); try done. destruct F as [-> _]. exact S. }
  destruct v; try exact I; apply T, strip_idempotent.
Qed.

(** X5 ([_smart_cast], [_maybe_int], [_maybe_float]).  A cast gives a
    boolean, an integer, a float or a text, never anything else; a text it
    gives has no white space at either end and reads neither as an integer
    nor as a float; and casting a second time changes nothing. *)
Theorem smart_cast_idempotent (v : Value) :
  smart_cast (smart_cast v) = smart_cast v
  /\ match smart_cast v with
     | VBool _ | VInt _ | VFloat _ => True
     | VStr st => strip st = st /\ int_of_string st = None /\ float_of_string st = None
     | VNone | VList _ | VObj _ _ _ _ _ => False
     end.
Proof.
  assert (T : forall st, strip st = st ->
            smart_cast (cast_text st) = cast_text st
            /\ match cast_text st with
               | VBool _ | VInt _ | VFloat _ => True
               | VStr x => strip x = x /\ int_of_string x = None /\ float_of_string x = None
               | VNone | VList _ | VObj _ _ _ _ _ => False
               end).
  { intros st S. pose proof (cast_text_fixed st S) as F.
    destruct (cast_text st) as [| | | |x| |] eqn:C; try done.
    destruct F as [-> F]. split.
    - rewrite smart_cast_text. cbn [py_str]. rewrite S. exact F.
    - split; [exact S|]. unfold cast_text in C.
      destruct (str_in (lower st) ["1"; "true"; "yes"; "on"]); [discriminate|].
      destruct (str_in (lower st) ["0"; "false"; "no"; "off"]); [discriminate|].
      destruct (int_of_string st); [discriminate|].
      destruct (float_of_string st); [discriminate|]. split; reflexivity. }
  rewrite (smart_cast_text v).
  destruct v; try (split; [reflexivity | exact I]); apply T, strip_idempotent.
Qed.

End MoreLines.

(** ** Key combinations and keyword arguments *)

Section MoreParts.
Context `{H : Host}.

Lemma split_on_other (sep : ascii) (s : string) :
  all_chars (other_than sep) (fst (split_on sep s)) = true
  /\ Forall (fun x => all_chars (other_than sep) x = true) (snd (split_on sep s)).
Proof.
  induction s as [|c r [A B]]; [split; [reflexivity | constructor]|].
  cbn [split_on]. destruct (split_on sep r) as [h t]. cbn [fst snd] in *.
  destruct (Ascii.eqb c sep) eqn:E; cbn [fst snd].
  - split; [reflexivity | constructor; assumption].
  - split; [|exact B]. cbn [all_chars]. unfold other_than at 1. rewrite E. exact A.
Qed.

Lemma split_on_plain (sep : ascii) (s : string) :
  all_chars (other_than sep) s = true -> split_on sep s = (s, []).
Proof.
  induction s as [|c r IH]; [reflexivity|].
  cbn [all_chars split_on]. intros E. apply andb_prop in E as [A B].
  rewrite (IH B). unfold other_than in A. apply negb_true_iff in A. rewrite A. reflexivity.
Qed.

Lemma split_on_app (sep : ascii) (x rest : string) :
  all_chars (other_than sep) x = true ->
  split_on sep (x +:+ String sep rest) = (x, split_char sep rest).
Proof.
  induction x as [|c r IH].
  - intros _. rewrite append_nil_l. cbn [split_on]. unfold split_char.
    destruct (split_on sep rest) as [h t]. rewrite Ascii.eqb_refl. reflexivity.
  - cbn [all_chars]. intros E. apply andb_prop in E as [A B].
    rewrite append_cons. cbn [split_on]. rewrite (IH B).
    unfold other_than in A. apply negb_true_iff in A. rewrite A. reflexivity.
Qed.

Lemma split_char_join (sep : ascii) (l : list string) :
  Forall (fun x => all_chars (other_than sep) x = true) l -> l <> [] ->
  split_char sep (join (String sep "") l) = l.
Proof.
  induction l as [|x r IH]; [done|]. intros F _.
  apply Forall_cons in F as [X F]. destruct r as [|y r].
  - cbn [join]. unfold split_char. rewrite (split_on_plain sep x X). reflexivity.
  - change (join (String sep "") (x :: y :: r))
      with (x +:+ String sep "" +:+ join (String sep "") (y :: r)).
    rewrite append_cons, append_nil_l. unfold split_char at 1.
    rewrite (split_on_app sep x _ X), (IH F) by discriminate. reflexivity.
Qed.

Lemma lstrip_all_chars (p : ascii -> bool) (s : string) :
  all_chars p s = true -> all_chars p (lstrip s) = true.
Proof. exact (proj2 (lstrip_spec p (String.length s) s (le_n _))). Qed.

Lemma rstrip_all_chars (p : ascii -> bool) (s : string) :
  all_chars p s = true -> all_chars p (rstrip s) = true.
Proof.
  induction s as [|c r IH]; [done|]. cbn [rstrip all_chars]. intros E.
  apply andb_prop in E as [A B]. specialize (IH B).
  destruct (is_blank (String c (rstrip r))); [reflexivity|].
  cbn [all_chars]. rewrite A. exact IH.
Qed.

Lemma stripped_parts_clean (sep : ascii) (s : string) :
  Forall (clean_part sep) (stripped_parts sep s).
Proof.
  apply Forall_forall. intros p I. unfold stripped_parts in I.
  apply list_elem_of_filter in I as [N I]. apply list_elem_of_fmap in I as (q & -> & I).
  split_and!.
  - apply strip_idempotent.
  - intros E. rewrite E in N. discriminate.
  - unfold strip. apply rstrip_all_chars, lstrip_all_chars.
    unfold split_char in I. destruct (split_on_other sep s) as [A B].
    destruct (split_on sep s) as [h t]. cbn [fst snd] in *.
    apply elem_of_cons in I as [->|I]; [exact A|].
    rewrite Forall_forall in B. exact (B q I).
Qed.

Lemma stripped_parts_join (sep : ascii) (l : list string) :
  Forall (clean_part sep) l -> stripped_parts sep (join (String sep "") l) = l.
Proof.
  intros F. unfold stripped_parts. destruct l as [|x r]; [reflexivity|].
  rewrite split_char_join; [|eapply Forall_impl; [exact F | intros p (_ & _ & A); exact A]
                            |discriminate].
  induction F as [|p l (S & N & _) _ IH]; [reflexivity|].
  cbn [fmap list_fmap]. rewrite filter_cons, S.
  rewrite decide_True by (destruct p; done). f_equal. exact IH.
Qed.

(** X6 ([_hotkey]).  The parts of a key combination are what stands
    between the plus signs, white space stripped and empty parts dropped:
    no part is empty, has white space at either end or holds a plus sign.
    The text given to [keyboard.send] is normalised: reading it again
    gives the same parts and sending it again the same text, and the keys
    given to [pyautogui.hotkey] are its parts in lower case. *)
Theorem hotkey_normalised (combo : string) :
  Forall (clean_part "+") (stripped_parts "+" combo)
  /\ stripped_parts "+" (hotkey_send combo) = stripped_parts "+" combo
  /\ hotkey_send (hotkey_send combo) = hotkey_send combo
  /\ hotkey_keys combo = lower <$> stripped_parts "+" (hotkey_send combo).
Proof.
  pose proof (stripped_parts_clean "+" combo) as C.
  pose proof (stripped_parts_join "+" _ C) as J.
  split_and!; [exact C | exact J | |].
  - unfold hotkey_send. rewrite J. reflexivity.
  - unfold hotkey_keys, hotkey_send. rewrite J. reflexivity.
Qed.

(** X7 ([handle_extnode], the keyword arguments).  The extension is
    called with one keyword for every attribute that is not one of the nine
    names the handler keeps for itself, in document order.  An argument
    named [disciplines] or [subtopics], or whose name ends in [_list] in any
    letter case, is a list of texts, the pieces between commas with white
    space stripped and empty pieces dropped; any other argument is a
    boolean, an integer, a float or a text without white space at either
    end. *)
Theorem extnode_kwargs_shape (nd : Node) (vars : gmap string Value) :
  (extnode_kwargs nd vars).*1
  = filter (fun k => str_in k extnode_reserved = false) (attrib nd).*1
  /\ Forall (fun kv =>
       str_in (fst kv) extnode_reserved = false
       /\ match snd kv with
          | VBool _ | VInt _ | VFloat _ => is_list_arg (fst kv) = false
          | VStr st => is_list_arg (fst kv) = false /\ strip st = st
          | VList l =>
              is_list_arg (fst kv) = true
              /\ Forall (fun x => exists p, x = VStr p /\ clean_part "," p) l
          | VNone | VObj _ _ _ _ _ => False
          end) (extnode_kwargs nd vars).
Proof.
  unfold extnode_kwargs. split.
  - induction (attrib nd) as [|[k v] r IH]; [reflexivity|].
    cbn [fmap list_fmap fst]. rewrite !filter_cons. cbn [fst].
    destruct (str_in k extnode_reserved) eqn:R.
    + rewrite !decide_False by discriminate. exact IH.
    + rewrite !decide_True by reflexivity. cbn [fmap list_fmap fst]. f_equal. exact IH.
  - apply Forall_fmap, Forall_forall. intros [k v] I.
    apply list_elem_of_filter in I as [R _]. unfold compose. cbn [fst snd] in *.
    split; [exact R|]. unfold extnode_arg.
    destruct (is_list_arg k) eqn:L.
    + split; [reflexivity|]. apply Forall_fmap.
      eapply Forall_impl; [apply stripped_parts_clean|]. intros p C.
      unfold compose. eauto.
    + pose proof (smart_cast_scalar (VStr (substitute_vars (Some v) vars))) as S.
      destruct (smart_cast _); done.
Qed.

End MoreParts.

(** ** The controller: pause gate, hotkey polling and waits *)

Section MoreController.
Context `{H : Host}.

Ltac open_state :=
  unfold same_frame, sleep_paused, sleep, skip_wait_now, toggle_pause, with_world,
    with_skip_wait, with_paused, with_last_ctrlspace, with_voice, assign,
    with_variables in *;
  cbn [variables skip_wait paused last_ctrlspace voice clock paused_ms world] in *.

(** What the listener thread and a poll of the keyboard leave as it was. *)
Lemma listen_keeps (s : Engine) :
  same_frame s (listen s) /\ voice (listen s) = voice s
  /\ last_ctrlspace (listen s) = last_ctrlspace s
  /\ (skip_wait s = true -> skip_wait (listen s) = true).
Proof.
  unfold listen. destruct (hotkey_thread (world s)) as [[tg sk] w].
  cbn [sig_toggle sig_skip]. destruct tg, sk; open_state; split_and!; auto.
Qed.

Lemma poll_keeps (s : Engine) :
  same_frame s (poll_hotkeys_inline s) /\ voice (poll_hotkeys_inline s) = voice s
  /\ (skip_wait s = true -> skip_wait (poll_hotkeys_inline s) = true).
Proof.
  unfold poll_hotkeys_inline. destruct (keyboard_state (world s)) as [[[c n sp]|] w].
  - cbn [key_ctrl key_n key_space].
    destruct c, n, sp, (last_ctrlspace s) eqn:L; open_state; rewrite ?L; open_state;
      split_and!; auto.
  - open_state. split_and!; auto.
Qed.

Lemma pause_gate_account (fuel : nat) (s s' : Engine) :
  pause_gate fuel s = Ok s' ->
  paused s' = false
  /\ variables s' = variables s
  /\ voice s' = voice s
  /\ (skip_wait s = true -> skip_wait s' = true)
  /\ exists n : nat,
       (n <= fuel)%nat
       /\ clock s' = clock s + 50 * Z.of_nat n
       /\ paused_ms s' = paused_ms s + 50 * Z.of_nat n.
Proof.
  revert s. induction fuel as [|f IH]; intros s; cbn [pause_gate];
    destruct (listen_keeps s) as ((V & C & P) & Vo & _ & Sk);
    destruct (paused (listen s)) eqn:E; try discriminate.
  - intros [= <-]. split_and!; auto. exists O. split_and!; lia.
  - destruct (poll_keeps (listen s)) as ((V1 & C1 & P1) & Vo1 & Sk1).
    destruct (pause_toggle_event _) as [b w]. intros G.
    apply IH in G as (A & B & Vo2 & Sk2 & n & N & Cn & Pn).
    destruct b; open_state.
    + split_and!; auto; try congruence. exists (S n). split_and!; lia.
    + split_and!; auto; try congruence. exists (S n). split_and!; lia.
  - intros [= <-]. split_and!; auto. exists O. split_and!; lia.
Qed.

(** The gate, turn by turn. *)
Lemma pause_gate_turn (fuel : nat) (s : Engine) :
  pause_gate fuel s
  = if paused (listen s)
    then match fuel with
         | O => OutOfFuel
         | S f => pause_gate f (gate_slice s)
         end
    else Ok (listen s).
Proof.
  destruct fuel as [|f]; cbn [pause_gate]; destruct (paused (listen s)); try reflexivity.
  unfold gate_slice. destruct (pause_toggle_event _) as [b w]. reflexivity.
Qed.

Lemma gate_slice_skip (s : Engine) :
  skip_wait (poll_hotkeys_inline (listen s)) = true -> skip_wait (gate_slice s) = true.
Proof.
  unfold gate_slice. destruct (pause_toggle_event _) as [b w].
  destruct b; open_state; auto.
Qed.

Lemma gate_sees_skip (s t : Engine) :
  gate_sees s t -> skip_wait t = true ->
  forall fuel s', pause_gate fuel s = Ok s' -> skip_wait s' = true.
Proof.
  induction 1 as [s | s Pa | s t Pa _ IH]; intros Sk fuel s'; rewrite pause_gate_turn.
  - destruct (paused (listen s)); [|intros [= <-]; exact Sk].
    destruct fuel as [|f]; [discriminate|]. intros G.
    apply pause_gate_account in G as (_ & _ & _ & K & _).
    apply K, gate_slice_skip, poll_keeps, Sk.
  - rewrite Pa. destruct fuel as [|f]; [discriminate|]. intros G.
    apply pause_gate_account in G as (_ & _ & _ & K & _).
    apply K, gate_slice_skip, Sk.
  - rewrite Pa. destruct fuel as [|f]; [discriminate|]. apply (IH Sk).
Qed.

(** X8 ([_pause_gate]).  [_pause_gate] returns only with the pause flag
    clear.  It sleeps in whole slices of 50 ms, at most one per unit of
    fuel, every one of them counted as paused time; it never changes the
    store or the voice daemon.  It never clears the skip flag: a skip
    requested before the pause, or found set at any look at the flags or at
    any poll of the keyboard during the pause, is still pending when it
    returns. *)
Theorem pause_gate_slices (fuel : nat) (s s' : Engine) :
  pause_gate fuel s = Ok s' ->
  paused s' = false
  /\ variables s' = variables s
  /\ voice s' = voice s
  /\ (skip_wait s = true -> skip_wait s' = true)
  /\ (forall t, gate_sees s t -> skip_wait t = true -> skip_wait s' = true)
  /\ exists n : nat,
       (n <= fuel)%nat
       /\ clock s' = clock s + 50 * Z.of_nat n
       /\ paused_ms s' = paused_ms s + 50 * Z.of_nat n.
Proof.
  intros G. destruct (pause_gate_account fuel s s' G) as (A & B & C & D & E).
  split_and!; try assumption.
  intros t T Sk. exact (gate_sees_skip s t T Sk fuel s' G).
Qed.

(** X9 ([_poll_hotkeys_inline]).  With a keyboard, a poll remembers whether
    Ctrl+Space is down, toggles the pause flag only when the keys are down
    and were not at the poll before, and raises the skip flag when Ctrl+N is
    down, never clearing it; the store and the clock are untouched.  So
    Ctrl+Space held over two polls toggles the pause once. *)
Theorem poll_edge_triggered (s : Engine) (k : KeyState) (w : World) :
  keyboard_state (world s) = (Some k, w) ->
  let pressed := key_ctrl k && key_space k in
  let s' := poll_hotkeys_inline s in
  last_ctrlspace s' = pressed
  /\ paused s' = (if pressed && negb (last_ctrlspace s) then negb (paused s) else paused s)
  /\ skip_wait s' = skip_wait s || (key_ctrl k && key_n k)
  /\ same_frame s s'
  /\ world s' = w
  /\ (forall k2 w2, keyboard_state w = (Some k2, w2) ->
        pressed = true -> key_ctrl k2 && key_space k2 = true ->
        paused (poll_hotkeys_inline s') = paused s').
Proof.
  intros K pressed s'.
  assert (Once : forall (t : Engine) k1 w1, keyboard_state (world t) = (Some k1, w1) ->
            last_ctrlspace (poll_hotkeys_inline t) = key_ctrl k1 && key_space k1
            /\ paused (poll_hotkeys_inline t)
               = (if key_ctrl k1 && key_space k1 && negb (last_ctrlspace t)
                  then negb (paused t) else paused t)
            /\ skip_wait (poll_hotkeys_inline t) = skip_wait t || (key_ctrl k1 && key_n k1)
            /\ world (poll_hotkeys_inline t) = w1).
  { intros t [c n sp] w1 K1. unfold poll_hotkeys_inline. rewrite K1.
    cbn [key_ctrl key_n key_space].
    destruct c, n, sp, (last_ctrlspace t) eqn:L; open_state; rewrite ?L; open_state;
      rewrite ?orb_true_r, ?orb_false_r; split_and!; reflexivity. }
  destruct (Once s k w K) as (A & B & C & D).
  split_and!; auto.
  - apply poll_keeps.
  - intros k2 w2 K2 P1 P2. fold s' in A, D. rewrite <- D in K2.
    destruct (Once s' k2 w2 K2) as (_ & B2 & _).
    rewrite B2, A, P2. fold pressed. rewrite P1. reflexivity.
Qed.

Lemma sleep_ms_bounded (fuel : nat) (total_ms : Z) (s s' : Engine) :
  sleep_ms_interruptible fuel total_ms s = Ok s' ->
  variables s' = variables s /\ clock s <= clock s' /\ paused_ms s <= paused_ms s'
  /\ running s' - running s <= Z.max 0 total_ms.
Proof.
  unfold sleep_ms_interruptible. destruct (total_ms <=? 0) eqn:E.
  - intros [= <-]. split_and!; try reflexivity; lia.
  - apply Z.leb_gt in E.
    destruct (sleep_loop fuel (clock s + total_ms) s) as [[x s1]| |] eqn:L; try discriminate.
    cbn. intros [= <-].
    apply sleep_loop_sound in L as (V & C & P & R & _).
    unfold to_go in R. split_and!; auto. lia.
Qed.

(** X10 ([_delays]).  The delays of a node leave the store as it was and
    never turn the clock back; when the host draws the jitter no larger
    than [delay_ms], the time they sleep while the engine is not paused is
    at most [delay_fixed] plus [delay_ms], each counted as zero when absent,
    unreadable or negative. *)
Theorem delays_bounded (fuel : nat) (nd : Node) (s s' : Engine) :
  (forall dm w, fst (jitter_ms dm w) <= Z.max 0 dm) ->
  delays fuel nd s = Ok s' ->
  let df := default 0 (truthy_attr (get nd "delay_fixed") ≫= int_of_string) in
  let dm := default 0 (truthy_attr (get nd "delay_ms") ≫= int_of_string) in
  variables s' = variables s
  /\ clock s <= clock s'
  /\ paused_ms s <= paused_ms s'
  /\ running s' - running s <= Z.max 0 df + Z.max 0 dm.
Proof.
  intros J D df dm. unfold delays in D.
  apply bind_ok in D as (s1 & D1 & D2).
  assert (A : variables s1 = variables s /\ clock s <= clock s1
              /\ paused_ms s <= paused_ms s1 /\ running s1 - running s <= Z.max 0 df).
  { subst df. destruct (truthy_attr (get nd "delay_fixed") ≫= int_of_string) as [x|].
    - apply sleep_ms_bounded in D1. exact D1.
    - injection D1 as <-. cbn. split_and!; try reflexivity; lia. }
  destruct A as (V1 & C1 & P1 & R1).
  subst dm. destruct (truthy_attr (get nd "delay_ms") ≫= int_of_string) as [x|].
  - pose proof (J x (world s1)) as Jx.
    destruct (jitter_ms x (world s1)) as [j w]. cbn [fst] in Jx.
    apply sleep_ms_bounded in D2 as (V2 & C2 & P2 & R2).
    unfold running in *. open_state. cbn [default]. unfold id. split_and!; try congruence; lia.
  - injection D2 as <-. cbn [default]. split_and!; auto. lia.
Qed.

End MoreController.

Section MoreWaits.
Context `{H : Host}.

Ltac open_state :=
  unfold same_frame, sleep_paused, sleep, skip_wait_now, toggle_pause, with_world,
    with_skip_wait, with_paused, with_last_ctrlspace, with_voice, assign,
    with_variables in *;
  cbn [variables skip_wait paused last_ctrlspace voice clock paused_ms world] in *.

(** One turn of the wait loop when nothing happens around the engine. *)
Lemma sleep_step_calm (end_ts : Z) (s : Engine) :
  (forall w, fst (hotkey_thread w) = MkSignals false false) ->
  (forall w, fst (keyboard_state w) = None) ->
  (forall w, fst (skip_event w) = false) ->
  skip_wait s = false -> paused s = false ->
  exists w,
    sleep_step end_ts s
    = if end_ts <=? clock s then Exit ByDeadline (with_world w s)
      else Again (sleep (if 50 <? end_ts - clock s then 50 else end_ts - clock s)
                    (with_world w s)).
Proof.
  intros Hq Hk He Sk Pa.
  unfold sleep_step, poll_hotkeys_inline.
  pose proof (Hk (world s)) as K. destruct (keyboard_state (world s)) as [ks w1].
  cbn [fst] in K. subst ks. open_state.
  pose proof (He w1) as E. destruct (skip_event w1) as [b w2]. cbn [fst] in E. subst b.
  unfold listen. open_state.
  pose proof (Hq w2) as Q. destruct (hotkey_thread w2) as [sg w3]. cbn [fst] in Q. subst sg.
  cbn [sig_toggle sig_skip]. unfold sleep_check. open_state. rewrite Sk.
  unfold listen. open_state.
  pose proof (Hq w3) as Q. destruct (hotkey_thread w3) as [sg w4]. cbn [fst] in Q. subst sg.
  cbn [sig_toggle sig_skip]. open_state. rewrite Pa.
  exists w4. reflexivity.
Qed.

Lemma sleep_loop_calm :
  (forall w, fst (hotkey_thread w) = MkSignals false false) ->
  (forall w, fst (keyboard_state w) = None) ->
  (forall w, fst (skip_event w) = false) ->
  forall (fuel : nat) (end_ts : Z) (s : Engine),
    skip_wait s = false -> paused s = false ->
    end_ts - clock s <= 50 * (Z.of_nat fuel - 1) ->
    (0 < fuel)%nat ->
    exists s',
      sleep_loop fuel end_ts s = Ok (ByDeadline, s')
      /\ clock s' = Z.max (clock s) end_ts
      /\ paused_ms s' = paused_ms s
      /\ variables s' = variables s
      /\ skip_wait s' = false
      /\ paused s' = false.
Proof.
  intros Hq Hk He. induction fuel as [|f IH]; intros end_ts s Sk Pa F Pos; [lia|].
  cbn [sleep_loop].
  destruct (sleep_step_calm end_ts s Hq Hk He Sk Pa) as [w ->].
  destruct (end_ts <=? clock s) eqn:L.
  - apply Z.leb_le in L. eexists. split; [reflexivity|]. open_state.
    split_and!; auto. lia.
  - apply Z.leb_gt in L.
    set (d := if 50 <? end_ts - clock s then 50 else end_ts - clock s).
    assert (D : (d = 50 /\ 50 < end_ts - clock s) \/ (d = end_ts - clock s /\ d <= 50)).
    { subst d. destruct (50 <? end_ts - clock s) eqn:M;
        [apply Z.ltb_lt in M | apply Z.ltb_ge in M]; lia. }
    clearbody d.
    assert (Pos' : (0 < f)%nat) by lia.
    assert (F' : end_ts - clock (sleep d (with_world w s)) <= 50 * (Z.of_nat f - 1))
      by (open_state; lia).
    destruct (IH end_ts (sleep d (with_world w s)) Sk Pa F' Pos')
      as (s' & R & C & P & V & Sk' & Pa').
    exists s'. open_state. split_and!; auto. lia.
Qed.

(** X11 ([_sleep_ms_interruptible]).  When nothing happens around the engine
    (the listener thread never fires, there is no keyboard to poll, the
    voice bridge never asks to skip) and the engine is neither paused nor
    asked to skip, a wait ends, and exactly at its deadline: the clock has
    advanced by the requested duration, or not at all for a duration that
    is not positive; none of it counts as paused time and the store is
    untouched.  One unit of fuel per slice of 50 ms and one more are
    enough. *)
Theorem wait_undisturbed (fuel : nat) (total_ms : Z) (s : Engine) :
  (forall w, fst (hotkey_thread w) = MkSignals false false) ->
  (forall w, fst (keyboard_state w) = None) ->
  (forall w, fst (skip_event w) = false) ->
  skip_wait s = false -> paused s = false ->
  total_ms <= 50 * (Z.of_nat fuel - 1) ->
  exists s',
    sleep_ms_interruptible fuel total_ms s = Ok s'
    /\ clock s' = clock s + Z.max 0 total_ms
    /\ paused_ms s' = paused_ms s
    /\ variables s' = variables s
    /\ skip_wait s' = false
    /\ paused s' = false.
Proof.
  intros Hq Hk He Sk Pa F. unfold sleep_ms_interruptible.
  destruct (total_ms <=? 0) eqn:L.
  - apply Z.leb_le in L. exists s. split_and!; auto. lia.
  - apply Z.leb_gt in L.
    destruct (sleep_loop_calm Hq Hk He fuel (clock s + total_ms) s Sk Pa)
      as (s' & R & C & P & V & Sk' & Pa'); [lia | lia |].
    exists s'. rewrite R. cbn. split_and!; auto. lia.
Qed.

(** X12 ([_sleep_ms_interruptible], [_skip_wait_now]).  A skip requested
    before a wait begins is used up by that wait: when the voice bridge
    does not end it first, a wait of positive length returns from its first
    turn with the flag reset, without having slept and with the store as it
    was.  A wait whose length is not positive returns before it looks at
    the flag, so the request stays pending. *)
Theorem pending_skip_ends_wait (fuel : nat) (total_ms : Z) (s : Engine) :
  skip_wait s = true ->
  fst (skip_event (world (poll_hotkeys_inline s))) = false ->
  (total_ms <= 0 -> sleep_ms_interruptible fuel total_ms s = Ok s)
  /\ (0 < total_ms ->
      exists s', sleep_ms_interruptible (S fuel) total_ms s = Ok s'
                 /\ skip_wait s' = false /\ same_frame s s').
Proof.
  intros Sk E. unfold sleep_ms_interruptible. split; intros L.
  - apply Z.leb_le in L. rewrite L. reflexivity.
  - apply Z.leb_gt in L. rewrite L. cbn [sleep_loop]. rewrite sleep_step_reads.
    destruct (sleep_reads s) as [s3|] eqn:R.
    + pose proof (sleep_reads_frame s s3 R) as Fr.
      assert (Sk3 : skip_wait s3 = true).
      { unfold sleep_reads in R. destruct (skip_event _) as [b w].
        cbn [fst] in E. subst b. injection R as <-.
        apply listen_keeps. open_state. apply poll_keeps, Sk. }
      unfold sleep_check. rewrite Sk3. cbn.
      eexists. split; [reflexivity|]. open_state. auto.
    + unfold sleep_reads in R. destruct (skip_event _) as [b w].
      cbn [fst] in E. subst b. discriminate.
Qed.

End MoreWaits.

(** ** Loading and running a program *)

Section MoreDispatcher.
Context `{H : Host}.
Variable functions : gmap string Node.

Lemma run_nodes_app (fuel : nat) (a b : list Node) (s : Engine) :
  run_nodes functions fuel (a ++ b) s
  = run_nodes functions fuel a s ≫= run_nodes functions fuel b.
Proof.
  revert s. induction a as [|c r IH]; intros s; [reflexivity|].
  cbn [app run_nodes].
  destruct (String.eqb (tag_lower c) "func" || negb (nonempty (default "" (tag c))));
    [apply IH|].
  destruct (exec_node functions fuel c s) as [s1| |]; cbn; [apply IH | reflexivity..].
Qed.

Lemma run_nodes_top_level (fuel : nat) (cs : list Node) (s : Engine) :
  run_nodes functions fuel cs s
  = exec_children (exec_node functions fuel) (filter (fun c => top_level c = true) cs) s.
Proof.
  revert s. induction cs as [|c r IH]; intros s; [reflexivity|].
  cbn [run_nodes]. rewrite filter_cons.
  destruct (top_level c) eqn:T.
  - rewrite decide_True by reflexivity. unfold top_level in T.
    apply andb_prop in T as [T1 T2]. apply negb_true_iff in T1. rewrite T1, T2.
    cbn [orb negb exec_children].
    destruct (exec_node functions fuel c s) as [s1| |]; cbn; [apply IH | reflexivity..].
  - rewrite decide_False by discriminate. unfold top_level in T.
    destruct (String.eqb (tag_lower c) "func"); [apply IH|].
    cbn [negb andb] in T. rewrite T. apply IH.
Qed.

(** X13 ([run]).  A run executes, in document order, the children of the
    root that are elements other than function definitions ([func] in any
    letter case), and nothing else.  Running two lists one after the other
    is running their concatenation, and the first exception ends the run
    with the state it was raised in: no later node is executed. *)
Theorem run_top_level (fuel : nat) (pre post : list Node) (c : Node)
    (s s1 s2 : Engine) (e : Exn) :
  top_level c = true ->
  run_nodes functions fuel pre s = Ok s1 ->
  exec_node functions fuel c s1 = Raise e s2 ->
  run_nodes functions fuel (pre ++ c :: post) s = Raise e s2
  /\ (forall cs s0,
        run_nodes functions fuel cs s0
        = exec_children (exec_node functions fuel)
            (filter (fun c => top_level c = true) cs) s0)
  /\ (forall a b s0,
        run_nodes functions fuel (a ++ b) s0
        = run_nodes functions fuel a s0 ≫= run_nodes functions fuel b).
Proof.
  intros T R E. split_and!.
  - rewrite run_nodes_app, R. cbn. unfold top_level in T.
    apply andb_prop in T as [T1 T2]. apply negb_true_iff in T1.
    rewrite T1, T2. cbn. rewrite E. reflexivity.
  - intros cs s0. apply run_nodes_top_level.
  - intros a b s0. apply run_nodes_app.
Qed.

(** X14 ([_exec_node]).  A node whose tag, in lower case, is [func] or none
    of the sixteen tags with a handler (a comment, a misspelt directive) is
    passed over once the pause gate has opened: no handler runs, and the
    delay attributes of such a node are not honoured. *)
Theorem exec_node_passes_over (fuel : nat) (nd : Node) (s : Engine) :
  tag_lower nd = "func" \/ str_in (tag_lower nd) handled_tags = false ->
  exec_node functions (S fuel) nd s = pause_gate fuel s
  /\ (forall s', exec_node functions (S fuel) nd s = Ok s' ->
        variables s' = variables s /\ paused s' = false).
Proof.
  intros T.
  assert (E : exec_node functions (S fuel) nd s = pause_gate fuel s).
  { cbn [exec_node]. destruct T as [T|T].
    - rewrite T. cbn. destruct (pause_gate fuel s); reflexivity.
    - unfold handled_tags, str_in in T. cbn [existsb] in T.
      repeat (apply orb_false_elim in T as [? T]).
      unfold str_in, action_tags. cbn [existsb].
      repeat match goal with E : String.eqb _ _ = false |- _ => rewrite E; clear E end.
      cbn [orb]. destruct (String.eqb (tag_lower nd) "func");
        unfold handle_func; destruct (pause_gate fuel s); reflexivity. }
  split; [exact E|]. intros s' R. rewrite E in R. apply pause_gate_variables in R. exact R.
Qed.

Lemma register_lookup (fns : gmap string Node) (g : Node) (n : string) :
  register fns g !! n = if decide (func_name g = Some n) then Some g else fns !! n.
Proof.
  unfold register, func_name. destruct (truthy_attr (get g "name")) as [m|].
  - destruct (decide (Some m = Some n)) as [[= ->]|N].
    + apply lookup_insert_eq.
    + apply lookup_insert_ne. congruence.
  - destruct (decide (None = Some n)); [discriminate | reflexivity].
Qed.

(** The table after registering a list of definitions: a name leads to the
    last definition of the list that bears it, or to what it led to before. *)
Lemma fold_register_lookup (l : list Node) (fns : gmap string Node) (n : string) (f : Node) :
  fold_left register l fns !! n = Some f
  <-> (exists pre post, l = (pre ++ f :: post)%list /\ func_name f = Some n
                        /\ Forall (fun g => func_name g <> Some n) post)
      \/ (fns !! n = Some f /\ Forall (fun g => func_name g <> Some n) l).
Proof.
  revert fns. induction l as [|g r IH]; intros fns; cbn [fold_left].
  - split.
    + intros E. right. split; [exact E | constructor].
    + intros [(pre & post & E & _)|[E _]]; [destruct pre; discriminate | exact E].
  - rewrite IH, register_lookup. split.
    + intros [(pre & post & -> & N & F)|[E F]].
      * left. exists (g :: pre), post. auto.
      * destruct (decide (func_name g = Some n)) as [N|N].
        -- injection E as ->. left. exists [], r. auto.
        -- right. split; [exact E | constructor; assumption].
    + intros [(pre & post & E & N & F)|[E F]].
      * destruct pre as [|g' pre]; cbn [app] in E; injection E as -> ->.
        -- right. rewrite decide_True by exact N. auto.
        -- left. exists pre, post. auto.
      * apply Forall_cons in F as [N F]. right.
        rewrite decide_False by exact N. auto.
Qed.

Lemma registered_is_func (tree : Node) (n : string) (f : Node) :
  register_functions tree !! n = Some f ->
  tag f = Some "func" /\ f ∈ descendants tree /\ get f "name" = Some n /\ n <> "".
Proof.
  unfold register_functions. intros R.
  apply fold_register_lookup in R as [(pre & post & E & N & _)|[R _]];
    [|rewrite lookup_empty in R; discriminate].
  assert (I : f ∈ filter (fun d => is_func d = true) (descendants tree)).
  { rewrite E. apply elem_of_app. right. apply elem_of_cons. left. reflexivity. }
  apply list_elem_of_filter in I as [Fn I]. split_and!.
  - unfold is_func in Fn. destruct (tag f) as [t|]; [|discriminate].
    apply String.eqb_eq in Fn. subst t. reflexivity.
  - exact I.
  - unfold func_name, truthy_attr in N. destruct (get f "name") as [m|]; [|discriminate].
    destruct (nonempty m); [exact N | discriminate].
  - intros ->. unfold func_name, truthy_attr in N.
    destruct (get f "name") as [m|]; [|discriminate].
    destruct (nonempty m) eqn:M; [|discriminate].
    injection N as ->. discriminate.
Qed.

(** X15 ([_load_xml], the registration of functions).  After loading, a
    name leads to a definition exactly when that definition is the last
    one, in document order, among the elements beneath the root whose tag is
    [func] that bears this name in a non-empty [name] attribute: a later
    definition replaces an earlier one of the same name, wherever they are
    nested, and a definition without a name is not registered. *)
Theorem register_functions_last_wins (tree : Node) (n : string) (f : Node) :
  (register_functions tree !! n = Some f
   <-> exists pre post,
         filter (fun d => is_func d = true) (descendants tree) = (pre ++ f :: post)%list
         /\ func_name f = Some n
         /\ Forall (fun g => func_name g <> Some n) post)
  /\ (register_functions tree !! n = Some f ->
      tag f = Some "func" /\ f ∈ descendants tree /\ get f "name" = Some n /\ n <> "").
Proof.
  split; [|apply registered_is_func].
  unfold register_functions. rewrite fold_register_lookup. split.
  - intros [E|[E _]]; [exact E | rewrite lookup_empty in E; discriminate].
  - intros E. left. exact E.
Qed.

(** X16 ([run] against [_load_xml]).  The two places that recognise a
    function definition disagree on the letter case: an element whose tag
    is [func] in some other case than all lower case is skipped by a run,
    as a definition is, but it is never registered, whatever its name and
    wherever it stands in the program. *)
Theorem func_tag_case (fuel : nat) (c : Node) (t : string) :
  tag c = Some t -> lower t = "func" -> t <> "func" ->
  (forall r s, run_nodes functions fuel (c :: r) s = run_nodes functions fuel r s)
  /\ (forall tree n, register_functions tree !! n <> Some c).
Proof.
  intros T L N. split.
  - intros r s. cbn [run_nodes]. unfold tag_lower. rewrite T. cbn [default].
    unfold id. rewrite L. reflexivity.
  - intros tree n R. apply registered_is_func in R as [R _]. congruence.
Qed.

End MoreDispatcher.

(** ** Handlers at the edges *)

Section MoreHandlers.
Context `{H : Host}.
Variable functions : gmap string Node.
Variable exec : Node -> Engine -> Result Engine.

Ltac open_state :=
  unfold same_frame, sleep_paused, sleep, skip_wait_now, toggle_pause, with_world,
    with_skip_wait, with_paused, with_last_ctrlspace, with_voice, assign,
    with_variables in *;
  cbn [variables skip_wait paused last_ctrlspace voice clock paused_ms world] in *.

Lemma foreach_items_none (list_attr : string) (s : Engine) :
  foreach_items list_attr s = None
  <-> exists d, variables s !! list_attr = Some d /\ listable d = false.
Proof.
  unfold foreach_items. destruct (variables s !! list_attr) as [d|].
  - split.
    + intros E. exists d. split; [reflexivity|].
      destruct d as [| | | | | |r t [l|] f z]; try reflexivity; discriminate.
    + intros (d' & [= <-] & L).
      destruct d as [| | | | | |r t [l|] f z]; try reflexivity; discriminate.
  - split; [discriminate | intros (d & D & _); discriminate].
Qed.

(** X17 ([handle_foreach], what it does before the first body run).  The
    tests come in this order.  Without a function name the directive does
    nothing at all, whatever the list is.  A [TypeError] is raised, whether
    the function is known or not, exactly when the list attribute names a
    variable that holds neither a text nor anything [list()] accepts:
    [None], a boolean, a number, or an object that cannot be iterated; a
    dictionary, a set or a generator is looped over, and an attribute that
    names no variable never raises it.  An unknown function raises a
    [ValueError] that names it, after the list has been read and shuffled.
    And over an empty list the body is never run and no loop variable is
    set: the directive is its delays. *)
Theorem foreach_edges (fuel : nat) (nd : Node) (s : Engine) :
  let func_name := str_or (get nd "do") "" in
  let items0 := foreach_items (str_or (get nd "list") "") s in
  (func_name = "" -> handle_foreach functions exec fuel nd s = Ok s)
  /\ (func_name <> "" -> items0 = None ->
      handle_foreach functions exec fuel nd s = Raise (MkExn TypeError None) s)
  /\ (items0 = None
      <-> exists d, variables s !! str_or (get nd "list") "" = Some d /\ listable d = false)
  /\ (forall r t l f z, variables s !! str_or (get nd "list") "" = Some (VObj r t (Some l) f z) ->
        items0 = Some l)
  /\ (forall l, func_name <> "" -> items0 = Some l -> functions !! func_name = None ->
        handle_foreach functions exec fuel nd s
        = Raise (MkExn ValueError (Some ("Unknown function in foreach: " +:+ func_name)))
            (with_world (snd (foreach_shuffle nd l (world s))) s))
  /\ (forall l func, func_name <> "" -> items0 = Some l ->
        functions !! func_name = Some func ->
        fst (foreach_shuffle nd l (world s)) = [] ->
        handle_foreach functions exec fuel nd s
        = delays fuel nd (with_world (snd (foreach_shuffle nd l (world s))) s)
        /\ forall s', handle_foreach functions exec fuel nd s = Ok s' ->
                      variables s' = variables s).
Proof.
  intros func_name items0.
  assert (N : func_name <> "" -> nonempty func_name = true) by (destruct func_name; done).
  unfold handle_foreach. fold func_name. fold items0. split_and!.
  - intros ->. reflexivity.
  - intros F ->. rewrite (N F). reflexivity.
  - apply foreach_items_none.
  - intros r t l f z E. subst items0. unfold foreach_items. rewrite E. reflexivity.
  - intros l F -> U. rewrite (N F). cbn [negb].
    destruct (foreach_shuffle nd l (world s)) as [items w]. rewrite U. reflexivity.
  - intros l func F -> K E. rewrite (N F). cbn [negb].
    destruct (foreach_shuffle nd l (world s)) as [items w]. cbn [fst snd] in *. subst items.
    rewrite K. cbn [foreach_loop]. split; [reflexivity|].
    intros s' D. cbn in D. apply delays_variables in D. exact D.
Qed.

Lemma check_message_unset (k v : string) (s : Engine) :
  variables s !! k = None ->
  check_message k v s
  = "Check failed for " +:+ k +:+ ": actual=None, expected="
    +:+ substitute_vars (Some v) (variables s).
Proof.
  intros U. unfold check_message. rewrite U. cbn [str_actual default py_str].
  reflexivity.
Qed.

(** X18 ([handle_check] on a variable that was never set).  The stored
    value is then read as [None]: without a tolerance the comparison passes
    exactly when the expected text, after substitution, is the four letters
    [None]; with a tolerance it never passes, whatever is expected, and the
    [AssertionError] reports [actual=None]. *)
Theorem check_unset_variable (k v : string) (s : Engine) :
  variables s !! k = None ->
  (fst (check_ok None k v s) = true <-> substitute_vars (Some v) (variables s) = "None")
  /\ (forall t, fst (check_ok (Some t) k v s) = false)
  /\ (forall t r, str_in k check_skipped = false ->
        exists w,
          check_attrs (Some t) ((k, v) :: r) s
          = Raise (MkExn AssertionError
                     (Some ("Check failed for " +:+ k +:+ ": actual=None, expected="
                            +:+ substitute_vars (Some v) (variables s))))
              (with_world w s)).
Proof.
  intros U.
  assert (T : forall t, fst (check_ok (Some t) k v s) = false).
  { intros t. unfold check_ok. rewrite U. destruct (safe_eval _ _ _) as [r w].
    cbn. destruct (r ≫= py_float); reflexivity. }
  split_and!.
  - rewrite check_ok_string, U. cbn [str_actual default py_str]. split; congruence.
  - exact T.
  - intros t r K. exists (snd (check_ok (Some t) k v s)).
    rewrite (check_attrs_fails (Some t) k v r s K (T t)), (check_message_unset k v s U).
    reflexivity.
Qed.

Lemma sleep_loop_no_raise (fuel : nat) (end_ts : Z) (s s' : Engine) (e : Exn) :
  sleep_loop fuel end_ts s <> Raise e s'.
Proof.
  revert s. induction fuel as [|f IH]; intros s; cbn [sleep_loop]; [discriminate|].
  destruct (sleep_step end_ts s); [apply IH | discriminate].
Qed.

Lemma sleep_ms_no_raise (fuel : nat) (total_ms : Z) (s s' : Engine) (e : Exn) :
  sleep_ms_interruptible fuel total_ms s <> Raise e s'.
Proof.
  unfold sleep_ms_interruptible. destruct (total_ms <=? 0); [discriminate|].
  destruct (sleep_loop fuel (clock s + total_ms) s) as [r|e' s''|] eqn:L; cbn;
    [discriminate | | discriminate].
  exfalso. exact (sleep_loop_no_raise _ _ _ _ _ L).
Qed.

Lemma delays_no_raise (fuel : nat) (nd : Node) (s s' : Engine) (e : Exn) :
  delays fuel nd s <> Raise e s'.
Proof.
  unfold delays.
  assert (A : forall r : Result Engine, (forall e0 s0, r <> Raise e0 s0) ->
            r ≫= (fun s1 =>
                    match truthy_attr (get nd "delay_ms") ≫= int_of_string with
                    | Some dm =>
                        let '(j, w) := jitter_ms dm (world s1) in
                        sleep_ms_interruptible fuel j (with_world w s1)
                    | None => Ok s1
                    end) <> Raise e s').
  { intros [s1|e0 s0|] N; cbn; [| exfalso; exact (N e0 s0 eq_refl) | discriminate].
    destruct (truthy_attr (get nd "delay_ms") ≫= int_of_string); [|discriminate].
    destruct (jitter_ms _ _) as [j w]. apply sleep_ms_no_raise. }
  apply A. destruct (truthy_attr (get nd "delay_fixed") ≫= int_of_string).
  - intros e0 s0. apply sleep_ms_no_raise.
  - discriminate.
Qed.

Lemma pause_gate_no_raise (fuel : nat) (s s' : Engine) (e : Exn) :
  pause_gate fuel s <> Raise e s'.
Proof.
  revert s. induction fuel as [|f IH]; intros s; cbn [pause_gate];
    destruct (paused (listen s)); try discriminate.
  destruct (pause_toggle_event _) as [b w]. apply IH.
Qed.

Lemma check_attrs_variables (tol : option float) (kvs : list (string * string))
    (s s' : Engine) :
  check_attrs tol kvs s = Ok s' -> variables s' = variables s.
Proof.
  revert s. induction kvs as [|[k v] r IH]; intros s; cbn [check_attrs].
  - intros [= <-]. reflexivity.
  - destruct (str_in k check_skipped); [apply IH|].
    destruct (check_ok tol k v s) as [ok w]. destruct ok; [|discriminate].
    intros E. apply IH in E. exact E.
Qed.

(** Where the loop of [handle_check] raises: at the first attribute it
    compares that fails, in the state the passes before it left. *)
Lemma check_attrs_first_failure (tol : option float) (kvs : list (string * string))
    (s s' : Engine) (e : Exn) :
  check_attrs tol kvs s = Raise e s'
  <-> exists pre k v post s1,
        kvs = (pre ++ (k, v) :: post)%list
        /\ str_in k check_skipped = false
        /\ check_attrs tol pre s = Ok s1
        /\ fst (check_ok tol k v s1) = false
        /\ e = MkExn AssertionError (Some (check_message k v s1))
        /\ s' = with_world (snd (check_ok tol k v s1)) s1.
Proof.
  split.
  - revert s. induction kvs as [|[k0 v0] r IH]; intros s; cbn [check_attrs];
      [discriminate|].
    destruct (str_in k0 check_skipped) eqn:K.
    + intros R. apply IH in R as (pre & k & v & post & s1 & -> & A & B & C & D & E).
      exists ((k0, v0) :: pre), k, v, post, s1. cbn [app check_attrs]. rewrite K. split_and!; auto.
    + destruct (check_ok tol k0 v0 s) as [ok w] eqn:O. destruct ok.
      * intros R. apply IH in R as (pre & k & v & post & s1 & -> & A & B & C & D & E).
        exists ((k0, v0) :: pre), k, v, post, s1. cbn [app check_attrs]. rewrite K, O. split_and!; auto.
      * intros [= <- <-]. exists [], k0, v0, r, s. rewrite O. cbn [fst snd]. split_and!; auto.
  - intros (pre & k & v & post & s1 & -> & A & B & C & -> & ->).
    rewrite check_attrs_app, B. cbn. apply check_attrs_fails; assumption.
Qed.

(** X19 ([handle_check]).  A check can end in two exceptions only.  It ends
    in a [ValueError], in the state it was entered in and before anything
    is compared, exactly when [tol] is not a number.  Otherwise it ends in
    an exception exactly at the first attribute it compares, in document
    order, whose comparison fails: the attributes before it have passed,
    those after it are not compared, and the [AssertionError] names that
    attribute, with the value and the expected text it was compared with.
    The delays of a check raise nothing. *)
Theorem check_first_failure (fuel : nat) (nd : Node) (s s' : Engine) (e : Exn) :
  (check_tol nd = None -> handle_check fuel nd s = Raise (MkExn ValueError None) s)
  /\ (handle_check fuel nd s = Raise e s'
      <-> (check_tol nd = None /\ e = MkExn ValueError None /\ s' = s)
          \/ exists tol pre k v post s1,
               check_tol nd = Some tol
               /\ attrib nd = (pre ++ (k, v) :: post)%list
               /\ str_in k check_skipped = false
               /\ check_attrs tol pre s = Ok s1
               /\ fst (check_ok tol k v s1) = false
               /\ e = MkExn AssertionError (Some (check_message k v s1))
               /\ s' = with_world (snd (check_ok tol k v s1)) s1).
Proof.
  unfold handle_check. split; [intros ->; reflexivity|].
  destruct (check_tol nd) as [tol|].
  - split.
    + destruct (check_attrs tol (attrib nd) s) as [s1|e1 s1|] eqn:C; cbn.
      * intros D. exfalso. exact (delays_no_raise _ _ _ _ _ D).
      * intros [= <- <-]. right.
        apply check_attrs_first_failure in C as (pre & k & v & post & s2 & C).
        exists tol, pre, k, v, post, s2. split; [reflexivity | exact C].
      * discriminate.
    + intros [(N & _)|(tol' & pre & k & v & post & s1 & [= <-] & C)]; [discriminate|].
      rewrite (proj2 (check_attrs_first_failure tol (attrib nd) s s' e)); [reflexivity|].
      exists pre, k, v, post, s1. exact C.
  - split.
    + intros [= <- <-]. left. auto.
    + intros [(_ & -> & ->)|(tol & pre & k & v & post & s1 & N & _)];
        [reflexivity | discriminate].
Qed.

Lemma set_attrs_other (attrs : list (string * string)) (s : Engine) (k : string) :
  k ∉ attrs.*1 -> variables (fold_left set_attr attrs s) !! k = variables s !! k.
Proof.
  revert s. induction attrs as [|[k0 v0] r IH]; intros s N; [reflexivity|].
  cbn [fold_left]. cbn [fmap list_fmap fst] in N.
  apply not_elem_of_cons in N as [N1 N2].
  rewrite (IH _ N2), set_attr_lookup.
  destruct (str_in k0 set_skipped); [reflexivity|].
  destruct (decide (k0 = k)); [congruence | reflexivity].
Qed.

Lemma fold_set_attr_app (a b : list (string * string)) (s : Engine) :
  fold_left set_attr (a ++ b) s = fold_left set_attr b (fold_left set_attr a s).
Proof. apply fold_left_app. Qed.

(** X20 ([handle_set]).  The attributes of a [set] are assigned one after
    the other, and the value of an attribute is computed over the store as
    the attributes before it left it, so that it sees them: when the [set]
    ends, the variable its last attribute names holds the value of that
    attribute's text, substituted and then evaluated over the store those
    earlier attributes left, or the substituted text itself when the
    evaluation fails. *)
Theorem set_in_sequence (fuel : nat) (nd : Node) (pre : list (string * string))
    (k v : string) (s s' : Engine) :
  attrib nd = (pre ++ [(k, v)])%list ->
  str_in k set_skipped = false ->
  handle_set fuel nd s = Ok s' ->
  let s1 := fold_left set_attr pre s in
  let expr := substitute_vars (Some v) (variables s1) in
  variables s' !! k
  = Some (default (VStr expr) (fst (safe_eval expr (variables s1) (world s1)))).
Proof.
  intros A K R s1 expr. unfold handle_set in R. apply delays_variables in R.
  rewrite R, A, fold_set_attr_app. cbn [fold_left]. fold s1.
  unfold set_attr. rewrite K. fold expr.
  destruct (safe_eval expr (variables s1) (world s1)) as [r w]. cbn [fst].
  open_state. apply lookup_insert_eq.
Qed.

Lemma ensure_voice_variables (s : Engine) :
  variables (ensure_voice s) = variables s /\ clock (ensure_voice s) = clock s
  /\ skip_wait (ensure_voice s) = skip_wait s /\ paused (ensure_voice s) = paused s.
Proof.
  unfold ensure_voice. destruct (voice s); [auto|].
  destruct (negb _); [auto|].
  destruct (voice_start _ _) as [v w]. open_state. auto.
Qed.

Lemma append_longer (a b : string) : b <> "" -> a +:+ b <> a.
Proof.
  intros N E. apply (f_equal String.length) in E. rewrite length_append in E.
  destruct b; [done|]. cbn in E. lia.
Qed.

(** X21 ([handle_voice_event], [handle_voice_poll], [_ensure_voice]).
    When no voice daemon is running after [_ensure_voice] (voice is not
    enabled, or the daemon could not be started), neither directive
    listens or waits, whatever [wait] asks for: each sets its output
    variables to the empty text and goes on to its delays.  A running
    daemon is never started a second time. *)
Theorem voice_off_empty_outputs (fuel : nat) (nd : Node) (s : Engine) (wait_ms : Z) :
  voice (ensure_voice s) = None ->
  int_of_string (get_default nd "wait" "0") = Some wait_ms ->
  let out := str_or (get nd "out") "VOICE_TEXT" in
  let out_cmd := str_or (get nd "out_cmd") "VOICE_CMD" in
  let out_query := str_or (get nd "out_query") "VOICE_QUERY" in
  handle_voice_event fuel nd s
  = delays fuel nd (assign (out +:+ "_type") (VStr "") (assign out (VStr "") (ensure_voice s)))
  /\ handle_voice_poll fuel nd s
     = delays fuel nd (assign out_query (VStr "") (assign out_cmd (VStr "") (ensure_voice s)))
  /\ (forall s', handle_voice_event fuel nd s = Ok s' ->
        variables s' = <[out +:+ "_type" := VStr ""]> (<[out := VStr ""]> (variables s))
        /\ variables s' !! out = Some (VStr ""))
  /\ (forall s0, is_Some (voice s0) -> ensure_voice s0 = s0).
Proof.
  intros V W out out_cmd out_query.
  assert (E : handle_voice_event fuel nd s
              = delays fuel nd (assign (out +:+ "_type") (VStr "")
                                  (assign out (VStr "") (ensure_voice s)))).
  { unfold handle_voice_event. rewrite W, V. reflexivity. }
  split_and!.
  - exact E.
  - unfold handle_voice_poll. rewrite V. reflexivity.
  - intros s' R. rewrite E in R. apply delays_variables in R.
    destruct (ensure_voice_variables s) as (Vs & _).
    open_state. rewrite R, Vs. split; [reflexivity|].
    rewrite lookup_insert_ne by (apply append_longer; discriminate).
    apply lookup_insert_eq.
  - intros s0 [x X]. unfold ensure_voice. rewrite X. reflexivity.
Qed.

Lemma exec_children_app (a b : list Node) (s : Engine) :
  exec_children exec (a ++ b) s = exec_children exec a s ≫= exec_children exec b.
Proof.
  revert s. induction a as [|c r IH]; intros s; [reflexivity|].
  cbn [app exec_children]. destruct (exec c s) as [s1| |]; cbn; [apply IH | reflexivity..].
Qed.

Lemma fold_bind_arg_keeps (r : list (string * string)) (t : Engine) (k : string) :
  is_Some (variables t !! k) -> is_Some (variables (fold_left bind_arg r t) !! k).
Proof.
  revert t. induction r as [|[k1 v1] r IH]; intros t B; [exact B|].
  cbn [fold_left]. apply IH. unfold bind_arg. cbn [fst snd]. open_state.
  destruct (decide (k1 = k)) as [->|N].
  - rewrite lookup_insert_eq. eauto.
  - rewrite lookup_insert_ne by exact N. exact B.
Qed.

Lemma bind_args_binds (attrs : list (string * string)) (s : Engine) (k : string) :
  k ∈ (filter (fun kv => is_arg kv = true) attrs).*1 ->
  is_Some (variables (bind_args attrs s) !! k).
Proof.
  unfold bind_args. revert s.
  induction (filter (fun kv => is_arg kv = true) attrs) as [|[k0 v0] r IH]; intros s I;
    [apply elem_of_nil in I; done|].
  cbn [fmap list_fmap fst] in I. cbn [fold_left].
  apply elem_of_cons in I as [->|I]; [|exact (IH _ I)].
  apply fold_bind_arg_keeps. unfold bind_arg. cbn [fst snd]. open_state.
  rewrite lookup_insert_eq. eauto.
Qed.

(** X22 ([handle_call], an exception in the body).  Nothing in a call
    catches an exception: when a child of the called function raises, the
    call ends in that exception and in the state it was raised in; the
    children after it are not run and the delays of the call are not slept.
    When it is the first child that raises, it was started with every
    argument of the call bound. *)
Theorem call_body_exception (fuel : nat) (nd func c : Node) (pre post : list Node)
    (s s1 s2 : Engine) (e : Exn) :
  callee functions nd = Some func ->
  children func = (pre ++ c :: post)%list ->
  exec_children exec pre (bind_args (attrib nd) s) = Ok s1 ->
  exec c s1 = Raise e s2 ->
  handle_call functions exec fuel nd s = Raise e s2
  /\ (pre = [] ->
      forall k, k ∈ (filter (fun kv => is_arg kv = true) (attrib nd)).*1 ->
                is_Some (variables s1 !! k)).
Proof.
  intros F C P R. split.
  - rewrite (handle_call_known functions exec fuel nd func s F), C, exec_children_app, P.
    cbn. rewrite R. reflexivity.
  - intros -> k I. cbn in P. injection P as <-. apply bind_args_binds, I.
Qed.

End MoreHandlers.

(** ** The store only grows *)

Section MoreInvariant.
Context `{H : Host}.
Variable functions : gmap string Node.

Ltac open_state :=
  unfold same_frame, sleep_paused, sleep, skip_wait_now, toggle_pause, with_world,
    with_skip_wait, with_paused, with_last_ctrlspace, with_voice, assign,
    with_variables in *;
  cbn [variables skip_wait paused last_ctrlspace voice clock paused_ms world] in *.

Lemma keeps_same (s0 s s' : Engine) :
  variables s' = variables s -> keeps_names s0 s -> keeps_names s0 s'.
Proof. intros E K k B. rewrite E. exact (K k B). Qed.

Lemma keeps_assign (s0 s : Engine) (k : string) (v : Value) :
  keeps_names s0 s -> keeps_names s0 (assign k v s).
Proof.
  intros K k' B. open_state. destruct (decide (k = k')) as [->|N].
  - rewrite lookup_insert_eq. eauto.
  - rewrite lookup_insert_ne by exact N. exact (K k' B).
Qed.

Lemma keeps_bind (s0 : Engine) (r : Result Engine) (k : Engine -> Result Engine) :
  result_keeps s0 r ->
  (forall s1, keeps_names s0 s1 -> result_keeps s0 (k s1)) ->
  result_keeps s0 (r ≫= k).
Proof. destruct r as [s1|e s1|]; cbn; auto. Qed.

Lemma gate_keeps (s0 : Engine) (fuel : nat) (s : Engine) :
  keeps_names s0 s -> result_keeps s0 (pause_gate fuel s).
Proof.
  intros K. destruct (pause_gate fuel s) as [s1|e s1|] eqn:G; cbn; [| |exact I].
  - apply pause_gate_variables in G as [V _]. exact (keeps_same _ _ _ V K).
  - exfalso. exact (pause_gate_no_raise _ _ _ _ G).
Qed.

Lemma sleep_ms_keeps (s0 : Engine) (fuel : nat) (total_ms : Z) (s : Engine) :
  keeps_names s0 s -> result_keeps s0 (sleep_ms_interruptible fuel total_ms s).
Proof.
  intros K. destruct (sleep_ms_interruptible fuel total_ms s) as [s1|e s1|] eqn:G; cbn;
    [| |exact I].
  - apply sleep_ms_variables in G. exact (keeps_same _ _ _ G K).
  - exfalso. exact (sleep_ms_no_raise _ _ _ _ _ G).
Qed.

Lemma delays_keeps (s0 : Engine) (fuel : nat) (nd : Node) (s : Engine) :
  keeps_names s0 s -> result_keeps s0 (delays fuel nd s).
Proof.
  intros K. destruct (delays fuel nd s) as [s1|e s1|] eqn:G; cbn; [| |exact I].
  - apply delays_variables in G. exact (keeps_same _ _ _ G K).
  - exfalso. exact (delays_no_raise _ _ _ _ _ G).
Qed.

Lemma ensure_voice_keeps (s0 s : Engine) :
  keeps_names s0 s -> keeps_names s0 (ensure_voice s).
Proof. apply keeps_same, ensure_voice_variables. Qed.

Lemma voice_events_check_variables (want : string) (deadline : option Z) (s : Engine) :
  match voice_events_check want deadline s with
  | Exit _ s' | Again s' => variables s' = variables s
  end.
Proof.
  unfold voice_events_check. destruct (skip_wait s); [reflexivity|].
  destruct (voice_get_event (world s)) as [[evt dt] w].
  destruct evt as [e|]; repeat (match goal with |- context [if ?b then _ else _] =>
                                  destruct b end); reflexivity.
Qed.

Lemma voice_queues_check_variables (want : string) (deadline : option Z) (s : Engine) :
  match voice_queues_check want deadline s with
  | Exit _ s' | Again s' => variables s' = variables s
  end.
Proof.
  unfold voice_queues_check. destruct (skip_wait s); [reflexivity|].
  destruct (if str_in want ["any"; "command"] then voice_next_command (world s)
            else (None, world s)) as [[e|] w1]; [reflexivity|].
  destruct (if str_in want ["any"; "query"] then voice_next_query w1 else (None, w1))
    as [[e|] w2]; [reflexivity|].
  destruct (past deadline _); reflexivity.
Qed.

Lemma voice_loop_variables (check : Engine -> Step (string * string)) :
  (forall s, match check s with Exit _ s' | Again s' => variables s' = variables s end) ->
  forall (fuel : nat) (s : Engine),
    match voice_loop check fuel s with
    | Ok r => variables (snd r) = variables s
    | Raise _ _ => False
    | OutOfFuel => True
    end.
Proof.
  intros C. induction fuel as [|f IH]; intros s; cbn [voice_loop]; [exact I|].
  destruct (pause_gate f s) as [s1|e s1|] eqn:G; cbn; [| |exact I].
  - apply pause_gate_variables in G as [V _].
    pose proof (C (listen s1)) as Cs. destruct (listen_frame s1) as (L & _).
    destruct (check (listen s1)) as [s2|x s2].
    + specialize (IH s2). destruct (voice_loop check f s2) as [r|e s3|]; auto. congruence.
    + cbn. congruence.
  - exact (pause_gate_no_raise _ _ _ _ G).
Qed.

Lemma handle_voice_event_keeps (s0 : Engine) (fuel : nat) (nd : Node) (s : Engine) :
  keeps_names s0 s -> result_keeps s0 (handle_voice_event fuel nd s).
Proof.
  intros K. unfold handle_voice_event.
  pose proof (ensure_voice_keeps s0 s K) as K0.
  destruct (int_of_string (get_default nd "wait" "0")) as [wait_ms|]; [|exact K0].
  destruct (voice (ensure_voice s)) as [kind|].
  - match goal with |- context [voice_loop ?c fuel _] => set (check := c) end.
    assert (C : forall s, match check s with
                          | Exit _ s' | Again s' => variables s' = variables s end).
    { intros t. subst check. destruct kind;
        [apply voice_events_check_variables | apply voice_queues_check_variables]. }
    pose proof (voice_loop_variables check C fuel (ensure_voice s)) as L.
    destruct (voice_loop check fuel (ensure_voice s)) as [r|e s1|]; cbn; [|done|exact I].
    apply delays_keeps, keeps_assign, keeps_assign. exact (keeps_same _ _ _ L K0).
  - apply delays_keeps, keeps_assign, keeps_assign, K0.
Qed.

Lemma handle_voice_poll_keeps (s0 : Engine) (fuel : nat) (nd : Node) (s : Engine) :
  keeps_names s0 s -> result_keeps s0 (handle_voice_poll fuel nd s).
Proof.
  intros K. unfold handle_voice_poll.
  pose proof (ensure_voice_keeps s0 s K) as K0.
  destruct (voice (ensure_voice s)) as [kind|].
  - destruct (voice_next_command _) as [c w1].
    destruct (c ≫= ev_seconds) as [secs|];
      destruct (voice_next_query _) as [q w2];
      apply delays_keeps, keeps_assign, keeps_assign.
    + apply (keeps_same _ (assign (str_or (get nd "out_cmd") "VOICE_CMD" +:+ "_seconds")
                             secs (ensure_voice s))); [reflexivity|].
      apply keeps_assign, K0.
    + apply (keeps_same _ (ensure_voice s)); [reflexivity | exact K0].
  - apply delays_keeps, keeps_assign, keeps_assign, K0.
Qed.

Lemma handle_set_keeps (s0 : Engine) (fuel : nat) (nd : Node) (s : Engine) :
  keeps_names s0 s -> result_keeps s0 (handle_set fuel nd s).
Proof.
  intros K. unfold handle_set. apply delays_keeps.
  revert s K. induction (attrib nd) as [|kv r IH]; intros s K; [exact K|].
  cbn [fold_left]. apply IH. intros k B. apply set_attr_keeps, K, B.
Qed.

Lemma handle_check_keeps (s0 : Engine) (fuel : nat) (nd : Node) (s : Engine) :
  keeps_names s0 s -> result_keeps s0 (handle_check fuel nd s).
Proof.
  intros K. unfold handle_check. destruct (check_tol nd) as [tol|]; [|exact K].
  destruct (check_attrs tol (attrib nd) s) as [s1|e s1|] eqn:C; cbn; [| |exact I].
  - apply check_attrs_variables in C. apply delays_keeps. exact (keeps_same _ _ _ C K).
  - apply check_attrs_raise in C as [_ V]. exact (keeps_same _ _ _ V K).
Qed.

Lemma handle_wait_keeps (s0 : Engine) (fuel : nat) (nd : Node) (s : Engine) :
  keeps_names s0 s -> result_keeps s0 (handle_wait fuel nd s).
Proof.
  intros K. unfold handle_wait.
  destruct (int_of_string (get_default nd "ms" "0")); [apply sleep_ms_keeps, K | exact K].
Qed.

Lemma handle_action_keeps (s0 : Engine) (fuel : nat) (tagl : string) (nd : Node)
    (s : Engine) :
  action_keeps -> keeps_names s0 s -> result_keeps s0 (handle_action fuel tagl nd s).
Proof.
  intros A K. unfold handle_action.
  pose proof (A tagl nd (variables s) (world s)) as Ak.
  destruct (action tagl nd (variables s) (world s)) as [a w]. cbn [fst] in Ak.
  assert (K1 : keeps_names s0
                 (sleep (act_elapsed a) (with_variables (act_variables a) (with_world w s)))).
  { intros k B. open_state. apply Ak, K, B. }
  destruct (act_raised a); [exact K1|].
  destruct (act_delays a); [apply delays_keeps, K1 | exact K1].
Qed.

(** The handlers that run other nodes, over any executor that keeps names. *)
Section Nested.
Variable exec : Node -> Engine -> Result Engine.
Hypothesis exec_keeps :
  forall s0 nd s, keeps_names s0 s -> result_keeps s0 (exec nd s).

Lemma exec_children_keeps (s0 : Engine) (cs : list Node) (s : Engine) :
  keeps_names s0 s -> result_keeps s0 (exec_children exec cs s).
Proof.
  revert s. induction cs as [|c r IH]; intros s K; [exact K|].
  cbn [exec_children]. apply keeps_bind; [apply exec_keeps, K | exact IH].
Qed.

Lemma exec_children_gated_keeps (s0 : Engine) (fuel : nat) (cs : list Node) (s : Engine) :
  keeps_names s0 s -> result_keeps s0 (exec_children_gated exec fuel cs s).
Proof.
  revert s. induction cs as [|c r IH]; intros s K; [exact K|].
  cbn [exec_children_gated]. apply keeps_bind; [apply gate_keeps, K|].
  intros s1 K1. apply keeps_bind; [apply exec_keeps, K1 | exact IH].
Qed.

Lemma if_children_keeps (s0 : Engine) (res in_else : bool) (cs : list Node) (s : Engine) :
  keeps_names s0 s -> result_keeps s0 (if_children exec res in_else cs s).
Proof.
  revert in_else s. induction cs as [|c r IH]; intros in_else s K; [exact K|].
  cbn [if_children]. destruct (tag c) as [t|]; [|apply IH, K].
  destruct (is_else t); [apply IH, K|].
  destruct (res && negb in_else || negb res && in_else); [|apply IH, K].
  apply keeps_bind; [apply exec_keeps, K | intros s1 K1; apply IH, K1].
Qed.

Lemma handle_if_keeps (s0 : Engine) (nd : Node) (s : Engine) :
  keeps_names s0 s -> result_keeps s0 (handle_if exec nd s).
Proof.
  intros K. unfold handle_if. destruct (if_cond nd s) as [res w].
  apply if_children_keeps. exact (keeps_same _ s _ eq_refl K).
Qed.

Lemma foreach_loop_keeps (s0 : Engine) (fuel : nat) (var_name : string)
    (body : list Node) (items : list Value) (idx : Z) (s : Engine) :
  keeps_names s0 s ->
  result_keeps s0 (foreach_loop exec fuel var_name body idx items s).
Proof.
  revert idx s. induction items as [|val r IH]; intros idx s K; [exact K|].
  cbn [foreach_loop]. apply keeps_bind; [apply gate_keeps, K|].
  intros s1 K1. apply keeps_bind; [|intros s2 K2; apply IH, K2].
  apply exec_children_gated_keeps. unfold foreach_bind.
  apply keeps_assign, keeps_assign, keeps_assign, K1.
Qed.

Lemma handle_foreach_keeps (s0 : Engine) (fuel : nat) (nd : Node) (s : Engine) :
  keeps_names s0 s -> result_keeps s0 (handle_foreach functions exec fuel nd s).
Proof.
  intros K. unfold handle_foreach.
  destruct (negb (nonempty (str_or (get nd "do") ""))); [exact K|].
  destruct (foreach_items _ s) as [items0|]; [|exact K].
  destruct (foreach_shuffle nd items0 (world s)) as [items w].
  assert (K0 : keeps_names s0 (with_world w s)) by exact (keeps_same _ s _ eq_refl K).
  destruct (functions !! str_or (get nd "do") "") as [func|]; [|exact K0].
  apply keeps_bind; [apply foreach_loop_keeps, K0 | intros s1; apply delays_keeps].
Qed.

Lemma repeat_loop_keeps (s0 : Engine) (fuel : nat) (cs : list Node) (n : nat) (s : Engine) :
  keeps_names s0 s -> result_keeps s0 (repeat_loop exec fuel cs n s).
Proof.
  revert s. induction n as [|m IH]; intros s K; [exact K|].
  cbn [repeat_loop]. apply keeps_bind; [apply exec_children_gated_keeps, K | exact IH].
Qed.

Lemma handle_repeat_keeps (s0 : Engine) (fuel : nat) (nd : Node) (s : Engine) :
  keeps_names s0 s -> result_keeps s0 (handle_repeat exec fuel nd s).
Proof.
  intros K. unfold handle_repeat. destruct (repeat_count nd s) as [n w].
  apply keeps_bind; [|intros s1; apply delays_keeps].
  apply repeat_loop_keeps. exact (keeps_same _ s _ eq_refl K).
Qed.

Lemma handle_call_keeps (s0 : Engine) (fuel : nat) (nd : Node) (s : Engine) :
  keeps_names s0 s -> result_keeps s0 (handle_call functions exec fuel nd s).
Proof.
  intros K. unfold handle_call. destruct (callee functions nd) as [func|]; [|exact K].
  apply keeps_bind; [|intros s1; apply delays_keeps].
  apply exec_children_keeps.
  revert s K. induction (attrib nd) as [|[k v] r IH]; intros s K; [exact K|].
  cbn [fold_left]. apply IH. unfold call_arg.
  destruct (startswith "arg" k); [apply keeps_assign, K | exact K].
Qed.

End Nested.

Lemma exec_node_keeps :
  action_keeps ->
  forall (fuel : nat) (s0 : Engine) (nd : Node) (s : Engine),
    keeps_names s0 s -> result_keeps s0 (exec_node functions fuel nd s).
Proof.
  intros A. induction fuel as [|f IH]; intros s0 nd s K; [exact I|].
  cbn [exec_node]. apply keeps_bind; [apply gate_keeps, K|].
  intros s1 K1.
  destruct (String.eqb (tag_lower nd) "set"); [apply handle_set_keeps, K1|].
  destruct (String.eqb (tag_lower nd) "if"); [apply handle_if_keeps; assumption|].
  destruct (String.eqb (tag_lower nd) "voice_poll"); [apply handle_voice_poll_keeps, K1|].
  destruct (String.eqb (tag_lower nd) "check"); [apply handle_check_keeps, K1|].
  destruct (String.eqb (tag_lower nd) "foreach"); [apply handle_foreach_keeps; assumption|].
  destruct (String.eqb (tag_lower nd) "func"); [exact K1|].
  destruct (String.eqb (tag_lower nd) "call"); [apply handle_call_keeps; assumption|].
  destruct (String.eqb (tag_lower nd) "repeat"); [apply handle_repeat_keeps; assumption|].
  destruct (String.eqb (tag_lower nd) "wait"); [apply handle_wait_keeps, K1|].
  destruct (String.eqb (tag_lower nd) "voice_event"); [apply handle_voice_event_keeps, K1|].
  destruct (str_in (tag_lower nd) action_tags); [apply handle_action_keeps; assumption|].
  exact K1.
Qed.

(** X23 ([_exec_node], [run] and every handler).  No directive of the
    engine removes a variable: as long as the handlers of the Action
    Dispatch delete none, every name bound before a node is executed, or
    before a program is run, is still bound afterwards, whether the
    execution ends normally or in an exception.  The engine itself only
    adds names and overwrites values. *)
Theorem variables_never_removed (fuel : nat) (nd tree : Node) (s : Engine) :
  action_keeps ->
  result_keeps s (exec_node functions fuel nd s)
  /\ result_keeps s (run functions fuel tree s).
Proof.
  intros A. split.
  - apply (exec_node_keeps A). intros k B. exact B.
  - unfold run. rewrite run_nodes_top_level.
    apply exec_children_keeps; [apply (exec_node_keeps A) | intros k B; exact B].
Qed.

End MoreInvariant.

(** ** A program from loading to the end of its run *)

Section MoreProgram.
Context `{H : Host}.

Lemma fold_register_some (l : list Node) (fns : gmap string Node) (n : string) :
  (exists g, g ∈ l /\ func_name g = Some n) \/ is_Some (fns !! n) ->
  is_Some (fold_left register l fns !! n).
Proof.
  revert fns. induction l as [|g r IH]; intros fns [(x & I & N)|S]; cbn [fold_left].
  - apply elem_of_nil in I. done.
  - exact S.
  - apply IH. apply elem_of_cons in I as [->|I]; [|left; eauto].
    right. rewrite register_lookup, decide_True by exact N. eauto.
  - apply IH. right. rewrite register_lookup. destruct (decide _); [eauto | exact S].
Qed.

(** X24 ([handle_call] after [_load_xml]).  In a loaded program a [call]
    finds its function exactly when its [name] attribute is not empty and
    some element beneath the root, at any depth, has the tag [func] and
    that same name; in every other case the call raises. *)
Theorem call_finds_definition (tree nd : Node) :
  (is_Some (callee (register_functions tree) nd)
   <-> exists f n,
         f ∈ descendants tree /\ tag f = Some "func" /\ get f "name" = Some n
         /\ get nd "name" = Some n /\ n <> "")
  /\ (callee (register_functions tree) nd = None ->
      forall exec fuel s,
        handle_call (register_functions tree) exec fuel nd s
        = Raise (unknown_function (get nd "name")) s).
Proof.
  split; [|intros N exec fuel s; apply handle_call_unknown, N].
  unfold callee. split.
  - intros [g G]. unfold truthy_attr in G.
    destruct (get nd "name") as [n|] eqn:N; [|discriminate].
    destruct (nonempty n); [|discriminate]. cbn in G.
    apply registered_is_func in G as (T & I & Nm & Ne).
    exists g, n. auto.
  - intros (f & n & I & T & Nf & Nn & Ne). rewrite Nn. unfold truthy_attr.
    assert (Nz : nonempty n = true) by (destruct n; done). rewrite Nz. cbn.
    unfold register_functions. apply fold_register_some. left. exists f. split.
    + apply list_elem_of_filter. split; [|exact I]. unfold is_func. rewrite T. reflexivity.
    + unfold func_name, truthy_attr. rewrite Nf, Nz. reflexivity.
Qed.

(** X25 ([__init__], then [run]).  A new engine binds [SCREEN_W] and
    [SCREEN_H] to the size of the screen, or to 1920 and 1080 when there is
    no [pyautogui] or the size cannot be read; and as long as the handlers
    of the Action Dispatch delete no variable, both names are still bound
    when the run of the loaded program ends, normally or in an exception. *)
Theorem screen_size_bound (fuel : nat) (scr : Screen) (now : Z) (w : World) (tree : Node) :
  action_keeps ->
  variables (new_engine scr now w) !! "SCREEN_W"
  = Some (VInt match scr with ScreenSize sw _ => sw | _ => 1920 end)
  /\ variables (new_engine scr now w) !! "SCREEN_H"
     = Some (VInt match scr with ScreenSize _ sh => sh | _ => 1080 end)
  /\ match run_program fuel scr now w tree with
     | Ok s' | Raise _ s' =>
         is_Some (variables s' !! "SCREEN_W") /\ is_Some (variables s' !! "SCREEN_H")
     | OutOfFuel => True
     end.
Proof.
  intros A.
  assert (W : variables (new_engine scr now w) !! "SCREEN_W"
              = Some (VInt match scr with ScreenSize sw _ => sw | _ => 1920 end)).
  { destruct scr; cbn [new_engine variables initial_variables];
      (rewrite lookup_insert_ne by discriminate); apply lookup_singleton_eq. }
  assert (Hh : variables (new_engine scr now w) !! "SCREEN_H"
               = Some (VInt match scr with ScreenSize _ sh => sh | _ => 1080 end)).
  { destruct scr; cbn [new_engine variables initial_variables]; apply lookup_insert_eq. }
  split; [exact W|]. split; [exact Hh|].
  unfold run_program, run. rewrite run_nodes_top_level.
  pose proof (exec_children_keeps (exec_node (register_functions tree) fuel)
                (exec_node_keeps (register_functions tree) A fuel)
                (new_engine scr now w)
                (filter (fun c => top_level c = true) (children tree))
                (new_engine scr now w) (fun k B => B)) as K.
  destruct (exec_children _ _ _) as [s'|e s'|]; [| |exact I];
    (split; apply K; [rewrite W | rewrite Hh]; eauto).
Qed.

End MoreProgram.

(** ** Screen coordinates *)

(** X26 ([_safe_point]).  With a screen at least two margins wide and
    high, the point returned lies at least one margin inside every edge,
    and a point that already does is returned as it is; on a narrower
    screen the result is the margin itself, which is then past the far edge
    less the margin.  In every case clamping a second time changes nothing.
    Without [pyautogui] the point is returned untouched, and when the
    screen size cannot be read a screen of 1920 by 1080 is assumed. *)
Theorem safe_point_clamps (sw sh x y margin : Z) :
  let p := safe_point (ScreenSize sw sh) x y margin in
  (2 * margin <= sw -> margin <= fst p <= sw - margin)
  /\ (2 * margin <= sh -> margin <= snd p <= sh - margin)
  /\ (margin <= x <= sw - margin -> margin <= y <= sh - margin -> p = (x, y))
  /\ (sw < 2 * margin -> fst p = margin)
  /\ (sh < 2 * margin -> snd p = margin)
  /\ safe_point (ScreenSize sw sh) (fst p) (snd p) margin = p
  /\ safe_point SizeRaises x y margin = safe_point (ScreenSize 1920 1080) x y margin
  /\ safe_point NoPyautogui x y margin = (x, y).
Proof.
  cbn [safe_point fst snd]. split_and!; try reflexivity; try lia.
  - intros X Y. f_equal; lia.
  - f_equal; lia.
Qed.

(** ** The further properties on concrete scripts *)

Section MoreRuns.
Import Demo Desk.

Ltac by_vm :=
  lazymatch goal with
  | |- ?l = ?r => vm_cast_no_check (@eq_refl _ r)
  end.

(** A value with a space and a slash, under the filter [URL] written with
    white space around it. *)
Lemma apply_filter_url_safe_witness :
  str_in (lower (strip " URL ")) url_filters = true
  /\ apply_filter (VStr "a b/c") (Some " URL ") = "a+b%2Fc"
  /\ all_chars is_url_safe (apply_filter (VStr "a b/c") (Some " URL ")) = true.
Proof.
  split; [reflexivity|]. split; [by_vm|].
  apply (apply_filter_url_safe (VStr "a b/c") " URL "). reflexivity.
Defined.

(** A value that is itself a placeholder is inserted as it stands. *)
Lemma substitute_at_placeholder_witness :
  is_ident "X" = true
  /\ substitute_vars (Some "a${X}b") (<["Y" := VStr "no"]> {[ "X" := VStr "${Y}" ]})
     = "a${Y}b".
Proof.
  split; [reflexivity|].
  etransitivity;
    [exact (proj2 (substitute_at_placeholder
                     (<["Y" := VStr "no"]> {[ "X" := VStr "${Y}" ]}) "a" "b" "X" None
                     eq_refl eq_refl))
    | by_vm].
Defined.

(** Dollar signs and braces that open no placeholder. *)
Lemma substitute_without_opening_witness :
  has_opening "cost: $5 {x} $" = false
  /\ substitute_vars (Some "cost: $5 {x} $") {[ "x" := VStr "1" ]} = "cost: $5 {x} $".
Proof.
  split; [reflexivity|].
  apply (substitute_without_opening {[ "x" := VStr "1" ]} "cost: $5 {x} $"). reflexivity.
Defined.

(** A string variable of three lines, the middle one blank. *)
Lemma foreach_items_lines_witness :
  nonblank_lines ("x" +:+ newline +:+ " " +:+ newline +:+ "y") = ["x"; "y"]
  /\ foreach_items "L"
       (engine {[ "L" := VStr ("x" +:+ newline +:+ " " +:+ newline +:+ "y") ]} [])
     = Some (VStr <$> nonblank_lines ("x" +:+ newline +:+ " " +:+ newline +:+ "y")).
Proof.
  split; [by_vm|].
  apply (foreach_items_lines "L"
           (engine {[ "L" := VStr ("x" +:+ newline +:+ " " +:+ newline +:+ "y") ]} [])
           ("x" +:+ newline +:+ " " +:+ newline +:+ "y")).
  vm_compute. reflexivity.
Defined.

(** A pause of three slices: 150 ms, all of them paused time. *)
Example pause_gate_three_slices :
  pause_gate 5 (engine ∅ pause_three_slices) = Ok gate_end.
Proof. by_vm. Qed.

(** The same pause with a skip requested after the first slice: the flag
    is set when the pause ends. *)
Lemma pause_gate_slices_witness :
  pause_gate 5 (engine ∅ pause_with_skip) = Ok gate_skip_end
  /\ paused gate_skip_end = false
  /\ skip_wait (engine ∅ pause_with_skip) = false
  /\ gate_sees (engine ∅ pause_with_skip) (listen (gate_slice (engine ∅ pause_with_skip)))
  /\ skip_wait (listen (gate_slice (engine ∅ pause_with_skip))) = true
  /\ skip_wait gate_skip_end = true
  /\ exists n : nat,
       (n <= 5)%nat
       /\ clock gate_skip_end = clock (engine ∅ pause_with_skip) + 50 * Z.of_nat n
       /\ paused_ms gate_skip_end = paused_ms (engine ∅ pause_with_skip) + 50 * Z.of_nat n.
Proof.
  split; [by_vm|].
  destruct (pause_gate_slices 5 (engine ∅ pause_with_skip) gate_skip_end ltac:(by_vm))
    as (A & _ & _ & _ & K & B).
  assert (T : gate_sees (engine ∅ pause_with_skip)
                (listen (gate_slice (engine ∅ pause_with_skip)))).
  { apply sees_later; [by_vm | apply sees_entry]. }
  assert (Sk : skip_wait (listen (gate_slice (engine ∅ pause_with_skip))) = true) by by_vm.
  split; [exact A|]. split; [reflexivity|]. split; [exact T|]. split; [exact Sk|].
  split; [exact (K _ T Sk) | exact B].
Defined.

(** Ctrl+Space held over two polls: the first pauses, the second does not
    resume. *)
Lemma poll_edge_triggered_witness :
  keyboard_state (world (keyed_engine false false [ctrl_space; ctrl_space]))
  = (Some ctrl_space, [ctrl_space])
  /\ paused (poll_hotkeys_inline (keyed_engine false false [ctrl_space; ctrl_space])) = true
  /\ paused (poll_hotkeys_inline
               (poll_hotkeys_inline (keyed_engine false false [ctrl_space; ctrl_space])))
     = true.
Proof.
  split; [reflexivity|].
  destruct (poll_edge_triggered (keyed_engine false false [ctrl_space; ctrl_space])
              ctrl_space [ctrl_space] eq_refl) as (_ & B & _ & _ & _ & F).
  split; [exact B|].
  rewrite (F ctrl_space [] eq_refl eq_refl eq_refl). exact B.
Defined.

(** Both delays on the small host, whose jitter is always zero. *)
Lemma delays_bounded_witness :
  (forall dm w, fst (jitter_ms dm w) <= Z.max 0 dm)
  /\ delays 10 delayed (engine ∅ []) = Ok delayed_end
  /\ running delayed_end - running (engine ∅ []) <= Z.max 0 100 + Z.max 0 30.
Proof.
  assert (J : forall dm (w : World), fst (jitter_ms dm w) <= Z.max 0 dm)
    by (intros dm w; cbn; lia).
  split; [exact J|]. split; [by_vm|].
  exact (proj2 (proj2 (proj2
           (delays_bounded 10 delayed (engine ∅ []) delayed_end J ltac:(by_vm))))).
Defined.

(** A wait of 120 ms on the host on which nothing happens. *)
Lemma wait_undisturbed_witness :
  exists s' : @Engine calm,
    sleep_ms_interruptible 4 120 (calm_engine ∅) = Ok s'
    /\ clock s' = clock (calm_engine ∅) + Z.max 0 120
    /\ paused_ms s' = paused_ms (calm_engine ∅)
    /\ variables s' = variables (calm_engine ∅)
    /\ skip_wait s' = false
    /\ paused s' = false.
Proof.
  apply (@wait_undisturbed calm 4 120 (calm_engine ∅)); try reflexivity.
  cbn. lia.
Defined.

(** The engine on which a skip was requested, before a wait of 100 ms. *)
Lemma pending_skip_ends_wait_witness :
  skip_wait skipping = true
  /\ sleep_ms_interruptible 3 0 skipping = Ok skipping
  /\ exists s', sleep_ms_interruptible 1 100 skipping = Ok s'
                /\ skip_wait s' = false /\ same_frame skipping s'.
Proof.
  destruct (pending_skip_ends_wait 3 0 skipping eq_refl eq_refl) as [A _].
  destruct (pending_skip_ends_wait 0 100 skipping eq_refl eq_refl) as [_ B].
  split; [reflexivity|]. split; [apply A; lia | apply B; lia].
Defined.

(** A definition is passed over, the call of an unknown function raises,
    and the wait behind it is not reached. *)
Lemma run_top_level_witness :
  top_level call_missing = true
  /\ run_nodes functions 3 ([first_f] ++ call_missing :: [wait_100]) (engine ∅ [])
     = Raise (unknown_function (Some "missing")) (engine ∅ []).
Proof.
  split; [reflexivity|].
  apply (run_top_level functions 3 [first_f] [wait_100] call_missing
           (engine ∅ []) (engine ∅ []) (engine ∅ [])).
  - reflexivity.
  - by_vm.
  - by_vm.
Defined.

(** A misspelt [set]: nothing is assigned and its second of delay is not
    slept. *)
Lemma exec_node_passes_over_witness :
  str_in (tag_lower misspelt) handled_tags = false
  /\ exec_node functions 4 misspelt (engine ∅ []) = pause_gate 3 (engine ∅ [])
  /\ exec_node functions 4 misspelt (engine ∅ []) = Ok (engine ∅ []).
Proof.
  split; [reflexivity|].
  destruct (exec_node_passes_over functions 3 misspelt (engine ∅ []) (or_intror eq_refl))
    as [A _].
  split; [exact A | by_vm].
Defined.

(** A definition written [Func]: a run passes it over, and loading the
    program that holds it registers nothing under its name. *)
Lemma func_tag_case_witness :
  lower "Func" = "func"
  /\ run_nodes functions 3 [capital_func; wait_100] (engine ∅ [])
     = run_nodes functions 3 [wait_100] (engine ∅ [])
  /\ register_functions (node "program" [] [capital_func]) !! "f" <> Some capital_func.
Proof.
  assert (N : "Func" <> "func") by discriminate.
  destruct (func_tag_case functions 3 capital_func "Func" eq_refl eq_refl N) as [A B].
  split; [reflexivity|]. split; [apply A | apply B].
Defined.

(** Two definitions of [f], the second nested in an [if]: the second is
    the one registered. *)
Example register_functions_nested :
  register_functions two_definitions = {[ "f" := second_f ]}.
Proof. by_vm. Qed.

(** A check of a variable that was never set, against the text [None]. *)
Lemma check_unset_variable_witness :
  variables (engine ∅ []) !! "x" = None
  /\ fst (check_ok None "x" "None" (engine ∅ [])) = true
  /\ fst (check_ok (Some 0.5%float) "x" "0" (engine ∅ [])) = false.
Proof.
  destruct (check_unset_variable "x" "None" (engine ∅ []) ltac:(by_vm)) as (A & _).
  destruct (check_unset_variable "x" "0" (engine ∅ []) ltac:(by_vm)) as (_ & B & _).
  split; [by_vm|]. split; [apply A; by_vm | apply B].
Defined.

(** The failing check of the specification's example: it ends at its one
    compared attribute, [x], and [tol] is passed over. *)
Lemma check_first_failure_witness :
  handle_check 5 check_far (engine stored [])
  = Raise (MkExn AssertionError (Some "Check failed for x: actual=1.004, expected=1.02"))
      (engine stored [])
  /\ exists tol pre k v post s1,
       check_tol check_far = Some tol
       /\ attrib check_far = (pre ++ (k, v) :: post)%list
       /\ str_in k check_skipped = false
       /\ check_attrs tol pre (engine stored []) = Ok s1
       /\ fst (check_ok tol k v s1) = false
       /\ MkExn AssertionError (Some "Check failed for x: actual=1.004, expected=1.02")
          = MkExn AssertionError (Some (check_message k v s1))
       /\ engine stored [] = with_world (snd (check_ok tol k v s1)) s1.
Proof.
  assert (E : handle_check 5 check_far (engine stored [])
              = Raise (MkExn AssertionError
                         (Some "Check failed for x: actual=1.004, expected=1.02"))
                  (engine stored [])) by by_vm.
  split; [exact E|].
  destruct (proj1 (proj2 (check_first_failure 5 check_far (engine stored [])
                            (engine stored [])
                            (MkExn AssertionError
                               (Some "Check failed for x: actual=1.004, expected=1.02"))))
              E) as [(N & _)|X]; [|exact X].
  vm_compute in N. discriminate.
Defined.

(** A dictionary in the store is looped over by its keys; a number is not
    looped over. *)
Example foreach_items_of_objects :
  foreach_items "D"
    (engine {[ "D" := VObj "{'k1': 1, 'k2': 2}" true (Some [VStr "k1"; VStr "k2"]) None None ]} [])
  = Some [VStr "k1"; VStr "k2"]
  /\ foreach_items "N" (engine {[ "N" := VInt 3 ]} []) = None.
Proof. split; by_vm. Qed.

(** White space outside ASCII: a no-break space and an em space are
    stripped, a line made of them is blank, and the Kelvin sign lowers to
    the letter k. *)
Example strip_unicode_blanks :
  strip (String "194" (String "160" " a b") +:+ String "226" (String "128" (String "131" "")))
  = "a b"
  /\ nonblank_lines (String "194" (String "160" (String "226" (String "128" (String "131" "")))))
     = []
  /\ lower ("CHEC" +:+ String "226" (String "132" (String "170" ""))) = "check".
Proof. split_and!; by_vm. Qed.

(** [<set a="2" b="${a}"/>]: [b] reads the [a] assigned just before. *)
Lemma set_in_sequence_witness :
  handle_set 3 set_a_b (engine ∅ []) = Ok set_a_b_end
  /\ variables set_a_b_end !! "b" = Some (VInt 2).
Proof.
  split; [by_vm|].
  rewrite (set_in_sequence 3 set_a_b [("a", "2")] "b" "${a}" (engine ∅ []) set_a_b_end
             eq_refl eq_refl ltac:(by_vm)).
  by_vm.
Defined.

(** Voice is off on the small host: a [voice_event] asking to wait five
    seconds returns at once with empty outputs. *)
Lemma voice_off_empty_outputs_witness :
  voice (ensure_voice (engine ∅ [])) = None
  /\ int_of_string (get_default voice_wait "wait" "0") = Some 5000
  /\ handle_voice_event 3 voice_wait (engine ∅ [])
     = delays 3 voice_wait
         (assign ("VOICE_TEXT" +:+ "_type") (VStr "")
            (assign "VOICE_TEXT" (VStr "") (ensure_voice (engine ∅ []))))
  /\ timing (handle_voice_event 3 voice_wait (engine ∅ [])) = Some (0, 0).
Proof.
  split; [by_vm|]. split; [by_vm|]. split; [|by_vm].
  exact (proj1 (voice_off_empty_outputs 3 voice_wait (engine ∅ []) 5000
                  ltac:(by_vm) ltac:(by_vm))).
Defined.

(** The small host's handlers return the store they were given; a run that
    ends in a failed check has kept the stored [x]. *)
Lemma variables_never_removed_witness :
  @action_keeps host
  /\ result_keeps (engine stored [])
       (run functions 6 (node "program" [] [set_a_b; check_far; wait_100]) (engine stored [])).
Proof.
  assert (A : @action_keeps host) by (intros tagl nd vars w k E; exact E).
  split; [exact A|].
  exact (proj2 (variables_never_removed functions 6 wait_100
                  (node "program" [] [set_a_b; check_far; wait_100]) (engine stored []) A)).
Defined.

(** Outside a loop the check inside [c] fails: the call ends in its
    [AssertionError], with the argument bound. *)
Lemma call_body_exception_witness :
  callee functions call_c = Some (node "func" [("name", "c")] [check_index])
  /\ handle_call functions (exec_node functions 3) 3 call_c (engine ∅ [])
     = Raise (MkExn AssertionError (Some "Check failed for index: actual=None, expected=0"))
         call_c_raised.
Proof.
  split; [by_vm|].
  exact (proj1 (call_body_exception functions (exec_node functions 3) 3 call_c
                  (node "func" [("name", "c")] [check_index]) check_index [] []
                  (engine ∅ []) call_c_raised call_c_raised
                  (MkExn AssertionError
                     (Some "Check failed for index: actual=None, expected=0"))
                  ltac:(by_vm) ltac:(by_vm) ltac:(by_vm) ltac:(by_vm))).
Defined.

(** A new engine on a host whose screen cannot be read, and the program
    with two definitions run on it. *)
Lemma screen_size_bound_witness :
  @action_keeps host
  /\ variables (@new_engine host SizeRaises 0 []) !! "SCREEN_W" = Some (VInt 1920)
  /\ variables (@new_engine host SizeRaises 0 []) !! "SCREEN_H" = Some (VInt 1080)
  /\ timing (@run_program host 6 SizeRaises 0 [] two_definitions) = Some (0, 0).
Proof.
  assert (A : @action_keeps host) by (intros tagl nd vars w k E; exact E).
  destruct (@screen_size_bound host 6 SizeRaises 0 [] two_definitions A) as (W & Hh & _).
  split; [exact A|]. split; [exact W|]. split; [exact Hh | by_vm].
Defined.

(** A call of [f] in that program finds the second definition. *)
Example call_finds_second_definition :
  callee (register_functions two_definitions) (node "call" [("name", "f")] [])
  = Some second_f.
Proof. by_vm. Qed.

(** White space, a doubled plus sign and capitals in a key combination. *)
Example hotkey_ctrl_shift_n :
  hotkey_send " Ctrl + Shift ++ n " = "Ctrl+Shift+n"
  /\ hotkey_keys " Ctrl + Shift ++ n " = ["ctrl"; "shift"; "n"].
Proof. split; by_vm. Qed.

(** The keyword arguments of [extension]: the five reserved attributes are
    left out, the list is split at its commas and the rest is cast. *)
Example extension_kwargs :
  extnode_kwargs extension {[ "who" := VStr "hi" ]}
  = [("topics_LIST", VList [VStr "a"; VStr "b"]); ("n", VInt 7); ("flag", VBool true);
     ("s", VStr "hi")].
Proof. by_vm. Qed.

(** Casts: a keyword comes before a number, an integer before a float. *)
Example smart_cast_texts :
  smart_cast (VStr " 012 ") = VInt 12
  /\ smart_cast (VStr "1") = VBool true
  /\ smart_cast (VStr " OFF") = VBool false
  /\ smart_cast VNone = VStr "None".
Proof. split_and!; by_vm. Qed.

(** A point off the right and top edges of a screen of 800 by 600, and a
    screen narrower than two margins. *)
Example safe_point_off_screen :
  safe_point (ScreenSize 800 600) 900 (-3) 5 = (795, 5)
  /\ safe_point (ScreenSize 8 600) 2 300 5 = (5, 300).
Proof. split; reflexivity. Qed.

End MoreRuns.
